(** * MergeTreeDataPartWriterCompact: the write path of compact parts

    A shallow embedding of
    [src/Storages/MergeTree/MergeTreeDataPartWriterCompact.cpp] and the
    properties of its granularity plan, granule planner, marks protocol and
    finalisation. *)

From Stdlib Require Import ZArith Lia List Bool.
From stdpp Require Import base list gmap strings.

Local Open Scope Z_scope.

(** ** Machine integers

    [size_t] and [UInt64] are 64-bit unsigned integers: a value is a [Z] in
    [[0, 2^64)], and the arithmetic of the source wraps around. *)

Module UInt64.

Definition modulus : Z := 2 ^ 64.

Definition wrap (z : Z) : Z := z mod modulus.

Definition add (a b : Z) : Z := wrap (a + b).
Definition sub (a b : Z) : Z := wrap (a - b).
Definition mul (a b : Z) : Z := wrap (a * b).

Definition in_range (z : Z) : Prop := 0 <= z < modulus.

End UInt64.

(** ** The granularity plan *)

Module MergeTreeIndexGranularity.

(** Modelled from the spec: the class [MergeTreeIndexGranularity] is declared
    outside this file.  The spec (section 4.1) describes it as a mutable,
    append-only sequence of per-mark row counts with the contract
    [markCount], [rowsInMark], [appendMark], [addRowsToLastMark] and
    [popLastMark].  A plan is the list of its marks' row counts.  The spec
    defines [rowsInMark] for the marks of the plan only: reading a mark
    that the plan does not have yields no value.  Of a plan without a last
    mark the spec says nothing: [addRowsToLastMark] then opens the first
    mark and [popMark] leaves the plan empty; the writer reaches neither
    case. *)
Definition t : Type := list Z.

Definition getMarksCount (ig : t) : Z := Z.of_nat (length ig).

Definition getMarkRows (ig : t) (mark_index : Z) : option Z :=
  if mark_index <? 0 then None else ig !! Z.to_nat mark_index.

Definition appendMark (ig : t) (rows_count : Z) : t := ig ++ [rows_count].

Definition addRowsToLastMark (ig : t) (rows_count : Z) : t :=
  match rev ig with
  | [] => [rows_count]
  | m :: before => rev before ++ [UInt64.add m rows_count]
  end.

Definition popMark (ig : t) : t :=
  match rev ig with
  | [] => []
  | _ :: before => rev before
  end.

(** Rows claimed by a plan. *)
Definition totalRows (ig : t) : Z := fold_right Z.add 0 ig.

End MergeTreeIndexGranularity.

Import MergeTreeIndexGranularity.

(** ** Extending the plan for one block: [fillIndexGranularityImpl] *)

(** One pass of the loop body at row position [current_row]. *)
Definition fillIndexGranularityImpl_body
    (ig : t) (index_offset index_granularity_for_block rows_in_block current_row : Z) : t :=
  let rows_left_in_block := UInt64.sub rows_in_block current_row in
  if (rows_left_in_block <? index_granularity_for_block)
     && ((index_granularity_for_block <=? rows_in_block) || negb (index_offset =? 0))
  then
    if index_granularity_for_block <=? UInt64.mul rows_left_in_block 2
    then appendMark ig rows_left_in_block
    else addRowsToLastMark ig rows_left_in_block
  else appendMark ig index_granularity_for_block.

(** The [for] loop; [None] when the fuel runs out before the loop ends. *)
Fixpoint fillIndexGranularityImpl_loop (fuel : nat)
    (ig : t) (index_offset index_granularity_for_block rows_in_block current_row : Z)
    : option t :=
  if current_row <? rows_in_block then
    match fuel with
    | O => None
    | S fuel' =>
        fillIndexGranularityImpl_loop fuel'
          (fillIndexGranularityImpl_body ig index_offset index_granularity_for_block
             rows_in_block current_row)
          index_offset index_granularity_for_block rows_in_block
          (UInt64.add current_row index_granularity_for_block)
    end
  else Some ig.

(** While no sum wraps around, every pass advances by at least one row:
    [rows_in_block] passes are enough. *)
Definition fillIndexGranularityImpl
    (ig : t) (index_offset index_granularity_for_block rows_in_block : Z) : option t :=
  fillIndexGranularityImpl_loop (Z.to_nat rows_in_block) ig index_offset
    index_granularity_for_block rows_in_block index_offset.

(** The extension of the plan as the specification words it: the row
    positions walked, and the mark decided at each of them. *)
Module PlanSpec.

Definition steps (index_offset G rows_in_block : Z) : nat :=
  if index_offset <? rows_in_block
  then Z.to_nat ((rows_in_block - index_offset + G - 1) / G)
  else O.

Definition positions (index_offset G rows_in_block : Z) : list Z :=
  map (fun k => index_offset + Z.of_nat k * G)
      (seq 0 (steps index_offset G rows_in_block)).

Definition extend_at (index_offset G rows_in_block : Z) (ig : t) (position : Z) : t :=
  let remaining := rows_in_block - position in
  if decide (remaining < G /\ (rows_in_block >= G \/ index_offset <> 0))
  then
    if decide (2 * remaining >= G)
    then appendMark ig remaining
    else addRowsToLastMark ig remaining
  else appendMark ig G.

Definition extend (ig : t) (index_offset G rows_in_block : Z) : t :=
  fold_left (extend_at index_offset G rows_in_block)
            (positions index_offset G rows_in_block) ig.

End PlanSpec.

(** ** The granule planner: [getGranulesToWrite] *)

Record Granule : Type := {
  start_row : Z;
  rows_to_write : Z;
  mark_number : Z;
  mark_on_start : bool;
  is_complete : bool
}.

Definition Granules : Type := list Granule.

(** Sealing and flushing calls on the output buffers the writer owns. *)
Inductive Buffer : Type :=
| StreamHashingBuf (codec_id : Z)
| StreamCompressedBuf (codec_id : Z)
| PlainHashing
| PlainFile
| MarksSourceHashing
| MarksCompressor
| MarksFileHashing
| MarksFile.

Inductive SinkOp : Type :=
| Finalize (b : Buffer)
| Next (b : Buffer)
| PreFinalize (b : Buffer)
| Sync (b : Buffer).

(** The exceptions of the write path.  The first three are
    [ErrorCodes::LOGICAL_ERROR]; [NonExistingMark] is the fault of a read of
    the plan past its end. *)
Inductive Exception : Type :=
| RequestBeyondMarks (current_mark marks_count : Z)
| TooFewRows (expected_rows_in_mark rows_left_in_block : Z)
| NonExistingMark (mark_index marks_count : Z)
| IOFault (op : SinkOp).

Inductive outcome (A : Type) : Type :=
| Returned (a : A)
| Thrown (e : Exception)
| OutOfFuel.

Definition is_logical_error (e : Exception) : Prop :=
  match e with
  | IOFault _ => False
  | _ => True
  end.

Arguments Returned {A} a.
Arguments Thrown {A} e.
Arguments OutOfFuel {A}.

Fixpoint getGranulesToWrite_loop (fuel : nat)
    (index_granularity : t) (block_rows : Z) (last_block : bool)
    (current_row current_mark : Z) (result : Granules) : outcome Granules :=
  if current_row <? block_rows then
    match fuel with
    | O => OutOfFuel
    | S fuel' =>
        match getMarkRows index_granularity current_mark with
        | None => Thrown (NonExistingMark current_mark (getMarksCount index_granularity))
        | Some expected_rows_in_mark =>
            let rows_left_in_block := UInt64.sub block_rows current_row in
            if (rows_left_in_block <? expected_rows_in_mark) && negb last_block
            then Thrown (TooFewRows expected_rows_in_mark rows_left_in_block)
            else
              let granule := {|
                start_row := current_row;
                rows_to_write := Z.min rows_left_in_block expected_rows_in_mark;
                mark_number := current_mark;
                mark_on_start := true;
                is_complete := expected_rows_in_mark <=? rows_left_in_block
              |} in
              getGranulesToWrite_loop fuel' index_granularity block_rows last_block
                (UInt64.add current_row (rows_to_write granule))
                (UInt64.add current_mark 1)
                (result ++ [granule])
        end
    end
  else Returned result.

(** Every pass of the loop reads one more mark of the plan, so one unit of
    fuel per mark, and one for the pass that finds the plan exhausted, is
    enough. *)
Definition getGranulesToWrite
    (index_granularity : t) (block_rows current_mark : Z) (last_block : bool)
    : outcome Granules :=
  if getMarksCount index_granularity <=? current_mark
  then Thrown (RequestBeyondMarks current_mark (getMarksCount index_granularity))
  else getGranulesToWrite_loop (S (length index_granularity)) index_granularity
         block_rows last_block 0 current_mark [].

(** The planner's loop by recursion on the marks it reads: [marks] are the
    marks of the plan from the cursor on. *)
Module PlannerSpec.

Definition outcome_map {A B : Type} (f : A -> B) (o : outcome A) : outcome B :=
  match o with
  | Returned a => Returned (f a)
  | Thrown e => Thrown e
  | OutOfFuel => OutOfFuel
  end.

Fixpoint walk (marks : list Z) (last_block : bool)
    (block_rows current_row current_mark marks_count : Z) : outcome Granules :=
  if current_row <? block_rows then
    match marks with
    | [] => Thrown (NonExistingMark current_mark marks_count)
    | m :: rest =>
        let rows_left := block_rows - current_row in
        if (rows_left <? m) && negb last_block
        then Thrown (TooFewRows m rows_left)
        else
          outcome_map
            (cons {| start_row := current_row;
                     rows_to_write := Z.min rows_left m;
                     mark_number := current_mark;
                     mark_on_start := true;
                     is_complete := m <=? rows_left |})
            (walk rest last_block block_rows (current_row + Z.min rows_left m)
               (current_mark + 1) marks_count)
    end
  else Returned [].

(** Rows of the first [k] marks. *)
Definition rows_before (marks : list Z) (k : nat) : Z := totalRows (take k marks).

(** Rows taken by a sequence of granules. *)
Definition granule_rows (gs : Granules) : Z :=
  fold_right (fun g acc => rows_to_write g + acc) 0 gs.

(** The plan's marks are 64-bit values, and so is their number. *)
Definition plan_in_range (ig : t) : Prop :=
  Forall UInt64.in_range ig /\ getMarksCount ig < UInt64.modulus.

(** At step [k] of a flush of [block_rows] rows over [marks], rows remain
    and they are fewer than mark [k] requires. *)
Definition short_step (marks : list Z) (block_rows : Z) (k : nat) : Prop :=
  (k < length marks)%nat /\
  rows_before marks k < block_rows < rows_before marks (S k).

End PlannerSpec.

(** ** The writer and its collaborators *)

Definition UInt128 : Type := (Z * Z)%type.

(** The sixteen bytes of a 128-bit hash in little-endian order, low word
    first: what [transformEndianness<std::endian::little>] leaves in memory. *)
Definition UInt64_le_bytes (z : Z) : list Z :=
  map (fun i => (z / 256 ^ Z.of_nat i) mod 256) (seq 0 8).

Definition UInt128_le_bytes (h : UInt128) : list Z :=
  UInt64_le_bytes (fst h) ++ UInt64_le_bytes (snd h).

(** Modelled from the spec: the checksum entry of a physical file
    ([MergeTreeDataPartChecksums::Checksum], declared outside this file),
    section 3: [is_compressed], [uncompressed_size], the 128-bit
    [uncompressed_hash], [file_size] and [file_hash].  An entry created by
    [files[name]] starts zeroed. *)
Record Checksum : Type := {
  file_size : Z;
  file_hash : UInt128;
  is_compressed : bool;
  uncompressed_size : Z;
  uncompressed_hash : UInt128
}.

Definition Checksum_zero : Checksum :=
  {| file_size := 0; file_hash := (0, 0); is_compressed := false;
     uncompressed_size := 0; uncompressed_hash := (0, 0) |}.

(** [checksums.files[name]], and an assignment to one of its fields. *)
Definition files_at (checksums : gmap string Checksum) (name : string) : Checksum :=
  default Checksum_zero (checksums !! name).

Definition files_update (name : string) (f : Checksum -> Checksum)
    (checksums : gmap string Checksum) : gmap string Checksum :=
  <[name := f (files_at checksums name)]> checksums.

Definition set_file_size (v : Z) (c : Checksum) : Checksum :=
  {| file_size := v; file_hash := file_hash c; is_compressed := is_compressed c;
     uncompressed_size := uncompressed_size c; uncompressed_hash := uncompressed_hash c |}.
Definition set_file_hash (v : UInt128) (c : Checksum) : Checksum :=
  {| file_size := file_size c; file_hash := v; is_compressed := is_compressed c;
     uncompressed_size := uncompressed_size c; uncompressed_hash := uncompressed_hash c |}.
Definition set_is_compressed (v : bool) (c : Checksum) : Checksum :=
  {| file_size := file_size c; file_hash := file_hash c; is_compressed := v;
     uncompressed_size := uncompressed_size c; uncompressed_hash := uncompressed_hash c |}.
Definition set_uncompressed_size (v : Z) (c : Checksum) : Checksum :=
  {| file_size := file_size c; file_hash := file_hash c; is_compressed := is_compressed c;
     uncompressed_size := v; uncompressed_hash := uncompressed_hash c |}.
Definition set_uncompressed_hash (v : UInt128) (c : Checksum) : Checksum :=
  {| file_size := file_size c; file_hash := file_hash c; is_compressed := is_compressed c;
     uncompressed_size := uncompressed_size c; uncompressed_hash := v |}.

(** What the writer asks of the layers around it: columns and their
    serialization, the granularity policy, the output buffers with their
    byte counts and hashes, the hash function, the index writers of the base
    class and the file names of the compact format. *)
Class Collaborators : Type := {
  Column : Type;
  column_size : Column -> Z;
  insertRangeFrom : Column -> Column -> Column;
  computeIndexGranularity : list Column -> Z;
  Sinks : Type;
  serialize_column : string -> list Column -> Z -> Z -> Sinks -> Sinks;
  write_mark_field : Z -> Sinks -> Sinks;
  sink_op : SinkOp -> Sinks -> option Sinks;
  buffer_count : Buffer -> Sinks -> Z;
  buffer_getHash : Buffer -> Sinks -> UInt128;
  CityHash128WithSeed : list Z -> UInt128 -> UInt128;
  primary_index_checksums : gmap string Checksum -> gmap string Checksum;
  skip_indices_checksums : gmap string Checksum -> gmap string Checksum;
  DATA_FILE_NAME : string;
  DATA_FILE_NAME_WITH_EXTENSION : string
}.

Section Writer.
Context {collaborators : Collaborators}.

(** A block is the list of its columns; its rows are those of the first. *)
Definition Block : Type := list Column.

Definition Block_rows (block : Block) : Z :=
  match block with
  | [] => 0
  | column :: _ => column_size column
  end.

(** *** [ColumnsBuffer] *)

(** [insertRangeFrom] column by column; the source requires as many
    accumulated columns as the block has. *)
Fixpoint ColumnsBuffer_insert (accumulated_columns columns : list Column) : list Column :=
  match accumulated_columns, columns with
  | a :: accumulated', c :: columns' =>
      insertRangeFrom a c :: ColumnsBuffer_insert accumulated' columns'
  | _, _ => accumulated_columns
  end.

Definition ColumnsBuffer_add (accumulated_columns columns : list Column) : list Column :=
  match accumulated_columns with
  | [] => columns
  | _ :: _ => ColumnsBuffer_insert accumulated_columns columns
  end.

Definition ColumnsBuffer_size (accumulated_columns : list Column) : Z :=
  match accumulated_columns with
  | [] => 0
  | column :: _ => column_size column
  end.

(** The released columns, and the buffer left behind. *)
Definition ColumnsBuffer_releaseColumns (accumulated_columns : list Column)
    : list Column * list Column :=
  (accumulated_columns, []).

(** *** The calls the writer makes, in order *)
Inductive Event : Type :=
| MarkRecord (offset_in_compressed_file offset_in_decompressed_block : Z)
| MarkRows (rows : Z)
| ColumnGranule (name : string) (from_row number_of_rows : Z)
| PrimaryIndex (granules : Granules)
| SkipIndices (granules : Granules)
| Sink (op : SinkOp)
| PrimaryIndexChecksums
| SkipIndicesChecksums
| PrimaryIndexFinish (sync : bool)
| SkipIndicesFinish (sync : bool).

Record Settings : Type := {
  columns_list : list string;
  rewrite_primary_key : bool;
  with_final_mark : bool;
  compute_granularity : bool;
  marks_compressed : bool;
  marks_file_extension : string;
  streams_by_codec : list Z
}.

(** The writer: its settings, fixed at construction ([marks_compressed] says
    whether [marks_compressor] and [marks_source_hashing] exist;
    [streams_by_codec] lists the codec ids of the compressed streams in the
    iteration order of the container), and its mutable state.  [trace] is the
    sequence of calls made so far.  The header, an empty clone of the first
    block, holds no rows and is left out. *)
Record Writer : Type := {
  settings : Settings;
  index_granularity : MergeTreeIndexGranularity.t;
  current_mark : Z;
  columns_buffer : list Column;
  data_written : bool;
  sinks : Sinks;
  trace : list Event
}.

Definition new_writer (s : Settings) (index_granularity_ : MergeTreeIndexGranularity.t)
    (sinks_ : Sinks) : Writer :=
  {| settings := s; index_granularity := index_granularity_; current_mark := 0;
     columns_buffer := []; data_written := false; sinks := sinks_; trace := [] |}.

Definition with_index_granularity (v : MergeTreeIndexGranularity.t) (w : Writer) : Writer :=
  {| settings := settings w; index_granularity := v; current_mark := current_mark w;
     columns_buffer := columns_buffer w; data_written := data_written w;
     sinks := sinks w; trace := trace w |}.
Definition with_current_mark (v : Z) (w : Writer) : Writer :=
  {| settings := settings w; index_granularity := index_granularity w; current_mark := v;
     columns_buffer := columns_buffer w; data_written := data_written w;
     sinks := sinks w; trace := trace w |}.
Definition with_columns_buffer (v : list Column) (w : Writer) : Writer :=
  {| settings := settings w; index_granularity := index_granularity w;
     current_mark := current_mark w; columns_buffer := v; data_written := data_written w;
     sinks := sinks w; trace := trace w |}.
Definition with_data_written (v : bool) (w : Writer) : Writer :=
  {| settings := settings w; index_granularity := index_granularity w;
     current_mark := current_mark w; columns_buffer := columns_buffer w; data_written := v;
     sinks := sinks w; trace := trace w |}.

(** A call to a collaborator: its effect on the buffers, and its record. *)
Definition call (e : Event) (effect : Sinks -> Sinks) (w : Writer) : Writer :=
  {| settings := settings w; index_granularity := index_granularity w;
     current_mark := current_mark w; columns_buffer := columns_buffer w;
     data_written := data_written w; sinks := effect (sinks w); trace := trace w ++ [e] |}.

(** *** Stateful computations that can throw *)
Definition M (A : Type) : Type := Writer -> Writer * outcome A.

Definition ret {A : Type} (a : A) : M A := fun w => (w, Returned a).

Definition bind {A B : Type} (m : M A) (k : A -> M B) : M B :=
  fun w =>
    match m w with
    | (w', Returned a) => k a w'
    | (w', Thrown e) => (w', Thrown e)
    | (w', OutOfFuel) => (w', OutOfFuel)
    end.

Definition get : M Writer := fun w => (w, Returned w).

Definition modify (f : Writer -> Writer) : M unit := fun w => (f w, Returned tt).

Definition lift {A : Type} (o : outcome A) : M A := fun w => (w, o).

Definition when (b : bool) (m : M unit) : M unit := if b then m else ret tt.

End Writer.

Notation "x <- m ;; k" := (bind m (fun x => k))
  (at level 100, m at next level, right associativity).
Notation "m ;;; k" := (bind m (fun _ => k))
  (at level 100, right associativity).

(** ** The operations of [MergeTreeDataPartWriterCompact] *)

Section WriterOperations.
Context {collaborators : Collaborators}.

Definition getCurrentMark (w : Writer) : Z := current_mark w.

(** [index_granularity.getMarkRows(mark_index)] inside the writer: a read
    past the end of the plan is a fault. *)
Definition markRows (mark_index : Z) : M Z := fun w =>
  match getMarkRows (index_granularity w) mark_index with
  | Some rows => (w, Returned rows)
  | None =>
      (w, Thrown (NonExistingMark mark_index (getMarksCount (index_granularity w))))
  end.

Definition fillIndexGranularity (index_granularity_for_block rows_in_block : Z) : M unit :=
  w <- get ;;
  index_offset <-
    (if getCurrentMark w <? getMarksCount (index_granularity w)
     then rows <- markRows (getCurrentMark w) ;;
          ret (UInt64.sub rows (ColumnsBuffer_size (columns_buffer w)))
     else ret 0) ;;
  match fillIndexGranularityImpl (index_granularity w) index_offset
          index_granularity_for_block rows_in_block with
  | Some ig => modify (with_index_granularity ig)
  | None => lift OutOfFuel
  end.

(** One column of one granule: the mark record, then the column's bytes.
    [serialize_column] stands for [writeColumnSingleGranule] through the
    stream getter, with the rotations of the compressed streams ([next()])
    during and after the column. *)
Definition writeColumnInGranule (block : Block) (granule : Granule)
    (w : Writer) (name : string) : Writer :=
  let offset := buffer_count PlainHashing (sinks w) in
  let w := call (MarkRecord offset 0)
             (fun s => write_mark_field 0 (write_mark_field offset s)) w in
  call (ColumnGranule name (start_row granule) (rows_to_write granule))
    (serialize_column name block (start_row granule) (rows_to_write granule)) w.

Definition writeGranule (block : Block) (w : Writer) (granule : Granule) : Writer :=
  let w := with_data_written true w in
  let w := fold_left (writeColumnInGranule block granule) (columns_list (settings w)) w in
  call (MarkRows (rows_to_write granule)) (write_mark_field (rows_to_write granule)) w.

Definition writeDataBlock (block : Block) (granules : Granules) (w : Writer) : Writer :=
  fold_left (writeGranule block) granules w.

(** The data, then the primary index when it is rewritten, then the skip
    indices; the two index writers belong to the base class. *)
Definition writeDataBlockPrimaryIndexAndSkipIndices
    (block : Block) (granules_to_write : Granules) (w : Writer) : Writer :=
  let w := writeDataBlock block granules_to_write w in
  let w := if rewrite_primary_key (settings w)
           then call (PrimaryIndex granules_to_write) id w else w in
  call (SkipIndices granules_to_write) id w.

(** [write], for a block already permuted. *)
Definition write (block : Block) : M unit :=
  w <- get ;;
  when (compute_granularity (settings w))
    (fillIndexGranularity (computeIndexGranularity block) (Block_rows block)) ;;;
  modify (fun w => with_columns_buffer (ColumnsBuffer_add (columns_buffer w) block) w) ;;;
  w <- get ;;
  current_mark_rows <- markRows (getCurrentMark w) ;;
  let rows_in_buffer := ColumnsBuffer_size (columns_buffer w) in
  when (current_mark_rows <=? rows_in_buffer)
    (let (flushed_block, released) := ColumnsBuffer_releaseColumns (columns_buffer w) in
     modify (with_columns_buffer released) ;;;
     granules_to_write <-
       lift (getGranulesToWrite (index_granularity w) (Block_rows flushed_block)
               (getCurrentMark w) false) ;;
     modify (writeDataBlockPrimaryIndexAndSkipIndices flushed_block granules_to_write) ;;;
     modify (fun w => with_current_mark
               (UInt64.add (getCurrentMark w) (Z.of_nat (length granules_to_write))) w)).

(** The first step of [fillDataChecksums]: the rows still buffered.  The
    planner returns at least one granule for a buffer that has rows, so
    [back()] is defined where the source calls it. *)
Definition flushColumnsBuffer : M unit :=
  w <- get ;;
  when (negb (ColumnsBuffer_size (columns_buffer w) =? 0))
    (let (block, released) := ColumnsBuffer_releaseColumns (columns_buffer w) in
     modify (with_columns_buffer released) ;;;
     granules_to_write <-
       lift (getGranulesToWrite (index_granularity w) (Block_rows block)
               (getCurrentMark w) true) ;;
     match last granules_to_write with
     | Some back =>
         when (negb (is_complete back))
           (modify (fun w => with_index_granularity
                      (appendMark (popMark (index_granularity w)) (rows_to_write back)) w))
     | None => ret tt
     end ;;;
     modify (writeDataBlockPrimaryIndexAndSkipIndices block granules_to_write)).

(** Its second step: the final mark. *)
Definition writeFinalMark (w : Writer) : Writer :=
  if with_final_mark (settings w) && data_written w then
    let w :=
      fold_left
        (fun w (_ : string) =>
           let offset := buffer_count PlainHashing (sinks w) in
           call (MarkRecord offset 0)
             (fun s => write_mark_field 0 (write_mark_field offset s)) w)
        (columns_list (settings w)) w in
    call (MarkRows 0) (write_mark_field 0) w
  else w.

(** A sealing or flushing call, which the underlying sink can fail. *)
Definition sinkOp (op : SinkOp) : M unit := fun w =>
  match sink_op op (sinks w) with
  | Some s => (call (Sink op) (fun _ => s) w, Returned tt)
  | None => (call (Sink op) id w, Thrown (IOFault op))
  end.

Fixpoint finalizeCompressedStreams (codec_ids : list Z) : M unit :=
  match codec_ids with
  | [] => ret tt
  | codec_id :: rest =>
      sinkOp (Finalize (StreamHashingBuf codec_id)) ;;;
      sinkOp (Finalize (StreamCompressedBuf codec_id)) ;;;
      finalizeCompressedStreams rest
  end.

(** Its third step: the streams are finalized. *)
Definition finalizeStreams : M unit :=
  w <- get ;;
  finalizeCompressedStreams (streams_by_codec (settings w)) ;;;
  sinkOp (Finalize PlainHashing) ;;;
  sinkOp (Next PlainFile) ;;;
  when (marks_compressed (settings w)) (sinkOp (Finalize MarksSourceHashing)) ;;;
  when (marks_compressed (settings w)) (sinkOp (Finalize MarksCompressor)) ;;;
  sinkOp (Finalize MarksFileHashing).

(** The loop of [addToChecksums] over the compressed streams. *)
Definition addStreamToChecksum (s : Sinks) (acc : Z * UInt128) (codec_id : Z)
    : Z * UInt128 :=
  (UInt64.add (fst acc) (buffer_count (StreamHashingBuf codec_id) s),
   CityHash128WithSeed
     (UInt128_le_bytes (buffer_getHash (StreamHashingBuf codec_id) s)) (snd acc)).

Definition addToChecksums (w : Writer) (checksums : gmap string Checksum)
    : gmap string Checksum :=
  let data_file_name := DATA_FILE_NAME_WITH_EXTENSION in
  let marks_file_name := String.append DATA_FILE_NAME (marks_file_extension (settings w)) in
  let uncompressed :=
    fold_left (addStreamToChecksum (sinks w)) (streams_by_codec (settings w)) (0, (0, 0)) in
  let checksums := files_update data_file_name (set_is_compressed true) checksums in
  let checksums :=
    files_update data_file_name (set_uncompressed_size (fst uncompressed)) checksums in
  let checksums :=
    files_update data_file_name (set_uncompressed_hash (snd uncompressed)) checksums in
  let checksums :=
    files_update data_file_name
      (set_file_size (buffer_count PlainHashing (sinks w))) checksums in
  let checksums :=
    files_update data_file_name
      (set_file_hash (buffer_getHash PlainHashing (sinks w))) checksums in
  let checksums :=
    if marks_compressed (settings w) then
      let checksums := files_update marks_file_name (set_is_compressed true) checksums in
      let checksums :=
        files_update marks_file_name
          (set_uncompressed_size (buffer_count MarksSourceHashing (sinks w))) checksums in
      files_update marks_file_name
        (set_uncompressed_hash (buffer_getHash MarksSourceHashing (sinks w))) checksums
    else checksums in
  let checksums :=
    files_update marks_file_name
      (set_file_size (buffer_count MarksFileHashing (sinks w))) checksums in
  files_update marks_file_name
    (set_file_hash (buffer_getHash MarksFileHashing (sinks w))) checksums.

Definition fillDataChecksums (checksums : gmap string Checksum)
    : M (gmap string Checksum) :=
  flushColumnsBuffer ;;;
  modify writeFinalMark ;;;
  finalizeStreams ;;;
  w <- get ;;
  let checksums := addToChecksums w checksums in
  sinkOp (PreFinalize PlainFile) ;;;
  sinkOp (PreFinalize MarksFile) ;;;
  ret checksums.

Definition finishDataSerialization (sync : bool) : M unit :=
  when sync (sinkOp (Sync PlainFile) ;;; sinkOp (Sync MarksFile)) ;;;
  sinkOp (Finalize PlainFile) ;;;
  sinkOp (Finalize MarksFile).

(** The index writers of the base class, as calls. *)
Definition fillPrimaryIndexChecksums (checksums : gmap string Checksum)
    : M (gmap string Checksum) :=
  modify (call PrimaryIndexChecksums id) ;;; ret (primary_index_checksums checksums).

Definition fillSkipIndicesChecksums (checksums : gmap string Checksum)
    : M (gmap string Checksum) :=
  modify (call SkipIndicesChecksums id) ;;; ret (skip_indices_checksums checksums).

Definition fillChecksums (checksums : gmap string Checksum)
    : M (gmap string Checksum) :=
  w <- get ;;
  checksums <-
    (match columns_list (settings w) with
     | [] => ret checksums
     | _ :: _ => fillDataChecksums checksums
     end) ;;
  checksums <-
    (if rewrite_primary_key (settings w)
     then fillPrimaryIndexChecksums checksums else ret checksums) ;;
  fillSkipIndicesChecksums checksums.

Definition finish (sync : bool) : M unit :=
  w <- get ;;
  match columns_list (settings w) with
  | [] => ret tt
  | _ :: _ => finishDataSerialization sync
  end ;;;
  when (rewrite_primary_key (settings w)) (modify (call (PrimaryIndexFinish sync) id)) ;;;
  modify (call (SkipIndicesFinish sync) id).

(** Blocks written one after the other. *)
Fixpoint writeAll (blocks : list Block) : M unit :=
  match blocks with
  | [] => ret tt
  | block :: rest => write block ;;; writeAll rest
  end.

End WriterOperations.

(** ** Reading a trace *)

Section Traces.
Context {collaborators : Collaborators}.

(** The records of the marks file in a trace. *)
Definition is_mark (e : Event) : bool :=
  match e with
  | MarkRecord _ _ | MarkRows _ => true
  | _ => false
  end.

Definition is_mark_record (e : Event) : bool :=
  match e with
  | MarkRecord _ _ => true
  | _ => false
  end.

Definition is_mark_rows (e : Event) : bool :=
  match e with
  | MarkRows _ => true
  | _ => false
  end.

Definition mark_events (tr : list Event) : list Event := List.filter is_mark tr.

Definition count_mark_records (tr : list Event) : nat :=
  length (List.filter is_mark_record tr).

Definition count_mark_rows (tr : list Event) : nat :=
  length (List.filter is_mark_rows tr).

(** A trace with the file offsets of its mark records blanked: the offsets
    depend on the bytes the serialization produced. *)
Definition blank_offset (e : Event) : Event :=
  match e with
  | MarkRecord _ offset_in_decompressed_block => MarkRecord 0 offset_in_decompressed_block
  | _ => e
  end.

Definition blank_offsets (tr : list Event) : list Event := map blank_offset tr.

(** What one granule leaves in the trace, offsets blanked: per column in
    schema order a mark record and then the column's data, and the row
    count after the last column. *)
Definition granule_protocol (columns : list string) (g : Granule) : list Event :=
  flat_map (fun name =>
              [MarkRecord 0 0; ColumnGranule name (start_row g) (rows_to_write g)])
           columns
  ++ [MarkRows (rows_to_write g)].

Definition final_mark_protocol (columns : list string) : list Event :=
  map (fun _ => MarkRecord 0 0) columns ++ [MarkRows 0].

(** Rows handed to the serialization of column [name]. *)
Definition column_rows (name : string) (e : Event) : Z :=
  match e with
  | ColumnGranule name' _ number_of_rows =>
      if decide (name' = name) then number_of_rows else 0
  | _ => 0
  end.

Definition serialized_rows (name : string) (tr : list Event) : Z :=
  fold_right (fun e acc => column_rows name e + acc) 0 tr.

(** The order in which [fillDataChecksums] seals the streams. *)
Definition seal_order (s : Settings) : list SinkOp :=
  flat_map (fun codec_id =>
              [Finalize (StreamHashingBuf codec_id); Finalize (StreamCompressedBuf codec_id)])
           (streams_by_codec s)
  ++ [Finalize PlainHashing; Next PlainFile]
  ++ (if marks_compressed s then [Finalize MarksSourceHashing; Finalize MarksCompressor]
      else [])
  ++ [Finalize MarksFileHashing].

(** All the calls of a list succeed, one after the other. *)
Fixpoint seal_all (ops : list SinkOp) (s : Sinks) : option Sinks :=
  match ops with
  | [] => Some s
  | op :: rest =>
      match sink_op op s with
      | Some s' => seal_all rest s'
      | None => None
      end
  end.

(** The part of the writer that writing data leaves alone. *)
Definition same_plan (w w' : Writer) : Prop :=
  settings w' = settings w /\
  index_granularity w' = index_granularity w /\
  current_mark w' = current_mark w /\
  columns_buffer w' = columns_buffer w.

(** Sealing calls made one after the other, up to the first that fails. *)
Fixpoint run_seals (ops : list SinkOp) (w : Writer) : Writer * outcome unit :=
  match ops with
  | [] => (w, Returned tt)
  | op :: rest =>
      match sinkOp op w with
      | (w', Returned _) => run_seals rest w'
      | failed => failed
      end
  end.



End Traces.

(** ** Two instances of the collaborators

    Columns are their row counts and the buffers are the byte count of the
    plain output; every block asks for marks of 100 rows.  In the first no call fails; in the second the hashing
    buffer of a compressed stream cannot be finalized. *)

Definition plain_collaborators : Collaborators :=
  {| Column := nat;
     column_size := Z.of_nat;
     insertRangeFrom := Nat.add;
     computeIndexGranularity := fun _ => 100;
     Sinks := Z;
     serialize_column := fun _ _ _ rows s => s + 8 * rows;
     write_mark_field := fun _ s => s;
     sink_op := fun _ s => Some s;
     buffer_count := fun _ s => s;
     buffer_getHash := fun _ s => (s, 0);
     CityHash128WithSeed := fun bytes seed => (fst seed + fold_right Z.add 0 bytes, snd seed + 1);
     primary_index_checksums := fun c => c;
     skip_indices_checksums := fun c => c;
     DATA_FILE_NAME := "data";
     DATA_FILE_NAME_WITH_EXTENSION := "data.bin" |}.

Definition failing_collaborators : Collaborators :=
  {| Column := nat;
     column_size := Z.of_nat;
     insertRangeFrom := Nat.add;
     computeIndexGranularity := fun _ => 100;
     Sinks := Z;
     serialize_column := fun _ _ _ rows s => s + 8 * rows;
     write_mark_field := fun _ s => s;
     sink_op := fun op s =>
       match op with
       | Finalize (StreamHashingBuf _) => None
       | _ => Some s
       end;
     buffer_count := fun _ s => s;
     buffer_getHash := fun _ s => (s, 0);
     CityHash128WithSeed := fun bytes seed => (fst seed + fold_right Z.add 0 bytes, snd seed + 1);
     primary_index_checksums := fun c => c;
     skip_indices_checksums := fun c => c;
     DATA_FILE_NAME := "data";
     DATA_FILE_NAME_WITH_EXTENSION := "data.bin" |}.

Definition two_columns (final_mark : bool) : Settings :=
  {| columns_list := ["id"; "name"];
     rewrite_primary_key := true;
     with_final_mark := final_mark;
     compute_granularity := true;
     marks_compressed := true;
     marks_file_extension := ".cmrk3";
     streams_by_codec := [7; 9] |}.

Definition no_columns : Settings :=
  {| columns_list := [];
     rewrite_primary_key := true;
     with_final_mark := true;
     compute_granularity := true;
     marks_compressed := false;
     marks_file_extension := ".mrk3";
     streams_by_codec := [] |}.

Definition nonempty {A : Type} (l : list A) : bool :=
  match l with
  | [] => false
  | _ :: _ => true
  end.


(** ** The state of the writer between two calls of [write] *)

Section WriterInvariant.
Context {collaborators : Collaborators}.

(** A mark is within the target [G] when it holds at least half of [G] and
    fewer than twice [G] rows. *)
Definition within_granularity (G x : Z) : Prop := G <= 2 * x /\ x < 2 * G.

(** How many times a column is listed. *)
Definition column_multiplicity (name : string) (columns : list string) : Z :=
  Z.of_nat (length (List.filter (fun n => bool_decide (n = name)) columns)).

Definition blocks_rows (blocks : list Block) : Z :=
  fold_right (fun block acc => Block_rows block + acc) 0 blocks.

(** The marks already flushed ([done]) and, when rows are buffered, the mark
    being filled with the rows it has so far ([pending]). *)
Definition buffered (pending : option (Z * Z)) : Z :=
  match pending with
  | Some (_, rows) => rows
  | None => 0
  end.

Definition pending_mark (G : Z) (pending : option (Z * Z)) : Z :=
  match pending with
  | Some (m, _) => m
  | None => G
  end.

Definition plan_of (done : list Z) (pending : option (Z * Z)) : list Z :=
  match pending with
  | Some (m, _) => done ++ [m]
  | None => done
  end.

Record writer_inv (w : Writer) (done : list Z) (pending : option (Z * Z)) : Prop := {
  inv_compute : compute_granularity (settings w) = true;
  inv_plan : index_granularity w = plan_of done pending;
  inv_mark : current_mark w = Z.of_nat (length done);
  inv_buffer : ColumnsBuffer_size (columns_buffer w) = buffered pending;
  inv_pending :
    match pending with
    | Some (m, rows) => 0 < rows < m /\ m < 2 ^ 62
    | None => True
    end;
  inv_done : Forall (fun x => 0 < x) done;
  inv_serialized : forall name,
    serialized_rows name (trace w)
    = column_multiplicity name (columns_list (settings w)) * totalRows done
}.

(** What one [write] of [n] rows with target [G] does to them. *)
Inductive plan_step (G n : Z) (done : list Z)
  : option (Z * Z) -> list Z -> option (Z * Z) -> Prop :=
| step_open : 0 < n < G -> plan_step G n done None done (Some (G, n))
| step_fill m rows :
    rows + n < m -> plan_step G n done (Some (m, rows)) done (Some (m, rows + n))
| step_flush pending added :
    pending_mark G pending <= buffered pending + n ->
    totalRows added = buffered pending + n ->
    added <> [] ->
    Forall (fun x => 0 < x) added ->
    (pending_mark G pending = G -> Forall (within_granularity G) added) ->
    plan_step G n done pending (done ++ added) None.

(** The plan after the final flush has planned the granules [gs]. *)
Definition corrected_plan (ig : MergeTreeIndexGranularity.t) (gs : Granules)
    : MergeTreeIndexGranularity.t :=
  match last gs with
  | Some back =>
      if is_complete back then ig else appendMark (popMark ig) (rows_to_write back)
  | None => ig
  end.

(** With a fixed target [G]: the flushed marks are within [G], the mark
    being filled is [G], and a plan that has flushed marks holds at least
    [G] rows. *)
Definition fixed_granularity (G : Z) (done : list Z) (pending : option (Z * Z)) : Prop :=
  Forall (within_granularity G) done /\
  pending_mark G pending = G /\
  (done = [] \/ G <= totalRows done).

(** The same along a sequence of blocks. *)
Inductive plan_steps
  : list Block -> list Z -> option (Z * Z) -> list Z -> option (Z * Z) -> Prop :=
| steps_nil done pending : plan_steps [] done pending done pending
| steps_cons block rest done pending done1 pending1 done2 pending2 :
    plan_step (computeIndexGranularity block) (Block_rows block) done pending done1 pending1 ->
    plan_steps rest done1 pending1 done2 pending2 ->
    plan_steps (block :: rest) done pending done2 pending2.

(** [write] from the point where the block is in the buffer. *)
Definition write_buffered (w2 : Writer) : Writer * outcome unit :=
  match getMarkRows (index_granularity w2) (current_mark w2) with
  | None =>
      (w2, Thrown (NonExistingMark (current_mark w2)
                     (getMarksCount (index_granularity w2))))
  | Some current_mark_rows =>
      if current_mark_rows <=? ColumnsBuffer_size (columns_buffer w2) then
        match getGranulesToWrite (index_granularity w2)
                (Block_rows (columns_buffer w2)) (current_mark w2) false with
        | Returned gs =>
            let w3 := writeDataBlockPrimaryIndexAndSkipIndices (columns_buffer w2) gs
                        (with_columns_buffer [] w2) in
            (with_current_mark
               (UInt64.add (current_mark w3) (Z.of_nat (length gs))) w3,
             Returned tt)
        | Thrown e => (with_columns_buffer [] w2, Thrown e)
        | OutOfFuel => (with_columns_buffer [] w2, OutOfFuel)
        end
      else (w2, Returned tt)
  end.

(** Blocks written and the buffer flushed, as at shutdown. *)
Definition writeAllAndFlush (blocks : list Block) : M unit :=
  writeAll blocks ;;; flushColumnsBuffer.

End WriterInvariant.

(** ** Closed forms and finer models *)

(** The plan after [fillIndexGranularityImpl], in closed form: nothing when
    the block ends at or before [index_offset]; one mark of [G] rows for a
    first block smaller than [G]; otherwise the full marks of [G] rows that
    fit into the rows from [index_offset] on, and the remainder as a mark of
    its own or added to the last mark. *)
Definition planned_marks (ig : t) (index_offset G rows_in_block : Z) : t :=
  if rows_in_block <=? index_offset then ig
  else
    let rows := rows_in_block - index_offset in
    if (G <=? rows_in_block) || negb (index_offset =? 0) then
      let full := ig ++ replicate (Z.to_nat (rows / G)) G in
      let remainder := rows mod G in
      if remainder =? 0 then full
      else if G <=? 2 * remainder then full ++ [remainder]
      else addRowsToLastMark full remainder
    else ig ++ [G].


(** A granule of a later flush, seen from a block that starts [rows] rows
    earlier. *)
Definition shift_granule (rows : Z) (g : Granule) : Granule :=
  {| start_row := start_row g + rows;
     rows_to_write := rows_to_write g;
     mark_number := mark_number g;
     mark_on_start := mark_on_start g;
     is_complete := is_complete g |}.


(** The row counts written to the marks file, in order. *)
Definition mark_rows_of (tr : list Event) : list Z :=
  flat_map (fun e => match e with MarkRows rows => [rows] | _ => [] end) tr.



(** A writer of one column that is given its plan, as in a vertical merge. *)
Definition one_column_precomputed : Settings :=
  {| columns_list := ["id"];
     rewrite_primary_key := false;
     with_final_mark := false;
     compute_granularity := false;
     marks_compressed := false;
     marks_file_extension := ".mrk3";
     streams_by_codec := [7] |}.



(** Two entries that agree on everything but the hash of the uncompressed
    content. *)
Definition same_but_hash (e1 e2 : Checksum) : Prop :=
  file_size e1 = file_size e2 /\ file_hash e1 = file_hash e2 /\
  is_compressed e1 = is_compressed e2 /\ uncompressed_size e1 = uncompressed_size e2.

(** The writer of two columns with its streams iterated the other way round. *)
Definition two_columns_swapped : Settings :=
  {| columns_list := ["id"; "name"];
     rewrite_primary_key := true;
     with_final_mark := true;
     compute_granularity := true;
     marks_compressed := true;
     marks_file_extension := ".cmrk3";
     streams_by_codec := [9; 7] |}.

(** The calls of [finishDataSerialization] on the two files, in order. *)
Definition finish_order (sync : bool) : list SinkOp :=
  (if sync then [Sync PlainFile; Sync MarksFile] else [])
  ++ [Finalize PlainFile; Finalize MarksFile].

(** The calls of [fillDataChecksums] on the buffers, in order: the streams
    are finalized, then the two files are pre-finalized. *)
Definition data_seal_order (s : Settings) : list SinkOp :=
  seal_order s ++ [PreFinalize PlainFile; PreFinalize MarksFile].

Definition is_sink (e : Event) : bool :=
  match e with
  | Sink _ => true
  | _ => false
  end.

(** What [finish] leaves in the trace after the data files. *)
Definition indices_finish_events (s : Settings) (sync : bool) : list Event :=
  (if rewrite_primary_key s then [PrimaryIndexFinish sync] else [])
  ++ [SkipIndicesFinish sync].



(** ** The compressed streams: the constructor's loop and [addStreams]

    A finer model of what [serialize_column] stands for above.  The
    serializations, the naming of a substream's file and the codec factory
    are declared outside this file and appear as calls. *)

Module StreamPool.

Class Serializations : Type := {
  NameAndTypePair : Type;
  column_name : NameAndTypePair -> string;
  SubstreamPath : Type;
  CodecDesc : Type;
  CompressionCodec : Type;
  (** the substream paths the serialization of a column hands to the callback *)
  enumerateStreams : NameAndTypePair -> list SubstreamPath;
  getFileNameForStream : NameAndTypePair -> SubstreamPath -> string;
  isSpecialCompressionAllowed : SubstreamPath -> bool;
  (** [CompressionCodecFactory::get] with the type of the substream, and
      with no type and generic codecs only *)
  codec_for_subtype : CodecDesc -> SubstreamPath -> CompressionCodec;
  codec_generic : CodecDesc -> CompressionCodec;
  getHash : CompressionCodec -> Z;
  BlockNumberColumn_name : string;
  BlockNumberColumn_compression_codec : CodecDesc;
  getCodecDescOrDefault : string -> CodecDesc
}.

Section StreamPool.
Context {serializations : Serializations}.

(** The [CompressedStream] objects made so far with the codec each was made
    for, a stream being known by its place in the list, and the two maps of
    the writer that point to them. *)
Record t : Type := {
  streams : list CompressionCodec;
  streams_by_codec : gmap Z nat;
  compressed_streams : gmap string nat
}.

Definition empty : t :=
  {| streams := []; streams_by_codec := ∅; compressed_streams := ∅ |}.

(** The callback of [addStreams] from the point where the name is known to
    be new and the codec has been chosen. *)
Definition emplaceStream (pool : t) (stream_name : string)
    (compression_codec : CompressionCodec) : t :=
  let codec_id := getHash compression_codec in
  match streams_by_codec pool !! codec_id with
  | Some stream =>
      {| streams := streams pool;
         streams_by_codec := streams_by_codec pool;
         compressed_streams := <[stream_name := stream]> (compressed_streams pool) |}
  | None =>
      let stream := length (streams pool) in
      {| streams := streams pool ++ [compression_codec];
         streams_by_codec := <[codec_id := stream]> (streams_by_codec pool);
         compressed_streams := <[stream_name := stream]> (compressed_streams pool) |}
  end.

Definition compression_codec_for (effective_codec_desc : CodecDesc)
    (substream_path : SubstreamPath) : CompressionCodec :=
  if isSpecialCompressionAllowed substream_path
  then codec_for_subtype effective_codec_desc substream_path
  else codec_generic effective_codec_desc.

(** The callback of [addStreams]. *)
Definition addStream (column : NameAndTypePair) (effective_codec_desc : CodecDesc)
    (pool : t) (substream_path : SubstreamPath) : t :=
  let stream_name := getFileNameForStream column substream_path in
  match compressed_streams pool !! stream_name with
  | Some _ => pool
  | None =>
      emplaceStream pool stream_name
        (compression_codec_for effective_codec_desc substream_path)
  end.

Definition addStreams (column : NameAndTypePair) (effective_codec_desc : CodecDesc)
    (pool : t) : t :=
  fold_left (addStream column effective_codec_desc) (enumerateStreams column) pool.

(** The loop of the constructor over [columns_list]. *)
Definition column_compression (column : NameAndTypePair) : CodecDesc :=
  if decide (column_name column = BlockNumberColumn_name)
  then BlockNumberColumn_compression_codec
  else getCodecDescOrDefault (column_name column).

Definition construct (columns_list : list NameAndTypePair) : t :=
  fold_left (fun pool column => addStreams column (column_compression column) pool)
            columns_list empty.

(** The files the constructor is asked to open a stream for, in order, each
    with the codec chosen for it. *)
Definition requests (columns_list : list NameAndTypePair)
    : list (string * CompressionCodec) :=
  flat_map
    (fun column =>
       map (fun substream_path =>
              (getFileNameForStream column substream_path,
               compression_codec_for (column_compression column) substream_path))
           (enumerateStreams column))
    columns_list.

(** The callback again, for a file name and the codec chosen for it. *)
Definition registerStream (pool : t) (request : string * CompressionCodec) : t :=
  match compressed_streams pool !! fst request with
  | Some _ => pool
  | None => emplaceStream pool (fst request) (snd request)
  end.

(** What holds of the streams at every point of the constructor: a name
    points to a stream that exists; a stream is registered under the hash of
    its codec; a registered stream exists and its codec has that hash; every
    stream has a name. *)
Definition consistent (pool : t) : Prop :=
  (forall name stream, compressed_streams pool !! name = Some stream ->
     (stream < length (streams pool))%nat) /\
  (forall stream codec, streams pool !! stream = Some codec ->
     streams_by_codec pool !! getHash codec = Some stream) /\
  (forall codec_id stream, streams_by_codec pool !! codec_id = Some stream ->
     exists codec, streams pool !! stream = Some codec /\ getHash codec = codec_id) /\
  (forall stream, (stream < length (streams pool))%nat ->
     exists name, compressed_streams pool !! name = Some stream).

(** *** The stream getter of [writeDataBlock] *)

(** What the getter does to the streams: it hands out the hashing buffer of
    one, and it flushes one with [next()]. *)
Inductive StreamEvent : Type :=
| Handed (stream : nat)
| Flushed (stream : nat).

(** One call of the getter: the new [prev_stream] and the events.  A name
    that has no stream yields a null stream, which the getter dereferences:
    a fault. *)
Definition stream_getter (pool : t) (column : NameAndTypePair)
    (prev_stream : option nat) (substream_path : SubstreamPath)
    : option (option nat * list StreamEvent) :=
  let stream_name := getFileNameForStream column substream_path in
  match compressed_streams pool !! stream_name with
  | None => None
  | Some result_stream =>
      let flushed :=
        match prev_stream with
        | Some prev => if decide (prev = result_stream) then [] else [Flushed prev]
        | None => []
        end in
      Some (Some result_stream, flushed ++ [Handed result_stream])
  end.

Fixpoint stream_getter_calls (pool : t) (column : NameAndTypePair)
    (prev_stream : option nat) (substream_paths : list SubstreamPath)
    : option (option nat * list StreamEvent) :=
  match substream_paths with
  | [] => Some (prev_stream, [])
  | substream_path :: rest =>
      match stream_getter pool column prev_stream substream_path with
      | None => None
      | Some (prev_stream', events) =>
          match stream_getter_calls pool column prev_stream' rest with
          | None => None
          | Some (last_stream, events') => Some (last_stream, events ++ events')
          end
      end
  end.

(** One column of one granule, for a serialization that asks for the streams
    of [substream_paths] in that order: the calls of the getter, then
    [prev_stream->hashing_buf.next()], a fault when no stream was asked
    for. *)
Definition writeColumnStreams (pool : t) (column : NameAndTypePair)
    (substream_paths : list SubstreamPath) : option (list StreamEvent) :=
  match stream_getter_calls pool column None substream_paths with
  | Some (Some prev_stream, events) => Some (events ++ [Flushed prev_stream])
  | _ => None
  end.

(** The stream that has been handed out and not flushed since, along a
    sequence of events; [None] when a second stream is handed out while one is
    open, or a stream is flushed that is not the open one. *)
Fixpoint open_stream (open : option nat) (events : list StreamEvent)
    : option (option nat) :=
  match events with
  | [] => Some open
  | Handed stream :: rest =>
      match open with
      | None => open_stream (Some stream) rest
      | Some other =>
          if decide (other = stream) then open_stream (Some stream) rest else None
      end
  | Flushed stream :: rest =>
      match open with
      | None => None
      | Some other => if decide (other = stream) then open_stream None rest else None
      end
  end.

End StreamPool.

(** An instance: a column is its name with the files of its substreams, a
    substream path is the name of its file, a codec is its hash; the codec
    of a substream depends on the column and on the substream. *)
Definition plain_serializations : Serializations :=
  {| NameAndTypePair := string * list string;
     column_name := fst;
     SubstreamPath := string;
     CodecDesc := Z;
     CompressionCodec := Z;
     enumerateStreams := snd;
     getFileNameForStream := fun _ substream_path => substream_path;
     isSpecialCompressionAllowed := fun _ => true;
     codec_for_subtype := fun desc substream_path =>
       desc + Z.of_nat (String.length substream_path);
     codec_generic := fun _ => 0;
     getHash := fun codec => codec;
     BlockNumberColumn_name := "_block_number";
     BlockNumberColumn_compression_codec := 1;
     getCodecDescOrDefault := fun name => Z.of_nat (String.length name) |}.

(** Two columns of a nested structure share the file of their offsets. *)
Definition nested_columns : list (string * list string) :=
  [("n.a", ["n.size0"; "n%2Ea"]); ("n.bb", ["n.size0"; "n%2Ebb"])].

End StreamPool.






(** What one flush leaves in the trace, offsets blanked: its granules, then
    the call of the primary index when it is rewritten, then the call of the
    skip indices. *)
Definition flush_protocol (s : Settings) (gs : Granules) : list Event :=
  flat_map (granule_protocol (columns_list s)) gs
  ++ (if rewrite_primary_key s then [PrimaryIndex gs] else [])
  ++ [SkipIndices gs].

(** Granules that follow one another in a block: the first starts at [row],
    each has at least one row, and each next one starts where the one before
    ended. *)
Fixpoint contiguous (row : Z) (gs : Granules) : Prop :=
  match gs with
  | [] => True
  | g :: rest =>
      start_row g = row /\ 0 < rows_to_write g /\
      contiguous (row + rows_to_write g) rest
  end.

(** The rows of the granules of a sequence of flushes. *)
Definition flushed_rows (flushes : list Granules) : Z :=
  fold_right (fun gs rows => PlannerSpec.granule_rows gs + rows) 0 flushes.



(** * Properties *)

(** ** Arithmetic without wrap-around *)

Section UInt64Facts.
Import UInt64.

Lemma UInt64_modulus_eq : modulus = 18446744073709551616.
Proof. reflexivity. Qed.

Lemma UInt64_wrap_small z : in_range z -> wrap z = z.
Proof. intros H. unfold wrap. apply Z.mod_small. exact H. Qed.

Lemma UInt64_add_small a b : 0 <= a -> 0 <= b -> a + b < modulus -> add a b = a + b.
Proof. intros. apply UInt64_wrap_small. unfold in_range. lia. Qed.

Lemma UInt64_sub_small a b : 0 <= b <= a -> a < modulus -> sub a b = a - b.
Proof. intros. apply UInt64_wrap_small. unfold in_range. lia. Qed.

Lemma UInt64_mul_small a b : 0 <= a -> 0 <= b -> a * b < modulus -> mul a b = a * b.
Proof. intros. apply UInt64_wrap_small. unfold in_range. nia. Qed.

End UInt64Facts.

(** ** The plan extension follows the specification's walk *)

Section PlanExtension.
Import PlanSpec.

Lemma steps_next c G rows :
  1 <= G -> c < rows -> steps c G rows = S (steps (c + G) G rows).
Proof.
  intros HG Hc. unfold steps.
  destruct (Z.ltb_spec c rows) as [_|]; [|lia].
  replace (rows - c + G - 1) with ((rows - c - 1) + 1 * G) by lia.
  rewrite Z.div_add by lia.
  destruct (Z.ltb_spec (c + G) rows) as [Hlt|Hge].
  - replace (rows - (c + G) + G - 1) with (rows - c - 1) by lia.
    assert (0 <= (rows - c - 1) / G) by (apply Z.div_pos; lia). lia.
  - rewrite Z.div_small by lia. reflexivity.
Qed.

Lemma steps_done c G rows : rows <= c -> steps c G rows = O.
Proof.
  intros Hc. unfold steps. destruct (Z.ltb_spec c rows); [lia|reflexivity].
Qed.

Lemma positions_next c G rows :
  1 <= G -> c < rows -> positions c G rows = c :: positions (c + G) G rows.
Proof.
  intros HG Hc. unfold positions. rewrite (steps_next c G rows HG Hc).
  cbn [seq List.map map]. f_equal; [lia|].
  rewrite <- seq_shift, List.map_map.
  apply List.map_ext. intros k. lia.
Qed.

Lemma positions_done c G rows : rows <= c -> positions c G rows = [].
Proof. intros Hc. unfold positions. rewrite steps_done by lia. reflexivity. Qed.

Lemma body_extend_at ig off G rows c :
  0 <= c < rows -> rows < 2 ^ 63 -> 
  fillIndexGranularityImpl_body ig off G rows c = extend_at off G rows ig c.
Proof.
  intros Hc Hrows. unfold fillIndexGranularityImpl_body, extend_at.
  assert (Hm : UInt64.modulus = 2 * 2 ^ 63) by reflexivity.
  rewrite UInt64_sub_small by lia.
  rewrite UInt64_mul_small by lia.
  destruct (Z.ltb_spec (rows - c) G); destruct (Z.leb_spec G rows);
    destruct (Z.eqb_spec off 0); cbn [andb orb negb];
    repeat case_decide; try reflexivity; try lia;
    destruct (Z.leb_spec G ((rows - c) * 2)); try reflexivity; lia.
Qed.

Lemma loop_extend fuel : forall c ig off G rows,
  1 <= G < 2 ^ 63 -> 0 <= c -> rows < 2 ^ 63 -> rows - c <= Z.of_nat fuel ->
  fillIndexGranularityImpl_loop fuel ig off G rows c
  = Some (fold_left (extend_at off G rows) (positions c G rows) ig).
Proof.
  induction fuel as [|fuel IH]; intros c ig off G rows HG Hc Hrows Hfuel;
    cbn [fillIndexGranularityImpl_loop];
    destruct (Z.ltb_spec c rows) as [Hlt|Hge];
    try (rewrite positions_done by lia; reflexivity); [lia|].
  assert (Hm : UInt64.modulus = 2 * 2 ^ 63) by reflexivity.
  rewrite UInt64_add_small by lia.
  rewrite positions_next by lia. cbn [fold_left].
  rewrite body_extend_at by lia.
  apply IH; lia.
Qed.

(** C1: [fillIndexGranularityImpl] extends the plan by walking the row
    positions [index_offset], [index_offset + G], ... below [rows_in_block];
    at a position with fewer than [G] rows remaining, when the block has at
    least [G] rows or [index_offset] is not 0, it appends a mark of the
    remainder if twice the remainder reaches [G] and adds the remainder to the
    last mark otherwise; at every other position it appends a mark of [G]
    rows.  The sizes are those of blocks that fit in memory: no sum or
    doubling leaves the 64-bit range. *)
Theorem fillIndexGranularityImpl_walk ig index_offset G rows_in_block :
  1 <= G < 2 ^ 63 -> 0 <= index_offset -> 0 <= rows_in_block < 2 ^ 63 ->
  fillIndexGranularityImpl ig index_offset G rows_in_block
  = Some (PlanSpec.extend ig index_offset G rows_in_block).
Proof.
  intros HG Hoff Hrows. unfold fillIndexGranularityImpl, extend.
  apply loop_extend; lia.
Qed.

Lemma fillIndexGranularityImpl_walk_witness :
  fillIndexGranularityImpl [100] 70 100 200 = Some [100; 130].
Proof.
  rewrite (fillIndexGranularityImpl_walk [100] 70 100 200) by lia.
  reflexivity.
Defined.

End PlanExtension.

(** ** The granule planner *)

Section Planner.
Import PlannerSpec.

Lemma totalRows_cons m ms : totalRows (m :: ms) = m + totalRows ms.
Proof. reflexivity. Qed.

Lemma totalRows_app ms1 ms2 : totalRows (ms1 ++ ms2) = totalRows ms1 + totalRows ms2.
Proof.
  induction ms1 as [|m ms1 IH]; [reflexivity|].
  cbn [app]. rewrite !totalRows_cons, IH. lia.
Qed.

Lemma totalRows_nonneg ms : Forall UInt64.in_range ms -> 0 <= totalRows ms.
Proof.
  induction 1 as [|m ms Hm _ IH]; [reflexivity|].
  rewrite totalRows_cons. unfold UInt64.in_range in Hm. lia.
Qed.

Lemma rows_before_nonneg ms k : Forall UInt64.in_range ms -> 0 <= rows_before ms k.
Proof. intros H. apply totalRows_nonneg, Forall_take, H. Qed.

Lemma rows_before_succ m ms k : rows_before (m :: ms) (S k) = m + rows_before ms k.
Proof. reflexivity. Qed.

Lemma getMarkRows_middle (before : list Z) m rest :
  getMarkRows (before ++ m :: rest) (Z.of_nat (length before)) = Some m.
Proof.
  unfold getMarkRows. destruct (Z.ltb_spec (Z.of_nat (length before)) 0); [lia|].
  rewrite Nat2Z.id. apply list_lookup_middle. reflexivity.
Qed.

Lemma getMarkRows_past_end (ig : t) i :
  getMarksCount ig <= i -> getMarkRows ig i = None.
Proof.
  unfold getMarkRows, getMarksCount. intros H.
  destruct (Z.ltb_spec i 0); [reflexivity|].
  apply lookup_ge_None. lia.
Qed.

Lemma getMarkRows_drop (ig : t) M k :
  0 <= M -> getMarkRows ig (M + Z.of_nat k) = drop (Z.to_nat M) ig !! k.
Proof.
  intros HM. unfold getMarkRows.
  destruct (Z.ltb_spec (M + Z.of_nat k) 0); [lia|].
  rewrite lookup_drop. f_equal. lia.
Qed.

(** The loop of the source and the walk over the marks agree. *)
Lemma loop_walk last R : forall ms before current_row result fuel,
  Forall UInt64.in_range ms ->
  getMarksCount (before ++ ms) < UInt64.modulus ->
  0 <= current_row -> R < UInt64.modulus ->
  (length ms < fuel)%nat ->
  getGranulesToWrite_loop fuel (before ++ ms) R last current_row
    (Z.of_nat (length before)) result
  = outcome_map (app result)
      (walk ms last R current_row (Z.of_nat (length before))
         (getMarksCount (before ++ ms))).
Proof.
  induction ms as [|m rest IH]; intros before cr res fuel Hms Hcount Hcr HR Hfuel;
    (destruct fuel as [|fuel]; [cbn [length] in Hfuel; lia|]);
    cbn [getGranulesToWrite_loop walk]; destruct (Z.ltb_spec cr R) as [Hlt|Hge];
    try (cbn [outcome_map]; rewrite app_nil_r; reflexivity).
  - rewrite getMarkRows_past_end; [reflexivity|].
    rewrite app_nil_r. unfold getMarksCount. lia.
  - rewrite getMarkRows_middle.
    inversion Hms as [|? ? Hm Hrest]; subst. unfold UInt64.in_range in Hm.
    rewrite UInt64_sub_small by lia.
    destruct ((R - cr <? m) && negb last); [reflexivity|].
    cbn [rows_to_write].
    rewrite UInt64_add_small by lia.
    unfold getMarksCount in Hcount. rewrite length_app in Hcount. cbn [length] in *.
    rewrite UInt64_add_small by lia.
    replace (Z.of_nat (length before) + 1) with (Z.of_nat (length (before ++ [m])))
      by (rewrite length_app; cbn [length]; lia).
    replace (before ++ m :: rest) with ((before ++ [m]) ++ rest)
      by (rewrite <- app_assoc; reflexivity).
    rewrite IH; try assumption; try lia.
    + destruct (walk rest last R _ _ _); cbn [outcome_map]; try reflexivity.
      rewrite <- app_assoc. reflexivity.
    + unfold getMarksCount. rewrite !length_app. cbn [length]. lia.
Qed.

Lemma walk_fuel ms last R : forall cr cm c, walk ms last R cr cm c <> OutOfFuel.
Proof.
  induction ms as [|m rest IH]; intros cr cm c; cbn [walk];
    destruct (cr <? R); try discriminate.
  destruct ((R - cr <? m) && negb last); [discriminate|].
  specialize (IH (cr + Z.min (R - cr) m) (cm + 1) c).
  destruct (walk rest last R _ _ _); cbn [outcome_map]; congruence.
Qed.

Lemma short_step_cons m rest r k :
  short_step (m :: rest) r (S k) <-> short_step rest (r - m) k.
Proof.
  unfold short_step. rewrite !rows_before_succ. cbn [length]. split; intros [? ?]; split; lia.
Qed.

Lemma short_step_first m rest r : short_step (m :: rest) r 0 <-> 0 < r < m.
Proof.
  unfold short_step, rows_before, totalRows. simpl.
  split; [intros [_ ?]; lia|intros; split; lia].
Qed.

(** When the walk throws. *)
Lemma walk_throws last R : forall ms cr cm c,
  Forall UInt64.in_range ms ->
  (exists e, walk ms last R cr cm c = Thrown e) <->
  ((last = false /\ exists k, short_step ms (R - cr) k) \/ totalRows ms < R - cr).
Proof.
  induction ms as [|m rest IH]; intros cr cm c Hms; cbn [walk];
    destruct (Z.ltb_spec cr R) as [Hlt|Hge].
  - split; [intros _; right; cbn; lia|eauto].
  - split; [intros [e He]; discriminate|].
    intros [[_ [k [Hk _]]]|H]; [cbn [length] in Hk; lia|cbn in H; lia].
  - inversion Hms as [|? ? Hm Hrest]; subst. unfold UInt64.in_range in Hm.
    pose proof (totalRows_nonneg rest Hrest) as Hnn.
    destruct (Z.ltb_spec (R - cr) m) as [Hshort|Hfull]; destruct last; cbn [andb negb].
    + rewrite Z.min_l by lia.
      split.
      * intros [e He]. exfalso.
        destruct rest; cbn [walk] in He;
          (destruct (Z.ltb_spec (cr + (R - cr)) R); [lia|]); discriminate.
      * intros [[Hl _]|H]; [discriminate|rewrite totalRows_cons in H; lia].
    + split; [intros _|eauto].
      left. split; [reflexivity|]. exists O. apply short_step_first. lia.
    + rewrite Z.min_r by lia. specialize (IH (cr + m) (cm + 1) c Hrest).
      split.
      * intros [e He].
        destruct IH as [[[Hl _]|H] _].
        { destruct (walk rest true R (cr + m) (cm + 1) c); cbn [outcome_map] in He;
            try discriminate. eauto. }
        { discriminate. }
        { right. rewrite totalRows_cons. lia. }
      * intros [[Hl _]|H]; [discriminate|].
        destruct IH as [_ [e He]]; [right; rewrite totalRows_cons in H; lia|].
        exists e. rewrite He. reflexivity.
    + rewrite Z.min_r by lia. specialize (IH (cr + m) (cm + 1) c Hrest).
      replace (R - (cr + m)) with (R - cr - m) in IH by lia.
      split.
      * intros [e He].
        destruct IH as [[[_ [k Hk]]|H] _].
        { destruct (walk rest false R (cr + m) (cm + 1) c); cbn [outcome_map] in He;
            try discriminate. eauto. }
        { left. split; [reflexivity|]. exists (S k). apply short_step_cons, Hk. }
        { right. rewrite totalRows_cons. lia. }
      * intros H.
        destruct IH as [_ [e He]].
        { destruct H as [[_ [k Hk]]|Htot].
          - destruct k as [|k]; [apply short_step_first in Hk; lia|].
            left. split; [reflexivity|]. exists k. apply short_step_cons, Hk.
          - right. rewrite totalRows_cons in Htot. lia. }
        exists e. rewrite He. reflexivity.
  - inversion Hms as [|? ? Hm Hrest]; subst.
    split; [intros [e He]; discriminate|].
    pose proof (totalRows_nonneg _ Hms) as Hnn.
    intros [[_ [k [_ Hk]]]|Htot]; [|lia].
    pose proof (rows_before_nonneg (m :: rest) k Hms). lia.
Qed.

Lemma granule_rows_cons g gs : granule_rows (g :: gs) = rows_to_write g + granule_rows gs.
Proof. reflexivity. Qed.

Lemma walk_logical last R : forall ms cr cm c e,
  walk ms last R cr cm c = Thrown e -> is_logical_error e.
Proof.
  induction ms as [|m rest IH]; intros cr cm c e; cbn [walk];
    destruct (cr <? R); try discriminate.
  - intros [= <-]. exact I.
  - destruct ((R - cr <? m) && negb last); [intros [= <-]; exact I|].
    specialize (IH (cr + Z.min (R - cr) m) (cm + 1) c e).
    destruct (walk rest last R _ _ _); cbn [outcome_map]; try discriminate.
    intros [= ->]. apply IH. reflexivity.
Qed.

(** What the walk returns. *)
Lemma walk_granules last R : forall ms cr cm c gs,
  Forall UInt64.in_range ms -> 0 <= cr ->
  walk ms last R cr cm c = Returned gs ->
  (cr < R -> gs <> [] /\ cr + granule_rows gs = R) /\
  (R <= cr -> gs = []) /\
  forall i g, gs !! i = Some g ->
    start_row g = cr + granule_rows (take i gs) /\
    mark_number g = cm + Z.of_nat i /\
    mark_on_start g = true /\
    exists m, ms !! i = Some m /\
      rows_to_write g = Z.min (R - start_row g) m /\
      is_complete g = (m <=? R - start_row g) /\
      (is_complete g = false -> last = true /\ S i = length gs).
Proof.
  induction ms as [|m rest IH]; intros cr cm c gs Hms Hcr; cbn [walk];
    destruct (Z.ltb_spec cr R) as [Hlt|Hge]; try discriminate;
    try (intros [= <-]; split; [intros; exfalso; lia|];
         split; [intros; reflexivity|]; intros [|i] g Hi; discriminate Hi).
  inversion Hms as [|? ? Hm Hrest]; subst. unfold UInt64.in_range in Hm.
  destruct ((R - cr <? m) && negb last) eqn:Hshort; [discriminate|].
  destruct (walk rest last R (cr + Z.min (R - cr) m) (cm + 1) c) as [gs'| |] eqn:Hwalk;
    cbn [outcome_map]; try discriminate.
  intros [= <-].
  apply IH in Hwalk; [|assumption|lia].
  destruct Hwalk as (Hcover & Hend & Heach).
  assert (Hsum : cr + Z.min (R - cr) m + granule_rows gs' = R).
  { destruct (Z.lt_ge_cases (cr + Z.min (R - cr) m) R) as [Hmore|Hdone].
    - apply Hcover, Hmore.
    - rewrite (Hend Hdone). cbn. lia. }
  split; [intros _; split; [discriminate|rewrite granule_rows_cons; cbn [rows_to_write]; lia]|].
  split; [lia|].
  intros [|i] g Hi.
  - cbn in Hi. injection Hi as <-. cbn [start_row mark_number mark_on_start rows_to_write is_complete].
    repeat split; [cbn; lia|lia|].
    exists m. repeat split.
    + destruct last; [reflexivity|].
      cbn [negb] in Hshort. rewrite andb_true_r in Hshort.
      apply Z.leb_gt in H. apply Z.ltb_ge in Hshort. lia.
    + apply Z.leb_gt in H. rewrite Z.min_l in Hsum by lia.
      rewrite (Hend ltac:(lia)). reflexivity.
  - cbn in Hi. destruct (Heach i g Hi) as (Hstart & Hmark & Hon & m' & Hm' & Hrows & Hcompl & Hlast).
    split; [cbn [take]; rewrite granule_rows_cons; cbn [rows_to_write]; lia|].
    split; [lia|]. split; [assumption|].
    exists m'. repeat split; try assumption;
      destruct (Hlast ltac:(assumption)) as [? ?]; [assumption|cbn [length]; lia].
Qed.

Ltac plan_in_range_tac :=
  split;
  [repeat first [apply List.Forall_nil
                |apply List.Forall_cons; [vm_compute; split; congruence|]]
  |reflexivity].

Lemma getGranulesToWrite_walk ig R M last :
  plan_in_range ig -> 0 <= M < getMarksCount ig -> R < UInt64.modulus ->
  getGranulesToWrite ig R M last
  = walk (drop (Z.to_nat M) ig) last R 0 M (getMarksCount ig).
Proof.
  intros [Hig Hcount] HM HR. unfold getGranulesToWrite.
  destruct (Z.leb_spec (getMarksCount ig) M) as [|_]; [lia|].
  unfold getMarksCount in HM.
  pose proof (loop_walk last R (drop (Z.to_nat M) ig) (take (Z.to_nat M) ig) 0 []
                (S (length ig))) as Hloop.
  rewrite take_drop, length_take, Nat.min_l, Z2Nat.id in Hloop by lia.
  rewrite Hloop; try lia; try assumption.
  - destruct (walk _ _ _ _ _ _); reflexivity.
  - apply Forall_drop, Hig.
  - rewrite length_drop. lia.
Qed.

(** C4, with the case the claim leaves out: [getGranulesToWrite] throws, and
    what it throws is a LOGICAL_ERROR, if and only if the mark cursor [M] is at
    or past the end of the plan on entry, or the flush is not the final one
    and at some step the rows remaining are fewer than the current mark
    requires, or rows remain when the marks of the plan from [M] on are used
    up; in every other case it returns normally. *)
Theorem getGranulesToWrite_fails_iff ig R M last :
  plan_in_range ig -> 0 <= M -> 0 <= R < UInt64.modulus ->
  let marks := drop (Z.to_nat M) ig in
  let faulty :=
    getMarksCount ig <= M
    \/ (last = false /\ exists k, short_step marks R k)
    \/ totalRows marks < R in
  ((exists e, getGranulesToWrite ig R M last = Thrown e) <-> faulty) /\
  (forall e, getGranulesToWrite ig R M last = Thrown e -> is_logical_error e) /\
  (~ faulty -> exists gs, getGranulesToWrite ig R M last = Returned gs).
Proof.
  intros Hig HM HR marks faulty. subst faulty.
  destruct (Z.le_gt_cases (getMarksCount ig) M) as [Hpast|Hin].
  - unfold getGranulesToWrite.
    destruct (Z.leb_spec (getMarksCount ig) M) as [_|]; [|lia].
    split; [split; [intros _; left; exact Hpast|eauto]|].
    split; [intros e [= <-]; exact I|]. intros Hn. exfalso. apply Hn. left. exact Hpast.
  - rewrite getGranulesToWrite_walk by (assumption || lia).
    fold marks.
    pose proof (walk_throws last R marks 0 M (getMarksCount ig)
                  (Forall_drop _ _ _ (proj1 Hig))) as Hthrows.
    rewrite Z.sub_0_r in Hthrows.
    split; [|split].
    + rewrite Hthrows. split; [intros [H|H]; auto|].
      intros [H|[H|H]]; [lia|left; exact H|right; exact H].
    + apply walk_logical.
    + intros Hn.
      destruct (walk marks last R 0 M (getMarksCount ig)) as [gs|e|] eqn:Hwalk;
        [eauto| |exfalso; exact (walk_fuel _ _ _ _ _ _ Hwalk)].
      exfalso. apply Hn. right.
      destruct Hthrows as [[H|H] _]; [eauto|left; exact H|right; exact H].
Qed.

Lemma getGranulesToWrite_fails_iff_witness :
  exists gs, getGranulesToWrite [100; 50] 150 0 false = Returned gs.
Proof.
  assert (Hplan : plan_in_range [100; 50]).
  { plan_in_range_tac. }
  apply (getGranulesToWrite_fails_iff [100; 50] 150 0 false Hplan);
    [lia|split; [lia|reflexivity]|].
  intros [H|[[_ [k [Hk Hshort]]]|H]].
  - vm_compute in H. apply H. reflexivity.
  - simpl in Hk.
    destruct k as [|[|k]]; [| |lia]; vm_compute in Hshort;
      destruct Hshort as [H1 H2]; discriminate.
  - vm_compute in H. discriminate.
Defined.

(** The claim C4 as stated fails: on a final flush of 150 rows over a plan
    of one mark of 100 rows the cursor starts inside the plan and no step
    belongs to a non-final flush, yet the planner throws. *)
Lemma planner_throws_on_exhausted_plan :
  getGranulesToWrite [100] 150 0 true = Thrown (NonExistingMark 1 1)
  /\ ~ (getMarksCount [100] <= 0
        \/ (true = false /\ exists k, short_step (drop (Z.to_nat 0) [100]) 150 k)).
Proof.
  split; [vm_compute; reflexivity|].
  intros [H|[H _]]; [vm_compute in H; apply H; reflexivity|discriminate].
Qed.

(** C3, with the condition the claim leaves out: for a plan, [R > 0] buffered
    rows, a mark cursor [M] inside the plan and a flag [last], when no step of
    a non-final flush finds fewer rows than its mark requires and the marks
    from [M] on hold at least [R] rows, [getGranulesToWrite] returns granules
    that cover [[0, R)] in order: each starts where the previous ended, takes
    the minimum of the rows remaining and the rows of its mark, is complete
    exactly when the rows remaining reach the rows of its mark, and carries the
    mark number [M + i]; only the last granule of a final flush can be
    incomplete. *)
Theorem getGranulesToWrite_covers ig R M last :
  plan_in_range ig -> 0 < R < UInt64.modulus -> 0 <= M < getMarksCount ig ->
  (last = false -> forall k, ~ short_step (drop (Z.to_nat M) ig) R k) ->
  R <= totalRows (drop (Z.to_nat M) ig) ->
  exists gs, getGranulesToWrite ig R M last = Returned gs /\
    gs <> [] /\ granule_rows gs = R /\
    forall i g, gs !! i = Some g ->
      start_row g = granule_rows (take i gs) /\
      mark_number g = M + Z.of_nat i /\
      mark_on_start g = true /\
      exists m, getMarkRows ig (M + Z.of_nat i) = Some m /\
        rows_to_write g = Z.min (R - start_row g) m /\
        is_complete g = (m <=? R - start_row g) /\
        (is_complete g = false -> last = true /\ S i = length gs).
Proof.
  intros Hig HR HM Hshort Htotal.
  rewrite getGranulesToWrite_walk by (assumption || lia).
  pose proof (Forall_drop _ (Z.to_nat M) _ (proj1 Hig)) as Hmarks.
  destruct (walk (drop (Z.to_nat M) ig) last R 0 M (getMarksCount ig))
    as [gs|e|] eqn:Hwalk.
  - exists gs. split; [reflexivity|].
    destruct (walk_granules _ _ _ _ _ _ _ Hmarks (Z.le_refl 0) Hwalk)
      as (Hcover & _ & Heach).
    destruct (Hcover ltac:(lia)) as [Hne Hsum].
    split; [exact Hne|]. split; [lia|].
    intros i g Hi. destruct (Heach i g Hi) as (Hs & Hn & Hon & m & Hm & Hrest).
    split; [lia|]. split; [exact Hn|]. split; [exact Hon|].
    exists m. split; [|exact Hrest].
    rewrite getMarkRows_drop by lia. exact Hm.
  - exfalso.
    destruct (proj1 (walk_throws last R _ 0 M (getMarksCount ig) Hmarks) (ex_intro _ e Hwalk))
      as [[Hl [k Hk]]|H].
    + rewrite Z.sub_0_r in Hk. exact (Hshort Hl k Hk).
    + lia.
  - exfalso. exact (walk_fuel _ _ _ _ _ _ Hwalk).
Qed.

Lemma getGranulesToWrite_covers_witness :
  exists gs, getGranulesToWrite [100; 80] 150 0 true = Returned gs /\
    gs <> [] /\ granule_rows gs = 150 /\
    forall i g, gs !! i = Some g ->
      start_row g = granule_rows (take i gs) /\
      mark_number g = 0 + Z.of_nat i /\
      mark_on_start g = true /\
      exists m, getMarkRows [100; 80] (0 + Z.of_nat i) = Some m /\
        rows_to_write g = Z.min (150 - start_row g) m /\
        is_complete g = (m <=? 150 - start_row g) /\
        (is_complete g = false -> true = true /\ S i = length gs).
Proof.
  apply (getGranulesToWrite_covers [100; 80] 150 0 true).
  - plan_in_range_tac.
  - split; [lia|reflexivity].
  - vm_compute. split; [congruence|reflexivity].
  - discriminate.
  - vm_compute. congruence.
Defined.

(** The claim C3 as stated fails: 200 rows over a plan of one mark of 100
    rows, from a cursor inside the plan; no step finds fewer rows than its
    mark requires, and the planner does not return. *)
Lemma planner_does_not_cover_beyond_plan :
  0 < 200 /\ 0 <= 0 < getMarksCount [100]
  /\ (forall k, ~ short_step (drop (Z.to_nat 0) [100]) 200 k)
  /\ ~ exists gs, getGranulesToWrite [100] 200 0 false = Returned gs.
Proof.
  split; [lia|]. split; [vm_compute; split; [congruence|reflexivity]|].
  split.
  - intros k [Hk [_ H]]. simpl in Hk.
    destruct k as [|k]; [|lia]. vm_compute in H. discriminate.
  - intros [gs H]. vm_compute in H. discriminate.
Qed.

End Planner.

(** ** The marks protocol *)

Section MarksProtocol.
Context {collaborators : Collaborators}.

Lemma same_plan_refl w : same_plan w w.
Proof. repeat split. Qed.

Lemma same_plan_trans w1 w2 w3 : same_plan w1 w2 -> same_plan w2 w3 -> same_plan w1 w3.
Proof.
  intros (H1 & H2 & H3 & H4) (K1 & K2 & K3 & K4).
  repeat split; congruence.
Qed.

Lemma blank_offsets_app l1 l2 :
  blank_offsets (l1 ++ l2) = blank_offsets l1 ++ blank_offsets l2.
Proof. apply List.map_app. Qed.

Lemma writeColumnInGranule_trace block g w name :
  trace (writeColumnInGranule block g w name)
  = trace w ++ [MarkRecord (buffer_count PlainHashing (sinks w)) 0;
                ColumnGranule name (start_row g) (rows_to_write g)].
Proof.
  unfold writeColumnInGranule, call. cbn [trace]. rewrite <- app_assoc. reflexivity.
Qed.

Lemma writeColumns_spec block g : forall columns w,
  let w' := fold_left (writeColumnInGranule block g) columns w in
  same_plan w w' /\ data_written w' = data_written w /\
  blank_offsets (trace w')
  = blank_offsets (trace w)
    ++ flat_map (fun name => [MarkRecord 0 0;
                              ColumnGranule name (start_row g) (rows_to_write g)]) columns.
Proof.
  induction columns as [|name columns IH]; intros w; cbn [fold_left flat_map].
  - split; [apply same_plan_refl|]. split; [reflexivity|]. rewrite app_nil_r. reflexivity.
  - destruct (IH (writeColumnInGranule block g w name)) as (Hplan & Hdata & Htrace).
    split; [|split].
    + eapply same_plan_trans; [|exact Hplan]. repeat split.
    + rewrite Hdata. reflexivity.
    + rewrite Htrace, writeColumnInGranule_trace, blank_offsets_app, <- app_assoc.
      reflexivity.
Qed.

Lemma writeGranule_spec block g w :
  let w' := writeGranule block w g in
  same_plan w w' /\ data_written w' = true /\
  blank_offsets (trace w')
  = blank_offsets (trace w) ++ granule_protocol (columns_list (settings w)) g.
Proof.
  unfold writeGranule.
  destruct (writeColumns_spec block g (columns_list (settings (with_data_written true w)))
              (with_data_written true w)) as (Hplan & Hdata & Htrace).
  destruct Hplan as (H1 & H2 & H3 & H4).
  split; [repeat split; cbn; assumption|].
  split; [cbn; exact Hdata|].
  cbn [call trace]. rewrite blank_offsets_app, Htrace. unfold granule_protocol.
  cbn. rewrite <- app_assoc. reflexivity.
Qed.

Lemma writeDataBlock_spec block : forall gs w,
  let w' := writeDataBlock block gs w in
  same_plan w w' /\ data_written w' = data_written w || nonempty gs /\
  blank_offsets (trace w')
  = blank_offsets (trace w) ++ flat_map (granule_protocol (columns_list (settings w))) gs.
Proof.
  unfold writeDataBlock.
  induction gs as [|g gs IH]; intros w; cbn [fold_left flat_map nonempty].
  - split; [apply same_plan_refl|]. rewrite orb_false_r, app_nil_r. split; reflexivity.
  - destruct (writeGranule_spec block g w) as (Hplan & Hdata & Htrace).
    destruct (IH (writeGranule block w g)) as (Hplan' & Hdata' & Htrace').
    split; [eapply same_plan_trans; eassumption|].
    split; [rewrite Hdata', Hdata, orb_true_r; reflexivity|].
    rewrite Htrace', Htrace, <- app_assoc.
    destruct Hplan as (-> & _). reflexivity.
Qed.

Lemma final_mark_columns_spec : forall (columns : list string) w,
  let w' :=
    fold_left
      (fun w (_ : string) =>
         call (MarkRecord (buffer_count PlainHashing (sinks w)) 0)
           (fun s => write_mark_field 0 (write_mark_field (buffer_count PlainHashing (sinks w)) s))
           w) columns w in
  same_plan w w' /\ data_written w' = data_written w /\
  blank_offsets (trace w')
  = blank_offsets (trace w) ++ map (fun _ => MarkRecord 0 0) columns.
Proof.
  induction columns as [|name columns IH]; intros w; cbn [fold_left map List.map].
  - split; [apply same_plan_refl|]. rewrite app_nil_r. split; reflexivity.
  - match goal with |- context [fold_left _ columns ?w1] => destruct (IH w1) as (Hp & Hd & Ht) end.
    split; [|split].
    + eapply same_plan_trans; [|exact Hp]. repeat split.
    + rewrite Hd. reflexivity.
    + rewrite Ht. cbn [call trace]. rewrite blank_offsets_app, <- app_assoc. reflexivity.
Qed.

Lemma writeFinalMark_spec w :
  let w' := writeFinalMark w in
  same_plan w w' /\ data_written w' = data_written w /\
  blank_offsets (trace w')
  = blank_offsets (trace w)
    ++ (if with_final_mark (settings w) && data_written w
        then final_mark_protocol (columns_list (settings w)) else []).
Proof.
  unfold writeFinalMark.
  destruct (with_final_mark (settings w) && data_written w).
  - destruct (final_mark_columns_spec (columns_list (settings w)) w) as (Hp & Hd & Ht).
    split; [destruct Hp as (?&?&?&?); repeat split; cbn; assumption|].
    split; [cbn; exact Hd|].
    cbn [call trace]. rewrite blank_offsets_app, Ht. unfold final_mark_protocol.
    rewrite <- app_assoc. reflexivity.
  - split; [apply same_plan_refl|]. rewrite app_nil_r. split; reflexivity.
Qed.

Lemma count_mark_records_blank tr :
  count_mark_records (blank_offsets tr) = count_mark_records tr.
Proof.
  unfold count_mark_records, blank_offsets.
  induction tr as [|e tr IH]; [reflexivity|].
  cbn [map List.map List.filter]. destruct e; cbn [blank_offset is_mark_record length]; lia.
Qed.

Lemma count_mark_rows_blank tr :
  count_mark_rows (blank_offsets tr) = count_mark_rows tr.
Proof.
  unfold count_mark_rows, blank_offsets.
  induction tr as [|e tr IH]; [reflexivity|].
  cbn [map List.map List.filter]. destruct e; cbn [blank_offset is_mark_rows length]; lia.
Qed.

Lemma count_mark_records_app l1 l2 :
  count_mark_records (l1 ++ l2) = (count_mark_records l1 + count_mark_records l2)%nat.
Proof. unfold count_mark_records. rewrite List.filter_app, length_app. reflexivity. Qed.

Lemma count_mark_rows_app l1 l2 :
  count_mark_rows (l1 ++ l2) = (count_mark_rows l1 + count_mark_rows l2)%nat.
Proof. unfold count_mark_rows. rewrite List.filter_app, length_app. reflexivity. Qed.

Lemma granule_protocol_counts columns g :
  count_mark_records (granule_protocol columns g) = length columns /\
  count_mark_rows (granule_protocol columns g) = 1%nat.
Proof.
  unfold granule_protocol. rewrite count_mark_records_app, count_mark_rows_app.
  induction columns as [|name columns [IH1 IH2]]; [split; reflexivity|].
  cbn [flat_map app length].
  change (count_mark_records (MarkRecord 0 0 :: ?e :: ?l))
    with (S (count_mark_records l)).
  change (count_mark_rows (MarkRecord 0 0 :: ColumnGranule ?a ?b ?c :: ?l))
    with (count_mark_rows l).
  cbn in *. split; lia.
Qed.

Lemma granules_protocol_counts columns gs :
  count_mark_records (flat_map (granule_protocol columns) gs)
  = (length gs * length columns)%nat /\
  count_mark_rows (flat_map (granule_protocol columns) gs) = length gs.
Proof.
  induction gs as [|g gs [IH1 IH2]]; [split; reflexivity|].
  cbn [flat_map length]. rewrite count_mark_records_app, count_mark_rows_app.
  destruct (granule_protocol_counts columns g) as [-> ->]. split; lia.
Qed.

Lemma final_mark_protocol_counts columns :
  count_mark_records (final_mark_protocol columns) = length columns /\
  count_mark_rows (final_mark_protocol columns) = 1%nat.
Proof.
  unfold final_mark_protocol. rewrite count_mark_records_app, count_mark_rows_app.
  induction columns as [|name columns [IH1 IH2]]; [split; reflexivity|].
  cbn [map List.map length].
  change (count_mark_records (MarkRecord 0 0 :: ?l)) with (S (count_mark_records l)).
  change (count_mark_rows (MarkRecord 0 0 :: ?l)) with (count_mark_rows l).
  cbn in *. split; lia.
Qed.

(** C6, with the guard of the final mark: for every granule and every column
    in schema order the writer records the mark (bytes of the plain output so
    far, 0) and then the column's data, and after the columns the granule's
    [rows_to_write]; [g] granules over [c] columns add [g * c] mark records and
    [g] row counts; the final mark adds [c] records with offset 0 and a zero
    row count when [with_final_mark] is set and data has been written, and
    nothing otherwise. *)
Theorem marks_protocol (block : Block) (gs : Granules) (w : Writer) :
  let columns := columns_list (settings w) in
  let written := writeDataBlock block gs w in
  let final := writeFinalMark written in
  let synthetic := with_final_mark (settings w) && (data_written w || nonempty gs) in
  (forall g w0 name,
     trace (writeColumnInGranule block g w0 name)
     = trace w0 ++ [MarkRecord (buffer_count PlainHashing (sinks w0)) 0;
                    ColumnGranule name (start_row g) (rows_to_write g)]) /\
  blank_offsets (trace written)
  = blank_offsets (trace w) ++ flat_map (granule_protocol columns) gs /\
  blank_offsets (trace final)
  = blank_offsets (trace written)
    ++ (if synthetic then final_mark_protocol columns else []) /\
  count_mark_records (trace final)
  = (count_mark_records (trace w) + length gs * length columns
     + (if synthetic then length columns else 0))%nat /\
  count_mark_rows (trace final)
  = (count_mark_rows (trace w) + length gs + (if synthetic then 1 else 0))%nat.
Proof.
  intros columns written final synthetic.
  destruct (writeDataBlock_spec block gs w) as (Hplan & Hdata & Htrace).
  destruct (writeFinalMark_spec written) as (_ & _ & Hfinal).
  fold written in Hplan, Hdata, Htrace. fold final in Hfinal.
  destruct Hplan as (Hsettings & _).
  rewrite Hsettings, Hdata in Hfinal. fold columns synthetic in Hfinal, Htrace.
  split; [intros; apply writeColumnInGranule_trace|].
  split; [exact Htrace|]. split; [exact Hfinal|].
  rewrite <- (count_mark_records_blank (trace final)), <- (count_mark_rows_blank (trace final)).
  rewrite Hfinal, Htrace.
  rewrite !count_mark_records_app, !count_mark_rows_app.
  rewrite count_mark_records_blank, count_mark_rows_blank.
  destruct (granules_protocol_counts columns gs) as [-> ->].
  destruct synthetic.
  - destruct (final_mark_protocol_counts columns) as [-> ->]. split; reflexivity.
  - split; reflexivity.
Qed.

End MarksProtocol.

(** The claim C6 as stated fails: a writer of two columns with
    [with_final_mark] set that has written no granule records no final
    mark, where the claim counts [0 * 2 + 2] mark records and one row
    count. *)
Lemma final_mark_needs_written_data :
  let w := @new_writer plain_collaborators (two_columns true) [] 0 in
  let final := @writeFinalMark plain_collaborators
                 (@writeDataBlock plain_collaborators [] [] w) in
  with_final_mark (settings w) = true /\
  count_mark_records (trace final) <> (0 * 2 + 2)%nat /\
  count_mark_rows (trace final) <> (0 + 1)%nat.
Proof. cbn. repeat split; discriminate. Qed.

(** ** Finalization *)

Section Finalization.
Context {collaborators : Collaborators}.

Lemma sinkOp_ok op w s :
  sink_op op (sinks w) = Some s ->
  sinkOp op w = (call (Sink op) (fun _ => s) w, Returned tt).
Proof. intros H. unfold sinkOp. rewrite H. reflexivity. Qed.

Lemma sinkOp_fail op w :
  sink_op op (sinks w) = None ->
  sinkOp op w = (call (Sink op) id w, Thrown (IOFault op)).
Proof. intros H. unfold sinkOp. rewrite H. reflexivity. Qed.

Lemma mark_events_app l1 l2 : mark_events (l1 ++ l2) = mark_events l1 ++ mark_events l2.
Proof. apply List.filter_app. Qed.

(** A sealing call touches the buffers and the trace only, and leaves no
    mark in the trace. *)
Lemma sinkOp_frame op w :
  let w' := fst (sinkOp op w) in
  same_plan w w' /\ data_written w' = data_written w /\
  mark_events (trace w') = mark_events (trace w).
Proof.
  unfold sinkOp. destruct (sink_op op (sinks w)); cbn [fst call trace data_written];
    (split; [repeat split|]; split; [reflexivity|]);
    rewrite mark_events_app; cbn; apply app_nil_r.
Qed.

Lemma run_seals_frame : forall ops w,
  let w' := fst (run_seals ops w) in
  same_plan w w' /\ data_written w' = data_written w /\
  mark_events (trace w') = mark_events (trace w).
Proof.
  induction ops as [|op ops IH]; intros w; cbn [run_seals].
  - split; [apply same_plan_refl|]. split; reflexivity.
  - pose proof (sinkOp_frame op w) as (Hp & Hd & Hm).
    destruct (sinkOp op w) as [w1 [[]| |]]; cbn [fst] in *; try (split; [|split]; assumption).
    destruct (IH w1) as (Hp' & Hd' & Hm').
    split; [eapply same_plan_trans; eassumption|]. split; congruence.
Qed.

Lemma run_seals_app ops1 : forall ops2 w,
  run_seals (ops1 ++ ops2) w
  = match run_seals ops1 w with
    | (w', Returned _) => run_seals ops2 w'
    | failed => failed
    end.
Proof.
  induction ops1 as [|op ops1 IH]; intros ops2 w; cbn [app run_seals]; [reflexivity|].
  destruct (sinkOp op w) as [w1 [[]| |]]; [apply IH|reflexivity|reflexivity].
Qed.

Lemma finalizeCompressedStreams_seals : forall codec_ids w,
  finalizeCompressedStreams codec_ids w
  = run_seals
      (flat_map (fun codec_id => [Finalize (StreamHashingBuf codec_id);
                                  Finalize (StreamCompressedBuf codec_id)]) codec_ids) w.
Proof.
  induction codec_ids as [|codec_id rest IH]; intros w;
    cbn [finalizeCompressedStreams flat_map app run_seals]; [reflexivity|].
  unfold bind.
  destruct (sinkOp (Finalize (StreamHashingBuf codec_id)) w) as [w1 [[]| |]];
    try reflexivity.
  destruct (sinkOp (Finalize (StreamCompressedBuf codec_id)) w1) as [w2 [[]| |]];
    try reflexivity.
  apply IH.
Qed.

Lemma finalizeStreams_seals w :
  finalizeStreams w = run_seals (seal_order (settings w)) w.
Proof.
  unfold finalizeStreams, seal_order.
  unfold bind at 1. cbn [get].
  unfold bind at 1. rewrite finalizeCompressedStreams_seals, run_seals_app.
  destruct (run_seals _ w) as [w1 [[]| |]]; try reflexivity.
  destruct (marks_compressed (settings w)); cbn [when app run_seals]; unfold bind, ret;
    repeat match goal with
           | |- context [sinkOp ?op ?w0] =>
               destruct (sinkOp op w0) as [? [[]| |]]; try reflexivity
           end.
Qed.

Lemma run_seals_ok : forall ops w s',
  seal_all ops (sinks w) = Some s' ->
  exists w', run_seals ops w = (w', Returned tt) /\
    trace w' = trace w ++ map Sink ops /\ sinks w' = s'.
Proof.
  induction ops as [|op ops IH]; intros w s'; cbn [seal_all run_seals map List.map].
  - intros [= <-]. exists w. rewrite app_nil_r. repeat split.
  - destruct (sink_op op (sinks w)) as [s1|] eqn:Hop; [|discriminate].
    intros Hrest. rewrite (sinkOp_ok _ _ _ Hop).
    destruct (IH (call (Sink op) (fun _ => s1) w) s' Hrest) as (w' & Hrun & Htrace & Hsinks).
    exists w'. split; [exact Hrun|]. split; [|exact Hsinks].
    rewrite Htrace. cbn [call trace]. rewrite <- app_assoc. reflexivity.
Qed.

Lemma run_seals_first_failure before op after w s1 :
  seal_all before (sinks w) = Some s1 -> sink_op op s1 = None ->
  exists w', run_seals (before ++ op :: after) w = (w', Thrown (IOFault op)) /\
    trace w' = trace w ++ map Sink (before ++ [op]).
Proof.
  intros Hbefore Hop.
  destruct (run_seals_ok before w s1 Hbefore) as (w1 & Hrun & Htrace & Hsinks).
  rewrite run_seals_app, Hrun. cbn [run_seals].
  rewrite sinkOp_fail by (rewrite Hsinks; exact Hop).
  eexists. split; [reflexivity|].
  cbn [call trace]. rewrite Htrace, List.map_app, <- app_assoc. reflexivity.
Qed.

Lemma stream_seals_from codec_ids op :
  In op (flat_map (fun codec_id => [Finalize (StreamHashingBuf codec_id);
                                    Finalize (StreamCompressedBuf codec_id)]) codec_ids) ->
  exists codec_id, In codec_id codec_ids /\
    (op = Finalize (StreamHashingBuf codec_id) \/ op = Finalize (StreamCompressedBuf codec_id)).
Proof.
  rewrite in_flat_map. intros (codec_id & Hin & [<-|[<-|[]]]); eauto.
Qed.

Lemma stream_seals_NoDup codec_ids :
  List.NoDup codec_ids ->
  List.NoDup (flat_map (fun codec_id => [Finalize (StreamHashingBuf codec_id);
                                         Finalize (StreamCompressedBuf codec_id)]) codec_ids).
Proof.
  induction 1 as [|codec_id rest Hnotin Hrest IH]; cbn [flat_map app]; [constructor|].
  constructor; [|constructor; [|exact IH]].
  - intros [H|H]; [discriminate|].
    apply stream_seals_from in H as (c & Hc & [[= ->]|[=]]). contradiction.
  - intros H.
    apply stream_seals_from in H as (c & Hc & [[=]|[= ->]]). contradiction.
Qed.

Lemma seal_order_NoDup s :
  List.NoDup (streams_by_codec s) -> List.NoDup (seal_order s).
Proof.
  intros Hids. unfold seal_order.
  apply List.NoDup_app; [apply stream_seals_NoDup, Hids| |].
  - destruct (marks_compressed s); cbn [app];
      repeat (constructor; [cbn; intuition discriminate|]); constructor.
  - intros op Hin Hfixed.
    apply stream_seals_from in Hin as (c & _ & [->| ->]);
      destruct (marks_compressed s); cbn in Hfixed; intuition discriminate.
Qed.

(** C8, for the writer as it is: when no sealing call fails, [fillDataChecksums]
    finalizes every stream it owns exactly once and in the fixed order (per
    compressed stream the hashing buffer and then the compressing buffer,
    then the plain output, then the marks' source hashing wrapper and the
    marks compressor when marks are compressed, then the marks' outer hashing
    wrapper); when a call fails, the failure is thrown to the caller at once
    and the calls after it in the order are not made. *)
Theorem finalizeStreams_order (w : Writer) :
  (forall s', seal_all (seal_order (settings w)) (sinks w) = Some s' ->
     exists w', finalizeStreams w = (w', Returned tt) /\
       trace w' = trace w ++ map Sink (seal_order (settings w)) /\ sinks w' = s') /\
  (forall before op after s1,
     seal_order (settings w) = before ++ op :: after ->
     seal_all before (sinks w) = Some s1 -> sink_op op s1 = None ->
     exists w', finalizeStreams w = (w', Thrown (IOFault op)) /\
       trace w' = trace w ++ map Sink (before ++ [op])) /\
  (List.NoDup (streams_by_codec (settings w)) -> List.NoDup (seal_order (settings w))).
Proof.
  split; [|split].
  - intros s' Hall. rewrite finalizeStreams_seals. apply run_seals_ok, Hall.
  - intros before op after s1 Horder Hbefore Hop.
    rewrite finalizeStreams_seals, Horder.
    apply (run_seals_first_failure before op after w s1 Hbefore Hop).
  - apply seal_order_NoDup.
Qed.

End Finalization.

Lemma finalizeStreams_order_witness :
  let w := @new_writer plain_collaborators (two_columns true) [] 0 in
  exists w', @finalizeStreams plain_collaborators w = (w', Returned tt) /\
    trace w' = trace w ++ map Sink (seal_order (settings w)) /\ sinks w' = 0.
Proof.
  intros w.
  apply (proj1 (@finalizeStreams_order plain_collaborators w)).
  reflexivity.
Defined.

(** The claim C8 as stated fails: when the hashing buffer of the first
    compressed stream cannot be finalized, the exception leaves
    [fillDataChecksums] at once; neither the plain output nor any stream of
    the marks is finalized. *)
Lemma failed_seal_skips_remaining_streams :
  let w := @new_writer failing_collaborators (two_columns true) [] 0 in
  let result := @finalizeStreams failing_collaborators w in
  snd result = Thrown (IOFault (Finalize (StreamHashingBuf 7))) /\
  trace (fst result) = [Sink (Finalize (StreamHashingBuf 7))] /\
  ~ In (Sink (Finalize PlainHashing)) (trace (fst result)) /\
  ~ In (Sink (Finalize MarksFileHashing)) (trace (fst result)).
Proof.
  cbn. repeat split; try reflexivity; intros [H|[]]; discriminate.
Qed.

(** ** Checksums and the entry points of finalization *)

Section Checksums.
Context {collaborators : Collaborators}.

Lemma flushColumnsBuffer_empty w :
  ColumnsBuffer_size (columns_buffer w) = 0 -> flushColumnsBuffer w = (w, Returned tt).
Proof.
  intros H. unfold flushColumnsBuffer, bind, get. rewrite H. reflexivity.
Qed.

Lemma writeFinalMark_no_data w : data_written w = false -> writeFinalMark w = w.
Proof. intros H. unfold writeFinalMark. rewrite H, andb_false_r. reflexivity. Qed.

Lemma fillDataChecksums_seals checksums w :
  flushColumnsBuffer w = (w, Returned tt) -> writeFinalMark w = w ->
  fst (fillDataChecksums checksums w)
  = fst (run_seals (seal_order (settings w) ++ [PreFinalize PlainFile; PreFinalize MarksFile]) w).
Proof.
  intros Hflush Hfinal. unfold fillDataChecksums.
  unfold bind at 1. rewrite Hflush.
  unfold bind at 1. cbn [modify]. rewrite Hfinal.
  unfold bind at 1. rewrite finalizeStreams_seals, run_seals_app.
  destruct (run_seals (seal_order (settings w)) w) as [w1 [[]| |]]; try reflexivity.
  cbn [run_seals]. unfold bind, get, ret.
  repeat match goal with
         | |- context [sinkOp ?op ?w0] =>
             destruct (sinkOp op w0) as [? [[]| |]]; try reflexivity
         end.
Qed.

(** C10: the final mark is written only after data.  For a writer that has
    written no granule ([data_written] is still false, as in a new writer and
    after any flush of zero granules) and whose buffer is empty, finalization
    leaves the marks untouched, whatever [with_final_mark] says. *)
Theorem no_final_mark_without_data (w : Writer) (checksums : gmap string Checksum) :
  data_written w = false -> ColumnsBuffer_size (columns_buffer w) = 0 ->
  (forall block, writeDataBlock block [] w = w) /\
  writeFinalMark w = w /\
  mark_events (trace (fst (fillDataChecksums checksums w))) = mark_events (trace w).
Proof.
  intros Hdata Hsize.
  split; [reflexivity|]. split; [apply writeFinalMark_no_data, Hdata|].
  rewrite fillDataChecksums_seals
    by (apply flushColumnsBuffer_empty, Hsize || apply writeFinalMark_no_data, Hdata).
  apply run_seals_frame.
Qed.

(** C9: with an empty column list [fillChecksums] does not call
    [fillDataChecksums] and [finish] does not call [finishDataSerialization]:
    no buffer is touched and the checksums get no entry of the data or marks
    file; the primary index (when [rewrite_primary_key] is set) and then the
    skip indices are still finalized.  With columns, the data comes first,
    then the primary index, then the skip indices. *)
Theorem empty_columns_skip_data (w : Writer) (checksums : gmap string Checksum) (sync : bool) :
  let indices_checksums (w1 : Writer) (c : gmap string Checksum) :=
    (call SkipIndicesChecksums id
       (if rewrite_primary_key (settings w) then call PrimaryIndexChecksums id w1 else w1),
     Returned (skip_indices_checksums
                 (if rewrite_primary_key (settings w)
                  then primary_index_checksums c else c))) in
  let indices_finish (w1 : Writer) :=
    (call (SkipIndicesFinish sync) id
       (if rewrite_primary_key (settings w) then call (PrimaryIndexFinish sync) id w1 else w1),
     Returned tt) in
  (columns_list (settings w) = [] ->
     fillChecksums checksums w = indices_checksums w checksums /\
     finish sync w = indices_finish w) /\
  (columns_list (settings w) <> [] ->
     (forall w1 c1, fillDataChecksums checksums w = (w1, Returned c1) ->
        fillChecksums checksums w = indices_checksums w1 c1) /\
     (forall w1, finishDataSerialization sync w = (w1, Returned tt) ->
        finish sync w = indices_finish w1)).
Proof.
  intros indices_checksums indices_finish. subst indices_checksums indices_finish.
  unfold fillChecksums, finish, fillPrimaryIndexChecksums, fillSkipIndicesChecksums.
  split.
  - intros Hcolumns. unfold bind, get, when, modify, ret. rewrite Hcolumns.
    destruct (rewrite_primary_key (settings w)); split; reflexivity.
  - intros Hcolumns.
    split; intros w1; [intros c1|]; intros Hdata;
      unfold bind, get, when, modify, ret; cbn beta;
      (destruct (columns_list (settings w)) as [|name names]; [congruence|]);
      rewrite Hdata; destruct (rewrite_primary_key (settings w)); reflexivity.
Qed.


Lemma files_update_at name f (c : gmap string Checksum) :
  files_at (files_update name f c) name = f (files_at c name).
Proof. unfold files_update, files_at at 1. rewrite lookup_insert_eq. reflexivity. Qed.

Lemma files_update_other name f (c : gmap string Checksum) other :
  name <> other -> files_at (files_update name f c) other = files_at c other.
Proof.
  intros Hne. unfold files_update, files_at at 1 3.
  rewrite lookup_insert_ne by exact Hne. reflexivity.
Qed.

Lemma addStreams_fold s : forall codec_ids size hash,
  fold_left (addStreamToChecksum s) codec_ids (size, hash)
  = (fold_left UInt64.add
       (map (fun codec_id => buffer_count (StreamHashingBuf codec_id) s) codec_ids) size,
     fold_left (fun seed h => CityHash128WithSeed (UInt128_le_bytes h) seed)
       (map (fun codec_id => buffer_getHash (StreamHashingBuf codec_id) s) codec_ids) hash).
Proof.
  induction codec_ids as [|codec_id rest IH]; intros size hash;
    cbn [fold_left map List.map]; [reflexivity|].
  unfold addStreamToChecksum at 2. cbn [fst snd]. apply IH.
Qed.



End Checksums.

Lemma no_final_mark_without_data_witness :
  let w := @new_writer plain_collaborators (two_columns true) [] 0 in
  with_final_mark (settings w) = true /\
  mark_events (trace (fst (@fillDataChecksums plain_collaborators ∅ w))) = [].
Proof.
  intros w. split; [reflexivity|].
  apply (@no_final_mark_without_data plain_collaborators w ∅); reflexivity.
Defined.

Lemma empty_columns_skip_data_witness :
  let w := @new_writer plain_collaborators no_columns [] 0 in
  trace (fst (@fillChecksums plain_collaborators ∅ w))
  = [PrimaryIndexChecksums; SkipIndicesChecksums] /\
  trace (fst (@finish plain_collaborators true w))
  = [PrimaryIndexFinish true; SkipIndicesFinish true].
Proof.
  intros w.
  destruct (proj1 (@empty_columns_skip_data plain_collaborators w ∅ true) eq_refl)
    as [Hfill Hfinish].
  rewrite Hfill, Hfinish. split; reflexivity.
Defined.

(** ** The plan along a sequence of writes *)

Section PlanGrowth.

Lemma addRowsToLastMark_last (before : list Z) m rows :
  addRowsToLastMark (before ++ [m]) rows = before ++ [UInt64.add m rows].
Proof.
  unfold addRowsToLastMark. rewrite rev_app_distr. cbn [rev app].
  rewrite rev_involutive. reflexivity.
Qed.

Lemma popMark_last (before : list Z) m : popMark (before ++ [m]) = before.
Proof.
  unfold popMark. rewrite rev_app_distr. cbn [rev app]. apply rev_involutive.
Qed.

Lemma within_granularity_full G : 1 <= G -> within_granularity G G.
Proof. unfold within_granularity. lia. Qed.

(** The loop of [fillIndexGranularityImpl] once the plan has a last mark [m]
    and the block is large enough or continues a mark: the marks added, with
    [m], hold the rows of [m] and the rows from [current_row] on. *)
Lemma extend_loop off G n fuel : forall current_row before m,
  1 <= G < 2 ^ 62 -> 0 <= n < 2 ^ 62 -> 0 <= current_row -> 0 < m < 2 ^ 62 ->
  (G <=? n) || negb (off =? 0) = true ->
  n - current_row <= Z.of_nat fuel ->
  exists added,
    fillIndexGranularityImpl_loop fuel (before ++ [m]) off G n current_row
    = Some (before ++ added) /\
    totalRows added = m + Z.max 0 (n - current_row) /\
    added <> [] /\
    Forall (fun x => 0 < x) added /\
    (m = G -> Forall (within_granularity G) added).
Proof.
  assert (Hmod : UInt64.modulus = 4 * 2 ^ 62) by reflexivity.
  induction fuel as [|fuel IH]; intros c before m HG Hn Hc Hm Hext Hfuel;
    cbn [fillIndexGranularityImpl_loop]; destruct (Z.ltb_spec c n) as [Hlt|Hge];
    try lia;
    try (exists [m]; split; [reflexivity|]; split; [cbn; lia|]; split; [discriminate|];
         split; [repeat constructor; lia|];
         intros ->; repeat constructor; apply within_granularity_full; lia).
  rewrite UInt64_add_small by lia.
  unfold fillIndexGranularityImpl_body.
  rewrite UInt64_sub_small by lia. rewrite Hext.
  destruct (Z.ltb_spec (n - c) G) as [Hshort|Hfull]; cbn [andb].
  - rewrite UInt64_mul_small by lia.
    assert (Hstop : forall ig, fillIndexGranularityImpl_loop fuel ig off G n (c + G) = Some ig).
    { intros ig. destruct fuel; cbn [fillIndexGranularityImpl_loop];
        destruct (Z.ltb_spec (c + G) n); try lia; reflexivity. }
    destruct (Z.leb_spec G ((n - c) * 2)) as [Hhalf|Hless].
    + exists [m; n - c]. unfold appendMark. rewrite Hstop, <- app_assoc.
      split; [reflexivity|]. split; [cbn; lia|]. split; [discriminate|].
      split; [repeat constructor; lia|].
      intros ->. repeat constructor; unfold within_granularity; lia.
    + exists [m + (n - c)]. rewrite addRowsToLastMark_last, Hstop.
      rewrite UInt64_add_small by lia.
      split; [reflexivity|]. split; [cbn; lia|]. split; [discriminate|].
      split; [repeat constructor; lia|].
      intros ->. repeat constructor; unfold within_granularity; lia.
  - unfold appendMark.
    destruct (IH (c + G) (before ++ [m]) G) as (added & Hloop & Htotal & _ & Hpos & Hwithin);
      try lia; try assumption.
    exists (m :: added). rewrite Hloop, <- app_assoc.
    split; [reflexivity|]. split; [rewrite totalRows_cons; lia|]. split; [discriminate|].
    split; [constructor; [lia|exact Hpos]|].
    intros ->. constructor; [apply within_granularity_full; lia|].
    apply Hwithin. reflexivity.
Qed.

(** A block that starts a mark (no rows pending). *)
Lemma fillIndexGranularityImpl_fresh (done : list Z) G n :
  1 <= G < 2 ^ 62 -> 0 <= n < 2 ^ 62 ->
  (n = 0 -> fillIndexGranularityImpl done 0 G n = Some done) /\
  (0 < n < G -> fillIndexGranularityImpl done 0 G n = Some (done ++ [G])) /\
  (G <= n -> exists added,
     fillIndexGranularityImpl done 0 G n = Some (done ++ added) /\
     totalRows added = n /\ added <> [] /\ Forall (fun x => 0 < x) added /\
     Forall (within_granularity G) added).
Proof.
  intros HG Hn. assert (Hmod : UInt64.modulus = 4 * 2 ^ 62) by reflexivity.
  unfold fillIndexGranularityImpl. split; [|split].
  - intros ->. reflexivity.
  - intros Hsmall.
    destruct (Z.to_nat n) as [|fuel] eqn:Hfuel; [lia|].
    cbn [fillIndexGranularityImpl_loop].
    destruct (Z.ltb_spec 0 n); [|lia].
    unfold fillIndexGranularityImpl_body.
    rewrite UInt64_sub_small, UInt64_add_small by lia.
    destruct (Z.leb_spec G n); [lia|]. cbn [Z.eqb negb orb]. rewrite andb_false_r.
    destruct fuel; cbn [fillIndexGranularityImpl_loop];
      destruct (Z.ltb_spec (0 + G) n); try lia; reflexivity.
  - intros Hlarge.
    destruct (Z.to_nat n) as [|fuel] eqn:Hfuel; [lia|].
    cbn [fillIndexGranularityImpl_loop].
    destruct (Z.ltb_spec 0 n); [|lia].
    unfold fillIndexGranularityImpl_body.
    rewrite UInt64_sub_small, UInt64_add_small by lia.
    destruct (Z.ltb_spec (n - 0) G); [lia|]. cbn [andb]. unfold appendMark.
    destruct (extend_loop 0 G n fuel (0 + G) done G) as (added & Hloop & Htotal & Hne & Hpos & Hin);
      try lia.
    exists added. split; [exact Hloop|]. split; [lia|]. split; [exact Hne|].
    split; [exact Hpos|]. apply Hin. reflexivity.
Qed.

(** A block that continues the mark [m], of which [rows] are buffered. *)
Lemma fillIndexGranularityImpl_pending (done : list Z) m rows G n :
  1 <= G < 2 ^ 62 -> 0 <= n < 2 ^ 62 -> 0 < rows < m -> m < 2 ^ 62 ->
  (rows + n < m ->
     fillIndexGranularityImpl (done ++ [m]) (m - rows) G n = Some (done ++ [m])) /\
  (m <= rows + n -> exists added,
     fillIndexGranularityImpl (done ++ [m]) (m - rows) G n = Some (done ++ added) /\
     totalRows added = rows + n /\ added <> [] /\ Forall (fun x => 0 < x) added /\
     (m = G -> Forall (within_granularity G) added)).
Proof.
  intros HG Hn Hrows Hm. unfold fillIndexGranularityImpl. split.
  - intros Hfill. destruct (Z.to_nat n); cbn [fillIndexGranularityImpl_loop];
      destruct (Z.ltb_spec (m - rows) n); try lia; reflexivity.
  - intros Hflush.
    destruct (extend_loop (m - rows) G n (Z.to_nat n) (m - rows) done m)
      as (added & Hloop & Htotal & Hne & Hpos & Hin); try lia.
    exists added. split; [exact Hloop|]. split; [lia|]. auto.
Qed.

End PlanGrowth.

(** ** The writer along a sequence of writes *)

Section WritePath.
Import PlannerSpec.
Context {collaborators : Collaborators}.
Hypothesis column_size_nonneg : forall c : Column, 0 <= column_size c.
Hypothesis insertRangeFrom_size :
  forall a c : Column, column_size (insertRangeFrom a c) = column_size a + column_size c.

Lemma Block_rows_nonneg (block : Block) : 0 <= Block_rows block.
Proof. destruct block; cbn; [lia|apply column_size_nonneg]. Qed.

Lemma ColumnsBuffer_size_add (accumulated : list Column) (block : Block) :
  ColumnsBuffer_size (ColumnsBuffer_add accumulated block)
  = ColumnsBuffer_size accumulated + Block_rows block.
Proof.
  destruct accumulated as [|a accumulated]; [reflexivity|].
  destruct block as [|c block]; cbn; [lia|apply insertRangeFrom_size].
Qed.

Lemma serialized_rows_app name l1 l2 :
  serialized_rows name (l1 ++ l2) = serialized_rows name l1 + serialized_rows name l2.
Proof.
  unfold serialized_rows. induction l1 as [|e l1 IH]; cbn [app fold_right]; lia.
Qed.

Lemma serialized_rows_blank name tr :
  serialized_rows name (blank_offsets tr) = serialized_rows name tr.
Proof.
  unfold serialized_rows, blank_offsets.
  induction tr as [|e tr IH]; cbn [map List.map fold_right]; [reflexivity|].
  rewrite IH. destruct e; reflexivity.
Qed.

Lemma serialized_rows_granule name columns g :
  serialized_rows name (granule_protocol columns g)
  = column_multiplicity name columns * rows_to_write g.
Proof.
  unfold granule_protocol. rewrite serialized_rows_app.
  replace (serialized_rows name [MarkRows (rows_to_write g)]) with 0 by reflexivity.
  unfold column_multiplicity.
  induction columns as [|name' columns IH]; cbn [flat_map List.filter length app]; [reflexivity|].
  change (serialized_rows name (MarkRecord 0 0 :: ColumnGranule name' ?a ?b :: ?l))
    with (0 + ((if decide (name' = name) then b else 0) + serialized_rows name l)).
  destruct (decide (name' = name)) as [->|Hne].
  - rewrite bool_decide_eq_true_2 by reflexivity. cbn [length]. lia.
  - rewrite bool_decide_eq_false_2 by exact Hne. lia.
Qed.

Lemma serialized_rows_granules name columns gs :
  serialized_rows name (flat_map (granule_protocol columns) gs)
  = column_multiplicity name columns * granule_rows gs.
Proof.
  induction gs as [|g gs IH]; cbn [flat_map]; [cbn; lia|].
  rewrite serialized_rows_app, serialized_rows_granule, IH, granule_rows_cons. lia.
Qed.

Lemma writeDataBlockPrimaryIndexAndSkipIndices_spec block gs w :
  let w' := writeDataBlockPrimaryIndexAndSkipIndices block gs w in
  same_plan w w' /\
  forall name,
    serialized_rows name (trace w')
    = serialized_rows name (trace w)
      + column_multiplicity name (columns_list (settings w)) * granule_rows gs.
Proof.
  unfold writeDataBlockPrimaryIndexAndSkipIndices.
  destruct (writeDataBlock_spec block gs w) as (Hplan & _ & Htrace).
  set (w1 := writeDataBlock block gs w) in *.
  split.
  - destruct Hplan as (?&?&?&?).
    destruct (rewrite_primary_key (settings w1)); repeat split; cbn; assumption.
  - intros name.
    assert (Hw1 : serialized_rows name (trace w1)
                  = serialized_rows name (trace w)
                    + column_multiplicity name (columns_list (settings w)) * granule_rows gs).
    { rewrite <- (serialized_rows_blank name (trace w1)), Htrace, serialized_rows_app,
        serialized_rows_blank, serialized_rows_granules. reflexivity. }
    destruct (rewrite_primary_key (settings w1)); cbn [call trace];
      rewrite !serialized_rows_app, Hw1; cbn; lia.
Qed.

Lemma walk_exact last R c : forall ms cr cm,
  Forall (fun x => 0 < x) ms -> R - cr = totalRows ms ->
  exists gs, walk ms last R cr cm c = Returned gs /\
    length gs = length ms /\ granule_rows gs = totalRows ms.
Proof.
  induction ms as [|m rest IH]; intros cr cm Hpos Htotal; cbn [walk].
  - cbn in Htotal. destruct (Z.ltb_spec cr R); [lia|]. exists []. repeat split.
  - inversion Hpos as [|? ? Hm Hrest]; subst. rewrite totalRows_cons in Htotal.
    assert (0 <= totalRows rest).
    { clear -Hrest. induction Hrest; [reflexivity|rewrite totalRows_cons; lia]. }
    destruct (Z.ltb_spec cr R); [|lia].
    destruct (Z.ltb_spec (R - cr) m); [lia|]. cbn [andb].
    rewrite Z.min_r by lia.
    destruct (IH (cr + m) (cm + 1) Hrest ltac:(lia)) as (gs & -> & Hlen & Hrows).
    eexists. split; [reflexivity|]. cbn [length]. rewrite granule_rows_cons, totalRows_cons.
    cbn [rows_to_write]. split; lia.
Qed.

Lemma positive_plan_in_range (ig : list Z) :
  Forall (fun x => 0 < x) ig -> totalRows ig < UInt64.modulus -> plan_in_range ig.
Proof.
  intros Hpos Htotal.
  assert (Hall : Forall (fun x => 0 <= x <= totalRows ig) ig /\
                 Z.of_nat (length ig) <= totalRows ig).
  { clear Htotal. induction Hpos as [|m rest Hm Hrest IH]; [split; [constructor|reflexivity]|].
    rewrite totalRows_cons.
    assert (0 <= totalRows rest).
    { clear -Hrest. induction Hrest; [reflexivity|rewrite totalRows_cons; lia]. }
    destruct IH as [IH1 IH2].
    split; [constructor; [lia|]|cbn [length]; lia].
    eapply Forall_impl; [exact IH1|]. cbn beta. intros x Hx. lia. }
  destruct Hall as [Hrange Hlen]. split; [|unfold getMarksCount; lia].
  eapply Forall_impl; [exact Hrange|]. unfold UInt64.in_range. cbn beta. intros x Hx. lia.
Qed.

(** A flush of exactly the rows of the marks from the cursor on. *)
Lemma getGranulesToWrite_exact (done added : list Z) :
  Forall (fun x => 0 < x) done -> Forall (fun x => 0 < x) added -> added <> [] ->
  totalRows (done ++ added) < 2 ^ 62 ->
  exists gs,
    getGranulesToWrite (done ++ added) (totalRows added) (Z.of_nat (length done)) false
    = Returned gs /\
    length gs = length added /\ granule_rows gs = totalRows added.
Proof.
  intros Hdone Hadded Hne Htotal. assert (Hmod : UInt64.modulus = 4 * 2 ^ 62) by reflexivity.
  rewrite totalRows_app in Htotal.
  assert (0 <= totalRows done).
  { clear -Hdone. induction Hdone; [reflexivity|rewrite totalRows_cons; lia]. }
  rewrite getGranulesToWrite_walk.
  - rewrite Nat2Z.id, drop_app_length. apply walk_exact; [exact Hadded|lia].
  - apply positive_plan_in_range; [apply Forall_app; split; assumption|].
    rewrite totalRows_app. lia.
  - unfold getMarksCount. rewrite length_app. destruct added; [congruence|cbn [length]; lia].
  - assert (0 <= totalRows added).
    { clear -Hadded. induction Hadded; [reflexivity|rewrite totalRows_cons; lia]. }
    lia.
Qed.

Lemma write_unfold block w :
  compute_granularity (settings w) = true ->
  write block w =
  match fillIndexGranularity (computeIndexGranularity block) (Block_rows block) w with
  | (w1, Returned _) =>
      write_buffered (with_columns_buffer (ColumnsBuffer_add (columns_buffer w1) block) w1)
  | (w1, Thrown e) => (w1, Thrown e)
  | (w1, OutOfFuel) => (w1, OutOfFuel)
  end.
Proof.
  intros Hcompute.
  unfold write, bind at 1, get at 1. cbn beta iota. rewrite Hcompute. cbn [when].
  unfold bind at 1.
  destruct (fillIndexGranularity _ _ w) as [w1 [[]| |]]; try reflexivity.
  unfold bind, get, modify, markRows, lift, ret, when, ColumnsBuffer_releaseColumns,
    getCurrentMark, write_buffered.
  cbn beta iota zeta.
  destruct (getMarkRows _ _); [|reflexivity].
  destruct (_ <=? _); [|reflexivity].
  cbn beta iota.
  destruct (getGranulesToWrite _ _ _ _); reflexivity.
Qed.

Lemma positive_total_nonneg (ms : list Z) : Forall (fun x => 0 < x) ms -> 0 <= totalRows ms.
Proof. induction 1; [reflexivity|rewrite totalRows_cons; lia]. Qed.

Lemma positive_length_le (ms : list Z) :
  Forall (fun x => 0 < x) ms -> Z.of_nat (length ms) <= totalRows ms.
Proof.
  induction 1 as [|x l Hx Hl IH]; [reflexivity|].
  cbn [length]. rewrite totalRows_cons. lia.
Qed.

Lemma write_buffered_flush w2 (done added : list Z) :
  compute_granularity (settings w2) = true ->
  index_granularity w2 = done ++ added ->
  current_mark w2 = Z.of_nat (length done) ->
  ColumnsBuffer_size (columns_buffer w2) = totalRows added ->
  Forall (fun x => 0 < x) done -> Forall (fun x => 0 < x) added -> added <> [] ->
  totalRows done + totalRows added < 2 ^ 62 ->
  (forall name, serialized_rows name (trace w2)
                = column_multiplicity name (columns_list (settings w2)) * totalRows done) ->
  exists w', write_buffered w2 = (w', Returned tt) /\ settings w' = settings w2 /\
    writer_inv w' (done ++ added) None.
Proof.
  intros Hcompute Hplan Hmark Hsize Hdone Hadded Hne Hbound Hserialized.
  assert (Hmod : UInt64.modulus = 4 * 2 ^ 62) by reflexivity.
  pose proof (positive_total_nonneg done Hdone) as Hdone0.
  pose proof (positive_total_nonneg added Hadded) as Hadded0.
  unfold write_buffered. rewrite Hplan, Hmark.
  destruct added as [|a rest]; [congruence|].
  rewrite getMarkRows_middle.
  inversion Hadded as [|? ? Ha Hrest]; subst.
  pose proof (positive_total_nonneg rest Hrest) as Hrest0.
  rewrite Hsize. rewrite totalRows_cons in *.
  destruct (Z.leb_spec a (a + totalRows rest)) as [_|]; [|lia].
  change (Block_rows (columns_buffer w2)) with (ColumnsBuffer_size (columns_buffer w2)).
  rewrite Hsize.
  destruct (getGranulesToWrite_exact done (a :: rest) Hdone Hadded Hne)
    as (gs & Hgs & Hlen & Hrows).
  { rewrite totalRows_app, totalRows_cons. lia. }
  rewrite totalRows_cons in Hgs, Hrows. rewrite Hgs.
  destruct (writeDataBlockPrimaryIndexAndSkipIndices_spec (columns_buffer w2) gs
              (with_columns_buffer [] w2)) as ((Hs & Hig & Hcm & Hbuf) & Htrace).
  set (w3 := writeDataBlockPrimaryIndexAndSkipIndices _ _ _) in *.
  cbn [with_columns_buffer settings index_granularity current_mark columns_buffer trace]
    in Hs, Hig, Hcm, Hbuf, Htrace.
  eexists. split; [reflexivity|]. split; [exact Hs|].
  constructor; cbn [with_current_mark settings index_granularity current_mark
                    columns_buffer trace plan_of buffered].
  - congruence.
  - congruence.
  - rewrite Hcm, Hmark, Hlen, length_app.
    pose proof (positive_length_le (a :: rest) Hadded) as Hla.
    pose proof (positive_length_le done Hdone) as Hld.
    rewrite totalRows_cons in Hla.
    rewrite UInt64_add_small by lia. lia.
  - rewrite Hbuf. reflexivity.
  - exact I.
  - apply Forall_app. split; assumption.
  - intros name. rewrite Htrace, Hserialized, Hs, Hrows, totalRows_app, totalRows_cons. lia.
Qed.

Lemma write_buffered_keep w2 (done : list Z) m rows :
  index_granularity w2 = done ++ [m] ->
  current_mark w2 = Z.of_nat (length done) ->
  ColumnsBuffer_size (columns_buffer w2) = rows -> rows < m ->
  write_buffered w2 = (w2, Returned tt).
Proof.
  intros Hplan Hmark Hsize Hrows. unfold write_buffered.
  rewrite Hplan, Hmark, getMarkRows_middle, Hsize.
  destruct (Z.leb_spec m rows); [lia|reflexivity].
Qed.

Lemma fillIndexGranularity_inv w done pending G n :
  writer_inv w done pending ->
  fillIndexGranularity G n w
  = match fillIndexGranularityImpl (plan_of done pending)
            (match pending with Some (m, rows) => m - rows | None => 0 end) G n with
    | Some ig => (with_index_granularity ig w, Returned tt)
    | None => (w, OutOfFuel)
    end.
Proof.
  intros [_ Hplan Hmark Hbuffer Hpending _ _].
  assert (Hmod : UInt64.modulus = 4 * 2 ^ 62) by reflexivity.
  unfold fillIndexGranularity, bind at 1, get. cbn beta iota.
  unfold getCurrentMark. rewrite Hplan, Hmark, Hbuffer.
  destruct pending as [[m rows]|]; cbn [plan_of buffered].
  - unfold getMarksCount. rewrite length_app. cbn [length].
    destruct (Z.ltb_spec (Z.of_nat (length done)) (Z.of_nat (length done + 1))); [|lia].
    unfold bind, markRows, ret, modify, lift. cbn beta iota.
    rewrite Hplan. cbn [plan_of]. rewrite getMarkRows_middle.
    rewrite UInt64_sub_small by lia.
    destruct (fillIndexGranularityImpl _ _ _ _); reflexivity.
  - unfold getMarksCount. rewrite Z.ltb_irrefl.
    unfold bind, ret, modify, lift. cbn beta iota.
    destruct (fillIndexGranularityImpl _ _ _ _); reflexivity.
Qed.

Lemma write_step w done pending block :
  writer_inv w done pending ->
  1 <= computeIndexGranularity block < 2 ^ 62 ->
  totalRows done + buffered pending + Block_rows block < 2 ^ 62 ->
  (pending = None /\ Block_rows block = 0 /\ exists w' e, write block w = (w', Thrown e)) \/
  (exists w' done' pending',
     write block w = (w', Returned tt) /\ settings w' = settings w /\
     writer_inv w' done' pending' /\
     plan_step (computeIndexGranularity block) (Block_rows block) done pending done' pending').
Proof.
  intros Hinv HG Hbound.
  pose proof (Block_rows_nonneg block) as Hn0.
  pose proof Hinv as [Hcompute Hplan Hmark Hbuffer Hpending Hdone Hser].
  pose proof (positive_total_nonneg done Hdone) as Hdone0.
  set (G := computeIndexGranularity block) in *. set (n := Block_rows block) in *.
  rewrite write_unfold by exact Hcompute.
  fold G n. rewrite (fillIndexGranularity_inv w done pending G n Hinv).
  destruct pending as [[m rows]|]; cbn [buffered plan_of] in *.
  - destruct Hpending as [Hrows Hm].
    destruct (fillIndexGranularityImpl_pending done m rows G n) as [Hfill Hflush]; try lia.
    right. destruct (Z.lt_ge_cases (rows + n) m) as [Hless|Hfull].
    + rewrite Hfill by exact Hless.
      set (w2 := with_columns_buffer _ _).
      assert (Hsize : ColumnsBuffer_size (columns_buffer w2) = rows + n).
      { subst w2. cbn. rewrite ColumnsBuffer_size_add, Hbuffer. reflexivity. }
      rewrite (write_buffered_keep w2 done m (rows + n)); try reflexivity; try assumption.
      exists w2, done, (Some (m, rows + n)).
      split; [reflexivity|]. split; [reflexivity|]. split; [|apply step_fill; exact Hless].
      constructor; try assumption; try reflexivity.
      cbn [buffered]. lia.
    + destruct (Hflush Hfull) as (added & Himpl & Htotal & Hne & Hpos & Hin).
      rewrite Himpl.
      set (w2 := with_columns_buffer _ _).
      destruct (write_buffered_flush w2 done added) as (w' & Hw & Hs' & Hinv');
        try assumption; try reflexivity; try lia.
      { subst w2. cbn. rewrite ColumnsBuffer_size_add, Hbuffer. fold n. lia. }
      exists w', (done ++ added), None.
      split; [exact Hw|]. split; [exact Hs'|]. split; [exact Hinv'|].
      apply step_flush; cbn [pending_mark buffered]; try assumption; lia.
  - destruct (fillIndexGranularityImpl_fresh done G n) as (Hzero & Hsmall & Hlarge); try lia.
    destruct (Z.eq_dec n 0) as [Hn|Hn].
    + left. split; [reflexivity|]. split; [exact Hn|].
      rewrite (Hzero Hn). unfold write_buffered.
      cbn [with_columns_buffer with_index_granularity index_granularity current_mark].
      rewrite Hmark, getMarkRows_past_end by (unfold getMarksCount; lia).
      eauto.
    + right. destruct (Z.lt_ge_cases n G) as [Hless|Hfull].
      * rewrite Hsmall by lia.
        set (w2 := with_columns_buffer _ _).
        assert (Hsize : ColumnsBuffer_size (columns_buffer w2) = n).
        { subst w2. cbn. rewrite ColumnsBuffer_size_add, Hbuffer. reflexivity. }
        rewrite (write_buffered_keep w2 done G n); try reflexivity; try assumption.
        exists w2, done, (Some (G, n)).
        split; [reflexivity|]. split; [reflexivity|]. split; [|apply step_open; lia].
        constructor; try assumption; try reflexivity.
        cbn [buffered]. lia.
      * destruct (Hlarge Hfull) as (added & Himpl & Htotal & Hne & Hpos & Hin).
        rewrite Himpl.
        set (w2 := with_columns_buffer _ _).
        destruct (write_buffered_flush w2 done added) as (w' & Hw & Hs' & Hinv');
          try assumption; try reflexivity; try lia.
        { subst w2. cbn. rewrite ColumnsBuffer_size_add, Hbuffer. fold n. lia. }
        exists w', (done ++ added), None.
        split; [exact Hw|]. split; [exact Hs'|]. split; [exact Hinv'|].
        apply step_flush; cbn [pending_mark buffered]; try assumption; try lia.
        intros _. exact Hin.
Qed.

Lemma plan_step_total G n done pending done' pending' :
  plan_step G n done pending done' pending' ->
  totalRows done' + buffered pending' = totalRows done + buffered pending + n.
Proof.
  intros [Hn|m rows Hless|p added Hfull Htotal Hne Hpos Hin]; cbn [buffered]; try lia.
  rewrite totalRows_app. lia.
Qed.

Lemma plan_steps_total blocks done pending done' pending' :
  plan_steps blocks done pending done' pending' ->
  totalRows done' + buffered pending' = totalRows done + buffered pending + blocks_rows blocks.
Proof.
  induction 1 as [|block rest d p d1 p1 d2 p2 Hstep _ IH]; [cbn; lia|].
  apply plan_step_total in Hstep. cbn [blocks_rows fold_right] in *.
  fold (blocks_rows rest). lia.
Qed.

Lemma blocks_rows_nonneg (blocks : list Block) : 0 <= blocks_rows blocks.
Proof.
  induction blocks as [|b rest IH]; [reflexivity|].
  cbn [blocks_rows fold_right]. fold (blocks_rows rest).
  pose proof (Block_rows_nonneg b). lia.
Qed.

Lemma writeAll_inv : forall blocks w done pending,
  writer_inv w done pending ->
  Forall (fun block => 1 <= computeIndexGranularity block < 2 ^ 62) blocks ->
  totalRows done + buffered pending + blocks_rows blocks < 2 ^ 62 ->
  exists w' o, writeAll blocks w = (w', o) /\
    (Forall (fun block => 1 <= Block_rows block) blocks -> o = Returned tt) /\
    (o = Returned tt ->
     exists done' pending', settings w' = settings w /\ writer_inv w' done' pending' /\
       plan_steps blocks done pending done' pending').
Proof.
  induction blocks as [|block rest IH]; intros w done pending Hinv HG Hbound;
    cbn [writeAll].
  - exists w, (Returned tt). split; [reflexivity|]. split; [reflexivity|].
    intros _. exists done, pending. split; [reflexivity|]. split; [exact Hinv|constructor].
  - inversion HG as [|? ? HGb HGrest]; subst.
    cbn [blocks_rows fold_right] in Hbound. fold (blocks_rows rest) in Hbound.
    pose proof (Block_rows_nonneg block) as Hn0.
    pose proof (blocks_rows_nonneg rest) as Hrest0.
    unfold bind.
    destruct (write_step w done pending block Hinv HGb ltac:(lia))
      as [(-> & Hzero & w' & e & Hw)|(w' & done' & pending' & Hw & Hs' & Hinv' & Hstep)];
      rewrite Hw.
    + exists w', (Thrown e). split; [reflexivity|].
      split; [|discriminate].
      intros Hrows. inversion Hrows; subst. lia.
    + pose proof (plan_step_total _ _ _ _ _ _ Hstep) as Htotal.
      destruct (IH w' done' pending' Hinv' HGrest ltac:(lia)) as (w'' & o & Hrun & Hok & Hret).
      exists w'', o. split; [exact Hrun|].
      split; [intros Hrows; inversion Hrows; subst; auto|].
      intros Ho. destruct (Hret Ho) as (done'' & pending'' & Hs'' & Hinv'' & Hsteps).
      exists done'', pending''. split; [congruence|]. split; [exact Hinv''|].
      econstructor; eassumption.
Qed.

Lemma new_writer_inv (s : Settings) (sinks0 : Sinks) :
  compute_granularity s = true -> writer_inv (new_writer s [] sinks0) [] None.
Proof.
  intros Hcompute. constructor; cbn; try reflexivity; try exact Hcompute; try exact I.
  - constructor.
  - intros name. lia.
Qed.

Lemma flushColumnsBuffer_unfold w :
  flushColumnsBuffer w =
  if ColumnsBuffer_size (columns_buffer w) =? 0 then (w, Returned tt)
  else
    match getGranulesToWrite (index_granularity w) (Block_rows (columns_buffer w))
            (current_mark w) true with
    | Returned gs =>
        (writeDataBlockPrimaryIndexAndSkipIndices (columns_buffer w) gs
           (with_index_granularity (corrected_plan (index_granularity w) gs)
              (with_columns_buffer [] w)),
         Returned tt)
    | Thrown e => (with_columns_buffer [] w, Thrown e)
    | OutOfFuel => (with_columns_buffer [] w, OutOfFuel)
    end.
Proof.
  unfold flushColumnsBuffer, bind at 1, get. cbn beta iota.
  destruct (ColumnsBuffer_size (columns_buffer w) =? 0); [reflexivity|].
  unfold bind, modify, lift, ret, when, ColumnsBuffer_releaseColumns, getCurrentMark,
    corrected_plan.
  cbn beta iota zeta.
  destruct (getGranulesToWrite _ _ _ _) as [gs| |]; try reflexivity.
  destruct (last gs) as [back|]; [destruct (is_complete back)|]; reflexivity.
Qed.

(** The final flush from a state that [write] leaves. *)
Lemma flushColumnsBuffer_inv w done pending :
  writer_inv w done pending -> totalRows done + buffered pending < 2 ^ 62 ->
  exists w',
    flushColumnsBuffer w = (w', Returned tt) /\
    settings w' = settings w /\
    index_granularity w'
    = done ++ (match pending with Some (_, rows) => [rows] | None => [] end) /\
    (forall name,
       serialized_rows name (trace w')
       = column_multiplicity name (columns_list (settings w))
         * (totalRows done + buffered pending)) /\
    match pending with
    | None => w' = w
    | Some (_, rows) =>
        exists back,
          getGranulesToWrite (index_granularity w) (ColumnsBuffer_size (columns_buffer w))
            (current_mark w) true = Returned [back] /\
          is_complete back = false /\ rows_to_write back = rows
    end.
Proof.
  intros [Hcompute Hplan Hmark Hbuffer Hpending Hdone Hser] Hbound.
  assert (Hmod : UInt64.modulus = 4 * 2 ^ 62) by reflexivity.
  pose proof (positive_total_nonneg done Hdone) as Hdone0.
  rewrite flushColumnsBuffer_unfold.
  change (Block_rows (columns_buffer w)) with (ColumnsBuffer_size (columns_buffer w)).
  rewrite Hbuffer.
  destruct pending as [[m rows]|]; cbn [buffered plan_of] in *.
  - destruct Hpending as [Hrows Hm].
    destruct (Z.eqb_spec rows 0); [lia|].
    assert (Hgs : getGranulesToWrite (index_granularity w) rows (current_mark w) true
                  = Returned [{| start_row := 0; rows_to_write := rows;
                                 mark_number := Z.of_nat (length done);
                                 mark_on_start := true; is_complete := false |}]).
    { rewrite Hplan, Hmark, getGranulesToWrite_walk.
      - rewrite Nat2Z.id, drop_app_length. cbn [walk].
        destruct (Z.ltb_spec 0 rows); [|lia].
        rewrite Z.sub_0_r, Z.min_l by lia.
        destruct (Z.leb_spec m rows); [lia|].
        rewrite andb_false_r, Z.add_0_l, Z.ltb_irrefl. reflexivity.
      - apply positive_plan_in_range.
        + apply Forall_app. split; [exact Hdone|]. repeat constructor. lia.
        + rewrite totalRows_app. cbn. lia.
      - unfold getMarksCount. rewrite length_app. cbn [length]. lia.
      - lia. }
    rewrite Hgs.
    destruct (writeDataBlockPrimaryIndexAndSkipIndices_spec (columns_buffer w)
                [{| start_row := 0; rows_to_write := rows;
                    mark_number := Z.of_nat (length done);
                    mark_on_start := true; is_complete := false |}]
                (with_index_granularity
                   (corrected_plan (index_granularity w)
                      [{| start_row := 0; rows_to_write := rows;
                          mark_number := Z.of_nat (length done);
                          mark_on_start := true; is_complete := false |}])
                   (with_columns_buffer [] w)))
      as ((Hs & Hig & Hcm & Hbuf) & Htrace).
    eexists. split; [reflexivity|].
    cbn [with_index_granularity with_columns_buffer settings index_granularity trace]
      in Hs, Hig, Htrace.
    split; [exact Hs|]. split.
    + rewrite Hig, Hplan. unfold corrected_plan. cbn [last is_complete rows_to_write].
      rewrite popMark_last. reflexivity.
    + split; [|eexists; split; [reflexivity|split; reflexivity]].
      intros name. rewrite Htrace, Hser. cbn. lia.
  - rewrite Z.eqb_refl. exists w. split; [reflexivity|]. split; [reflexivity|].
    split; [rewrite Hplan, app_nil_r; reflexivity|].
    split; [|reflexivity]. intros name. rewrite Hser. f_equal. lia.
Qed.

Lemma column_multiplicity_in name columns :
  In name columns -> 1 <= column_multiplicity name columns.
Proof.
  unfold column_multiplicity. induction columns as [|name' columns IH]; [intros []|].
  intros [->|Hin]; cbn [List.filter].
  - rewrite bool_decide_eq_true_2 by reflexivity. cbn [length]. lia.
  - specialize (IH Hin). destruct (bool_decide (name' = name)); cbn [length]; lia.
Qed.

Lemma plan_step_fixed G n done pending done' pending' :
  1 <= G -> fixed_granularity G done pending ->
  plan_step G n done pending done' pending' ->
  fixed_granularity G done' pending'.
Proof.
  intros HG Hfixed Hstep.
  destruct Hstep as [Hn|m rows Hless|p added Hfull Htotal Hne Hpos Hin];
    destruct Hfixed as (Hwithin & Hmark & Hfirst).
  - split; [exact Hwithin|]. split; [reflexivity|exact Hfirst].
  - split; [exact Hwithin|]. split; [exact Hmark|exact Hfirst].
  - split; [apply Forall_app; split; [exact Hwithin|exact (Hin Hmark)]|].
    split; [reflexivity|]. right. rewrite totalRows_app.
    assert (0 <= totalRows done) by (destruct Hfirst as [->|]; [reflexivity|lia]).
    lia.
Qed.

Lemma plan_steps_fixed G blocks done pending done' pending' :
  1 <= G -> Forall (fun block => computeIndexGranularity block = G) blocks ->
  fixed_granularity G done pending ->
  plan_steps blocks done pending done' pending' ->
  fixed_granularity G done' pending'.
Proof.
  intros HG Hblocks Hfixed Hsteps. revert Hblocks Hfixed.
  induction Hsteps as [|block rest d p d1 p1 d2 p2 Hstep _ IH]; intros Hblocks Hfixed;
    [exact Hfixed|].
  inversion Hblocks as [|? ? HGb Hrest]; subst.
  apply IH; [exact Hrest|]. eapply plan_step_fixed; eassumption.
Qed.

(** C2, for 0 < R in its last part: blocks with [R] rows in all, written with
    the target [G] and flushed, leave a plan whose marks sum to [R]; every
    mark but the last holds at least half of [G] and fewer than twice [G]
    rows; for [0 < R < G] the plan is the single mark [R], and for [R = 0] it
    is empty.  The writer accepts every sequence of blocks that have at least
    one row each.  Columns have sizes that are not negative and that add up
    under [insertRangeFrom]; all sizes are below 2^62. *)
Theorem granularity_plan_invariant (s : Settings) (sinks0 : Sinks)
    (blocks : list Block) (G : Z) :
  compute_granularity s = true -> 1 <= G < 2 ^ 62 ->
  Forall (fun block => computeIndexGranularity block = G) blocks ->
  blocks_rows blocks < 2 ^ 62 ->
  let R := blocks_rows blocks in
  let run := writeAllAndFlush blocks (new_writer s [] sinks0) in
  (Forall (fun block => 1 <= Block_rows block) blocks ->
   exists w, run = (w, Returned tt)) /\
  (forall w, run = (w, Returned tt) ->
     let plan := index_granularity w in
     totalRows plan = R /\
     (forall i m, plan !! i = Some m -> (S i < length plan)%nat -> within_granularity G m) /\
     (0 < R < G -> plan = [R]) /\
     (R = 0 -> plan = [])).
Proof.
  intros Hcompute HG Hblocks Hbound R run. subst run.
  pose proof (blocks_rows_nonneg blocks) as HR0. fold R in HR0, Hbound.
  destruct (writeAll_inv blocks (new_writer s [] sinks0) [] None (new_writer_inv s sinks0 Hcompute))
    as (w1 & o & Hrun & Hok & Hret).
  { eapply Forall_impl; [exact Hblocks|]. cbn beta. intros block ->. exact HG. }
  { cbn. fold R. lia. }
  unfold writeAllAndFlush, bind. rewrite Hrun.
  split.
  - intros Hrows. rewrite (Hok Hrows).
    destruct (Hret (Hok Hrows)) as (done & pending & _ & Hinv & Hsteps).
    apply plan_steps_total in Hsteps. cbn in Hsteps. fold R in Hsteps.
    destruct (flushColumnsBuffer_inv w1 done pending Hinv ltac:(lia)) as (w2 & -> & _).
    eauto.
  - intros w Hw.
    destruct o as [[]|e|]; [|discriminate|discriminate].
    destruct (Hret eq_refl) as (done & pending & _ & Hinv & Hsteps).
    pose proof (plan_steps_total _ _ _ _ _ Hsteps) as Htotal.
    cbn in Htotal. fold R in Htotal.
    assert (Hfixed : fixed_granularity G done pending).
    { eapply plan_steps_fixed; [lia|exact Hblocks| |exact Hsteps].
      split; [constructor|]. split; [reflexivity|left; reflexivity]. }
    destruct Hfixed as (Hwithin & _ & Hfirst).
    destruct (flushColumnsBuffer_inv w1 done pending Hinv ltac:(lia))
      as (w2 & Hflush & _ & Hplan & _).
    rewrite Hflush in Hw. injection Hw as <-.
    pose proof (inv_pending _ _ _ Hinv) as Hpending.
    pose proof (positive_total_nonneg done (inv_done _ _ _ Hinv)) as Hdone0.
    cbn zeta. rewrite Hplan.
    destruct pending as [[m rows]|]; cbn [buffered] in *.
    + destruct Hpending as [Hrows Hm].
      split; [rewrite totalRows_app; cbn; lia|]. split; [|split].
      * intros i x Hi Hlast. rewrite length_app in Hlast. cbn [length] in Hlast.
        change (@lookup nat Z (list Z) _ i (done ++ [rows]) = Some x) in Hi.
        rewrite lookup_app_l in Hi by lia.
        rewrite Forall_forall in Hwithin. apply Hwithin.
        eapply list_elem_of_lookup_2. exact Hi.
      * intros HR. destruct Hfirst as [->|Hlarge]; [|lia].
        cbn in Htotal. cbn. f_equal. lia.
      * intros HR. lia.
    + rewrite app_nil_r.
      split; [lia|]. split; [|split].
      * intros i x Hi _. rewrite Forall_forall in Hwithin. apply Hwithin.
        eapply list_elem_of_lookup_2. exact Hi.
      * intros HR. destruct Hfirst as [->|Hlarge]; [cbn in Htotal; lia|lia].
      * intros HR. destruct Hfirst as [->|Hlarge]; [reflexivity|lia].
Qed.

(** The final flush when its last granule belongs to the last mark of the
    plan: the marks before that one and the rows of the granule add up to the
    rows flushed. *)
Lemma walk_final_total R c : forall ms cr cm gs back,
  Forall UInt64.in_range ms -> 0 <= cr ->
  walk ms true R cr cm c = Returned gs -> last gs = Some back ->
  mark_number back + 1 = cm + Z.of_nat (length ms) ->
  exists before m,
    ms = before ++ [m] /\ cr + totalRows before + rows_to_write back = R /\
    (is_complete back = true -> rows_to_write back = m).
Proof.
  induction ms as [|m0 rest IH]; intros cr cm gs back Hms Hcr; cbn [walk].
  - destruct (cr <? R); [discriminate|]. intros [= <-]. discriminate.
  - inversion Hms as [|? ? Hm0 Hrest]; subst. unfold UInt64.in_range in Hm0.
    destruct (Z.ltb_spec cr R) as [Hlt|Hge]; [|intros [= <-]; discriminate].
    rewrite andb_false_r.
    destruct (walk rest true R (cr + Z.min (R - cr) m0) (cm + 1) c) as [gs'| |] eqn:Hwalk;
      cbn [outcome_map]; try discriminate.
    intros [= <-] Hback Hmark.
    destruct gs' as [|g' gs''].
    + cbn in Hback. injection Hback as <-. cbn [mark_number length] in Hmark.
      assert (rest = []) as -> by (destruct rest; [reflexivity|cbn [length] in Hmark; lia]).
      cbn [walk] in Hwalk.
      destruct (Z.ltb_spec (cr + Z.min (R - cr) m0) R); [discriminate|].
      exists [], m0. cbn [app totalRows fold_right rows_to_write is_complete].
      split; [reflexivity|]. split; [lia|].
      intros Hcomplete. apply Z.leb_le in Hcomplete. lia.
    + assert (Hfull : Z.min (R - cr) m0 = m0).
      { destruct (Z.le_ge_cases m0 (R - cr)); [lia|].
        rewrite Z.min_l in Hwalk by lia.
        replace (cr + (R - cr)) with R in Hwalk by lia.
        destruct rest; cbn [walk] in Hwalk; rewrite Z.ltb_irrefl in Hwalk; discriminate. }
      rewrite Hfull in Hwalk.
      destruct (IH (cr + m0) (cm + 1) (g' :: gs'') back Hrest ltac:(lia) Hwalk)
        as (before & m & -> & Hrows & Hcomplete).
      * exact Hback.
      * cbn [length] in Hmark. lia.
      * exists (m0 :: before), m. split; [reflexivity|].
        rewrite totalRows_cons. split; [lia|exact Hcomplete].
Qed.

Lemma final_flush_total (ig : list Z) R M gs back :
  plan_in_range ig -> 0 <= M -> 0 < R < UInt64.modulus ->
  getGranulesToWrite ig R M true = Returned gs -> last gs = Some back ->
  mark_number back + 1 = getMarksCount ig ->
  totalRows (corrected_plan ig gs) = rows_before ig (Z.to_nat M) + R.
Proof.
  intros Hig HM HR Hgs Hback Hmark.
  assert (Hinside : M < getMarksCount ig).
  { unfold getGranulesToWrite in Hgs.
    destruct (Z.leb_spec (getMarksCount ig) M); [discriminate|lia]. }
  rewrite getGranulesToWrite_walk in Hgs by (assumption || lia).
  pose proof (Forall_drop _ (Z.to_nat M) _ (proj1 Hig)) as Hmarks.
  destruct (walk_final_total _ _ _ _ _ _ _ Hmarks (Z.le_refl 0) Hgs Hback)
    as (before & m & Hdrop & Hrows & Hcomplete).
  { rewrite length_drop. unfold getMarksCount in *. lia. }
  assert (Hplan : ig = (take (Z.to_nat M) ig ++ before) ++ [m]).
  { rewrite <- app_assoc, <- Hdrop, take_drop. reflexivity. }
  unfold corrected_plan, rows_before. rewrite Hback.
  destruct (is_complete back) eqn:Hc.
  - rewrite Hplan at 1. rewrite !totalRows_app, totalRows_cons.
    rewrite <- (Hcomplete eq_refl). cbn [totalRows fold_right]. lia.
  - rewrite Hplan at 1. rewrite popMark_last. unfold appendMark.
    rewrite !totalRows_app, totalRows_cons. cbn [totalRows fold_right]. lia.
Qed.

(** C5, with the condition the claim leaves out.  At shutdown the rows still
    buffered are planned as a final flush ([last_block] is true); the plan
    keeps its last mark when the last granule is complete, and has it popped
    and appended again with that granule's [rows_to_write] when it is not.
    What is popped is the last mark of the plan: when the last granule
    belongs to that mark, the plan after the flush holds the rows of the marks
    before the cursor and the rows flushed.  For a writer that computes its
    plan from an empty one this is always so: after any writes that returned
    the final flush returns, the marks sum to the rows written, and no listed
    column has fewer rows serialized than the plan claims.  Columns have
    sizes that are not negative and that add up under [insertRangeFrom]; all
    sizes are below 2^62. *)
Theorem final_flush_corrects_plan (w : Writer) (s : Settings) (sinks0 : Sinks)
    (blocks : list Block) :
  (forall gs back,
     ColumnsBuffer_size (columns_buffer w) <> 0 ->
     getGranulesToWrite (index_granularity w) (ColumnsBuffer_size (columns_buffer w))
       (current_mark w) true = Returned gs ->
     last gs = Some back ->
     exists w2, flushColumnsBuffer w = (w2, Returned tt) /\
       index_granularity w2
       = if is_complete back then index_granularity w
         else appendMark (popMark (index_granularity w)) (rows_to_write back)) /\
  (forall gs back,
     plan_in_range (index_granularity w) -> 0 <= current_mark w ->
     0 < ColumnsBuffer_size (columns_buffer w) < UInt64.modulus ->
     getGranulesToWrite (index_granularity w) (ColumnsBuffer_size (columns_buffer w))
       (current_mark w) true = Returned gs ->
     last gs = Some back ->
     mark_number back + 1 = getMarksCount (index_granularity w) ->
     exists w2, flushColumnsBuffer w = (w2, Returned tt) /\
       totalRows (index_granularity w2)
       = rows_before (index_granularity w) (Z.to_nat (current_mark w))
         + ColumnsBuffer_size (columns_buffer w)) /\
  (compute_granularity s = true ->
   Forall (fun block => 1 <= computeIndexGranularity block < 2 ^ 62) blocks ->
   blocks_rows blocks < 2 ^ 62 ->
   (Forall (fun block => 1 <= Block_rows block) blocks ->
    exists w1, writeAll blocks (new_writer s [] sinks0) = (w1, Returned tt)) /\
   forall w1, writeAll blocks (new_writer s [] sinks0) = (w1, Returned tt) ->
     exists w2,
       flushColumnsBuffer w1 = (w2, Returned tt) /\
       totalRows (index_granularity w2) = blocks_rows blocks /\
       forall name, In name (columns_list s) ->
         totalRows (index_granularity w2) <= serialized_rows name (trace w2)).
Proof.
  assert (Hflush : forall gs,
            ColumnsBuffer_size (columns_buffer w) <> 0 ->
            getGranulesToWrite (index_granularity w) (ColumnsBuffer_size (columns_buffer w))
              (current_mark w) true = Returned gs ->
            exists w2, flushColumnsBuffer w = (w2, Returned tt) /\
              index_granularity w2 = corrected_plan (index_granularity w) gs).
  { intros gs Hsize Hgs.
    rewrite flushColumnsBuffer_unfold.
    destruct (Z.eqb_spec (ColumnsBuffer_size (columns_buffer w)) 0); [contradiction|].
    change (Block_rows (columns_buffer w)) with (ColumnsBuffer_size (columns_buffer w)).
    rewrite Hgs. eexists. split; [reflexivity|].
    destruct (writeDataBlockPrimaryIndexAndSkipIndices_spec (columns_buffer w) gs
                (with_index_granularity (corrected_plan (index_granularity w) gs)
                   (with_columns_buffer [] w))) as ((_ & Hig & _) & _).
    rewrite Hig. reflexivity. }
  split; [|split].
  - intros gs back Hsize Hgs Hback.
    destruct (Hflush gs Hsize Hgs) as (w2 & Hw2 & Hplan).
    exists w2. split; [exact Hw2|]. rewrite Hplan.
    unfold corrected_plan. rewrite Hback. reflexivity.
  - intros gs back Hrange Hcursor Hsize Hgs Hback Hmark.
    destruct (Hflush gs ltac:(lia) Hgs) as (w2 & Hw2 & Hplan).
    exists w2. split; [exact Hw2|]. rewrite Hplan.
    apply (final_flush_total _ _ _ gs back); assumption.
  - intros Hcompute Hblocks Hbound.
    pose proof (blocks_rows_nonneg blocks) as HR0.
    destruct (writeAll_inv blocks (new_writer s [] sinks0) [] None
                (new_writer_inv s sinks0 Hcompute) Hblocks)
      as (w1 & o & Hrun & Hok & Hret).
    { cbn. lia. }
    rewrite Hrun. split.
    + intros Hrows. rewrite (Hok Hrows). exists w1. reflexivity.
    + intros w1' [= <- ->].
      destruct (Hret eq_refl) as (done & pending & Hs & Hinv & Hsteps).
      pose proof (plan_steps_total _ _ _ _ _ Hsteps) as Htotal. cbn in Htotal.
      destruct (flushColumnsBuffer_inv w1 done pending Hinv ltac:(lia))
        as (w2 & Hw2 & Hs2 & Hplan & Hser & _).
      pose proof (positive_total_nonneg done (inv_done _ _ _ Hinv)) as Hdone0.
      assert (Hsum : totalRows (index_granularity w2) = blocks_rows blocks).
      { rewrite Hplan, totalRows_app.
        destruct pending as [[m rows]|]; cbn [buffered] in Htotal; cbn; lia. }
      exists w2. split; [exact Hw2|]. split; [exact Hsum|].
      intros name Hin. rewrite Hsum, Hser, Hs. cbn [new_writer settings].
      pose proof (column_multiplicity_in name (columns_list s) Hin). nia.
Qed.

End WritePath.

Lemma plain_column_size_nonneg : forall c : @Column plain_collaborators, 0 <= column_size c.
Proof. intros c. cbn. lia. Qed.

Lemma plain_insertRangeFrom_size :
  forall a c : @Column plain_collaborators,
    column_size (insertRangeFrom a c) = column_size a + column_size c.
Proof. intros a c. cbn. lia. Qed.

Lemma granularity_plan_invariant_witness :
  exists w,
    @writeAllAndFlush plain_collaborators [[150; 150]; [50; 50]]%nat
      (@new_writer plain_collaborators (two_columns true) [] 0) = (w, Returned tt).
Proof.
  apply (proj1 (@granularity_plan_invariant plain_collaborators
                  plain_column_size_nonneg plain_insertRangeFrom_size
                  (two_columns true) 0 [[150; 150]; [50; 50]]%nat 100
                  eq_refl ltac:(lia) ltac:(repeat constructor) eq_refl)).
  repeat constructor; cbn; lia.
Defined.

(** The claim C2 as stated fails: when no block is written, [R = 0] is below
    the target of 100 rows and the plan is empty, not a single mark of 0
    rows. *)
Lemma no_rows_no_mark :
  let w := fst (@writeAllAndFlush plain_collaborators []
                  (@new_writer plain_collaborators (two_columns true) [] 0)) in
  @blocks_rows plain_collaborators [] = 0 /\ 0 < 100 /\
  index_granularity w = [] /\ index_granularity w <> [0].
Proof. cbn. repeat split; try lia. discriminate. Qed.

(** 150 rows and then 50 rows with a target of 100 rows. *)
Example plan_of_150_then_50 :
  index_granularity
    (fst (@writeAllAndFlush plain_collaborators [[150; 150]; [50; 50]]%nat
            (@new_writer plain_collaborators (two_columns true) [] 0)))
  = [100; 50; 50].
Proof. vm_compute. reflexivity. Qed.

Lemma final_flush_corrects_plan_witness :
  (exists w1,
     @writeAll plain_collaborators [[150; 150]; [30; 30]]%nat
       (@new_writer plain_collaborators (two_columns true) [] 0) = (w1, Returned tt) /\
     exists w2,
       flushColumnsBuffer w1 = (w2, Returned tt) /\
       totalRows (index_granularity w2)
       = @blocks_rows plain_collaborators [[150; 150]; [30; 30]]%nat /\
       forall name, In name (columns_list (two_columns true)) ->
         totalRows (index_granularity w2) <= serialized_rows name (trace w2)) /\
  (let w := fst (@writeAll plain_collaborators [[100]; [30]]%nat
                   (@new_writer plain_collaborators one_column_precomputed [100; 50] 0)) in
   exists w2, flushColumnsBuffer w = (w2, Returned tt) /\
     totalRows (index_granularity w2) = 100 + 30).
Proof.
  split.
  - destruct (proj2 (proj2 (@final_flush_corrects_plan plain_collaborators
                              plain_column_size_nonneg plain_insertRangeFrom_size
                              (@new_writer plain_collaborators (two_columns true) [] 0)
                              (two_columns true) 0 [[150; 150]; [30; 30]]%nat)))
      as [Hreturns Hflush]; [reflexivity| |reflexivity|].
    { repeat constructor; cbn; lia. }
    destruct Hreturns as [w1 Hw1]; [repeat constructor; cbn; lia|].
    exists w1. split; [exact Hw1|apply Hflush, Hw1].
  - intros w.
    apply (proj1 (proj2 (@final_flush_corrects_plan plain_collaborators
                           plain_column_size_nonneg plain_insertRangeFrom_size
                           w one_column_precomputed 0 []))
             [{| start_row := 0; rows_to_write := 30; mark_number := 1;
                 mark_on_start := true; is_complete := false |}]
             {| start_row := 0; rows_to_write := 30; mark_number := 1;
                mark_on_start := true; is_complete := false |}).
    + assert (Hw : index_granularity w = [100; 50]) by (vm_compute; reflexivity).
      rewrite Hw.
      split; [|reflexivity].
      repeat (apply List.Forall_cons; [vm_compute; split; congruence|]).
      apply List.Forall_nil.
    + assert (Hw : current_mark w = 1) by (vm_compute; reflexivity).
      rewrite Hw. lia.
    + assert (Hw : ColumnsBuffer_size (columns_buffer w) = 30) by (vm_compute; reflexivity).
      rewrite Hw. split; [lia|reflexivity].
    + vm_compute. reflexivity.
    + reflexivity.
    + vm_compute. reflexivity.
Defined.

(** The claim C5 as stated fails for a writer that was given its plan.  With
    the plan of 100, 50 and 80 rows, a block of 100 rows and then one of 30
    rows, the final flush plans the 30 rows as a short granule of the second
    mark and pops the third: the plan then claims 180 rows, and 130 have been
    serialized. *)
Lemma final_flush_pops_unwritten_mark :
  let run := @writeAllAndFlush plain_collaborators [[100]; [30]]%nat
               (@new_writer plain_collaborators one_column_precomputed [100; 50; 80] 0) in
  snd run = Returned tt /\
  index_granularity (fst run) = [100; 50; 30] /\
  totalRows (index_granularity (fst run)) = 180 /\
  serialized_rows "id" (trace (fst run)) = 130 /\
  serialized_rows "id" (trace (fst run)) < totalRows (index_granularity (fst run)).
Proof. vm_compute. repeat split. Qed.

(** * Further properties *)

(** ** The plan extension in closed form *)

Section PlanClosedForm.

Lemma replicate_snoc_cons (k : nat) (G : Z) (ig : list Z) :
  (ig ++ [G]) ++ replicate k G = ig ++ replicate (S k) G.
Proof. rewrite <- app_assoc. reflexivity. Qed.

(** The loop from a position inside the block, once the block is known to
    be large enough or to continue a mark. *)
Lemma extending_loop_closed off G n fuel : forall c ig,
  1 <= G < 2 ^ 63 -> 0 <= c < n -> n < 2 ^ 63 ->
  (G <=? n) || negb (off =? 0) = true ->
  n - c <= Z.of_nat fuel ->
  fillIndexGranularityImpl_loop fuel ig off G n c
  = Some (let full := ig ++ replicate (Z.to_nat ((n - c) / G)) G in
          let remainder := (n - c) mod G in
          if remainder =? 0 then full
          else if G <=? 2 * remainder then full ++ [remainder]
          else addRowsToLastMark full remainder).
Proof.
  assert (Hmod : UInt64.modulus = 2 * 2 ^ 63) by reflexivity.
  induction fuel as [|fuel IH]; intros c ig HG Hc Hn Hext Hfuel; [lia|].
  cbn [fillIndexGranularityImpl_loop].
  destruct (Z.ltb_spec c n) as [_|]; [|lia].
  rewrite UInt64_add_small by lia.
  unfold fillIndexGranularityImpl_body.
  rewrite UInt64_sub_small by lia. rewrite Hext.
  destruct (Z.ltb_spec (n - c) G) as [Hshort|Hfull]; cbn [andb].
  - assert (Hstop : forall ig', fillIndexGranularityImpl_loop fuel ig' off G n (c + G) = Some ig').
    { intros ig'. destruct fuel; cbn [fillIndexGranularityImpl_loop];
        destruct (Z.ltb_spec (c + G) n); try lia; reflexivity. }
    rewrite Hstop, UInt64_mul_small by lia.
    rewrite Z.div_small, Z.mod_small by lia.
    cbn [Z.to_nat replicate]. rewrite app_nil_r.
    destruct (Z.eqb_spec (n - c) 0); [lia|].
    replace ((n - c) * 2) with (2 * (n - c)) by lia.
    destruct (G <=? 2 * (n - c)); reflexivity.
  - destruct (Z.lt_ge_cases (c + G) n) as [Hmore|Hdone].
    + rewrite IH by (assumption || lia).
      replace (n - c) with ((n - (c + G)) + 1 * G) by lia.
      rewrite Z.div_add, Z_mod_plus_full by lia.
      assert (0 <= (n - (c + G)) / G) by (apply Z.div_pos; lia).
      rewrite Z2Nat.inj_add by lia.
      replace (Z.to_nat 1) with 1%nat by reflexivity.
      rewrite Nat.add_1_r. unfold appendMark. cbn zeta.
      rewrite replicate_snoc_cons. reflexivity.
    + assert (n - c = G) by lia.
      assert (Hstop : forall ig', fillIndexGranularityImpl_loop fuel ig' off G n (c + G) = Some ig').
      { intros ig'. destruct fuel; cbn [fillIndexGranularityImpl_loop];
          destruct (Z.ltb_spec (c + G) n); try lia; reflexivity. }
      rewrite Hstop. replace (n - c) with G by lia.
      rewrite Z.div_same, Z.mod_same by lia. reflexivity.
Qed.

Lemma fillIndexGranularityImpl_planned ig index_offset G rows_in_block :
  1 <= G < 2 ^ 63 -> 0 <= index_offset -> 0 <= rows_in_block < 2 ^ 63 ->
  fillIndexGranularityImpl ig index_offset G rows_in_block
  = Some (planned_marks ig index_offset G rows_in_block).
Proof.
  intros HG Hoff Hn. assert (Hmod : UInt64.modulus = 2 * 2 ^ 63) by reflexivity.
  unfold fillIndexGranularityImpl, planned_marks.
  destruct (Z.leb_spec rows_in_block index_offset) as [Hnone|Hsome].
  - destruct (Z.to_nat rows_in_block); cbn [fillIndexGranularityImpl_loop];
      destruct (Z.ltb_spec index_offset rows_in_block); try lia; reflexivity.
  - destruct ((G <=? rows_in_block) || negb (index_offset =? 0)) eqn:Hext.
    + apply extending_loop_closed; try assumption; lia.
    + apply orb_false_iff in Hext as [Hsmall Hzero].
      apply Z.leb_gt in Hsmall. apply negb_false_iff, Z.eqb_eq in Hzero. subst index_offset.
      destruct (Z.to_nat rows_in_block) as [|fuel] eqn:Hfuel; [lia|].
      cbn [fillIndexGranularityImpl_loop].
      destruct (Z.ltb_spec 0 rows_in_block); [|lia].
      unfold fillIndexGranularityImpl_body.
      rewrite UInt64_sub_small, UInt64_add_small by lia.
      destruct (Z.leb_spec G rows_in_block); [lia|]. cbn [Z.eqb negb orb].
      rewrite andb_false_r.
      destruct fuel; cbn [fillIndexGranularityImpl_loop];
        destruct (Z.ltb_spec (0 + G) rows_in_block); try lia; reflexivity.
Qed.

(** X1: [fillIndexGranularityImpl] computes the closed form [planned_marks]:
    the plan is a function of the block's rows, the offset and [G] alone. *)
Theorem fillIndexGranularityImpl_closed_form ig index_offset G rows_in_block :
  1 <= G < 2 ^ 63 -> 0 <= index_offset -> 0 <= rows_in_block < 2 ^ 63 ->
  fillIndexGranularityImpl ig index_offset G rows_in_block
  = Some (planned_marks ig index_offset G rows_in_block).
Proof. apply fillIndexGranularityImpl_planned. Qed.

Lemma fillIndexGranularityImpl_closed_form_witness :
  fillIndexGranularityImpl [100] 70 100 430 = Some [100; 100; 100; 100; 60].
Proof.
  rewrite (fillIndexGranularityImpl_closed_form [100] 70 100 430) by lia.
  reflexivity.
Defined.

(** X2: with a target of 0 rows the loop never advances: whatever the fuel,
    it does not return while rows are left. *)
Theorem fillIndexGranularityImpl_zero_granularity fuel ig index_offset rows_in_block current_row :
  0 <= current_row < rows_in_block -> rows_in_block < UInt64.modulus ->
  fillIndexGranularityImpl_loop fuel ig index_offset 0 rows_in_block current_row = None.
Proof.
  intros Hc Hn. revert ig.
  induction fuel as [|fuel IH]; intros ig; cbn [fillIndexGranularityImpl_loop];
    destruct (Z.ltb_spec current_row rows_in_block); try lia; [reflexivity|].
  rewrite UInt64_add_small by lia. rewrite Z.add_0_r. apply IH.
Qed.

Lemma fillIndexGranularityImpl_zero_granularity_witness :
  fillIndexGranularityImpl_loop 1000 [] 0 0 5 0 = None.
Proof.
  apply (fillIndexGranularityImpl_zero_granularity 1000 [] 0 5 0); [lia|reflexivity].
Defined.

End PlanClosedForm.

(** ** The rows a block adds to the plan *)

Section PlanRows.

Lemma totalRows_replicate (k : nat) (G : Z) : totalRows (replicate k G) = Z.of_nat k * G.
Proof.
  induction k as [|k IH]; [reflexivity|].
  cbn [replicate]. rewrite totalRows_cons, IH. lia.
Qed.

Lemma nonneg_total_nonneg (ms : list Z) : Forall (fun x => 0 <= x) ms -> 0 <= totalRows ms.
Proof. induction 1; [reflexivity|rewrite totalRows_cons; lia]. Qed.

Lemma nonneg_last_le (before : list Z) (x : Z) :
  Forall (fun y => 0 <= y) (before ++ [x]) -> 0 <= x <= totalRows (before ++ [x]).
Proof.
  intros H. apply Forall_app in H as [Hb Hx]. inversion Hx; subst.
  pose proof (nonneg_total_nonneg before Hb). rewrite totalRows_app. cbn. lia.
Qed.

Lemma list_snoc_or_nil (l : list Z) : l = [] \/ exists before x, l = before ++ [x].
Proof. induction l using rev_ind; [left; reflexivity|right; eauto]. Qed.

(** X3: for a block that is large enough, or that continues a mark, the
    plan grows by exactly the rows of the block from [index_offset] on, and by
    nothing when the block ends at or before [index_offset]; no mark is
    dropped, and every mark but the last of the old plan is kept as it was. *)
Theorem fillIndexGranularityImpl_adds_block_rows ig index_offset G rows_in_block :
  1 <= G < 2 ^ 63 -> 0 <= index_offset -> 0 <= rows_in_block ->
  Forall (fun x => 0 <= x) ig -> totalRows ig + rows_in_block < 2 ^ 63 ->
  (G <=? rows_in_block) || negb (index_offset =? 0) = true ->
  exists ig',
    fillIndexGranularityImpl ig index_offset G rows_in_block = Some ig' /\
    totalRows ig' = totalRows ig + Z.max 0 (rows_in_block - index_offset) /\
    (length ig <= length ig')%nat /\
    forall i m, ig !! i = Some m -> (S i < length ig)%nat -> ig' !! i = Some m.
Proof.
  intros HG Hoff Hrows Hig Hbound Hext.
  assert (Hmod : UInt64.modulus = 2 * 2 ^ 63) by reflexivity.
  pose proof (nonneg_total_nonneg ig Hig) as Hig0.
  rewrite fillIndexGranularityImpl_planned by lia.
  eexists. split; [reflexivity|].
  unfold planned_marks.
  destruct (Z.leb_spec rows_in_block index_offset) as [Hbefore|Hinside].
  { rewrite Z.max_l by lia. split; [lia|]. split; [lia|]. intros i m Hi _. exact Hi. }
  rewrite Hext, Z.max_r by lia.
  set (rows := rows_in_block - index_offset).
  pose proof (Z.div_mod rows G ltac:(lia)) as Hdm.
  pose proof (Z.mod_pos_bound rows G ltac:(lia)) as Hr.
  assert (Hq : 0 <= rows / G) by (apply Z.div_pos; lia).
  set (q := rows / G) in *. set (r := rows mod G) in *.
  set (full := ig ++ replicate (Z.to_nat q) G).
  assert (Hfull : totalRows full = totalRows ig + q * G).
  { subst full. rewrite totalRows_app, totalRows_replicate. lia. }
  assert (Hlen : (length ig <= length full)%nat).
  { subst full. rewrite length_app. lia. }
  assert (Hkeep : forall i m, ig !! i = Some m -> full !! i = Some m).
  { intros i m Hi. subst full. apply lookup_app_l_Some. exact Hi. }
  cbn zeta.
  destruct (Z.eqb_spec r 0) as [Hr0|Hr0].
  - split; [lia|]. split; [exact Hlen|]. intros i m Hi _. apply Hkeep, Hi.
  - destruct (G <=? 2 * r).
    + split; [rewrite totalRows_app; cbn; lia|].
      split; [rewrite length_app; lia|].
      intros i m Hi _. apply lookup_app_l_Some, Hkeep, Hi.
    + destruct (list_snoc_or_nil full) as [Hnil|(before & x & Hsnoc)].
      * rewrite Hnil. unfold addRowsToLastMark. cbn [rev].
        rewrite Hnil in Hfull, Hlen. cbn in Hfull.
        split; [cbn; lia|]. split; [cbn [length] in *; lia|].
        intros i m Hi Hlast. cbn [length] in Hlen. lia.
      * rewrite Hsnoc, addRowsToLastMark_last.
        assert (Hx : 0 <= x <= totalRows full).
        { rewrite Hsnoc. apply nonneg_last_le. rewrite <- Hsnoc. subst full.
          apply Forall_app. split; [exact Hig|]. apply Forall_replicate. lia. }
        rewrite UInt64_add_small by lia.
        rewrite Hsnoc in Hfull, Hlen. rewrite totalRows_app in *. cbn in Hfull |- *.
        split; [lia|]. rewrite !length_app in *. cbn [length] in *.
        split; [lia|].
        intros i m Hi Hlast.
        pose proof (Hkeep i m Hi) as Hfi. rewrite Hsnoc in Hfi.
        rewrite lookup_app_l in Hfi by lia. apply lookup_app_l_Some, Hfi.
Qed.

Lemma fillIndexGranularityImpl_adds_block_rows_witness :
  (exists ig',
     fillIndexGranularityImpl [100] 70 100 200 = Some ig' /\
     totalRows ig' = totalRows [100] + Z.max 0 (200 - 70) /\
     (length [100] <= length ig')%nat /\
     forall i m, [100] !! i = Some m -> (S i < length [100])%nat -> ig' !! i = Some m) /\
  (exists ig',
     fillIndexGranularityImpl [100] 70 100 30 = Some ig' /\
     totalRows ig' = totalRows [100] + Z.max 0 (30 - 70) /\
     (length [100] <= length ig')%nat /\
     forall i m, [100] !! i = Some m -> (S i < length [100])%nat -> ig' !! i = Some m).
Proof.
  split.
  - apply (fillIndexGranularityImpl_adds_block_rows [100] 70 100 200);
      try lia; try reflexivity.
    repeat constructor. lia.
  - apply (fillIndexGranularityImpl_adds_block_rows [100] 70 100 30);
      try lia; try reflexivity.
    repeat constructor. lia.
Defined.

End PlanRows.

(** ** More on the granule planner *)

Ltac small_plan_in_range :=
  split;
  [repeat first [apply List.Forall_nil
                |apply List.Forall_cons; [vm_compute; split; congruence|]]
  |reflexivity].

Section PlannerFacts.
Import PlannerSpec.

Lemma getGranulesToWrite_returned_inside ig R M last gs :
  getGranulesToWrite ig R M last = Returned gs -> M < getMarksCount ig.
Proof.
  unfold getGranulesToWrite.
  destruct (Z.leb_spec (getMarksCount ig) M); [discriminate|lia].
Qed.

Lemma walk_row_bounds last R c : forall ms cr cm gs,
  Forall UInt64.in_range ms -> 0 <= cr ->
  walk ms last R cr cm c = Returned gs ->
  forall g, In g gs ->
    cr <= start_row g /\ 0 <= rows_to_write g /\ start_row g + rows_to_write g <= R.
Proof.
  induction ms as [|m rest IH]; intros cr cm gs Hms Hcr; cbn [walk];
    destruct (Z.ltb_spec cr R) as [Hlt|Hge]; try discriminate;
    try (intros [= <-] g []).
  inversion Hms as [|? ? Hm Hrest]; subst. unfold UInt64.in_range in Hm.
  destruct ((R - cr <? m) && negb last); [discriminate|].
  destruct (walk rest last R (cr + Z.min (R - cr) m) (cm + 1) c) as [gs'| |] eqn:Hwalk;
    cbn [outcome_map]; try discriminate.
  intros [= <-] g [<-|Hin].
  - cbn [start_row rows_to_write]. lia.
  - assert (Hcr' : 0 <= cr + Z.min (R - cr) m) by lia.
    destruct (IH _ _ _ Hrest Hcr' Hwalk g Hin) as (H1 & H2 & H3). lia.
Qed.

Lemma walk_length last R c : forall ms cr cm gs,
  walk ms last R cr cm c = Returned gs -> (length gs <= length ms)%nat.
Proof.
  induction ms as [|m rest IH]; intros cr cm gs; cbn [walk];
    destruct (cr <? R); try discriminate; try (intros [= <-]; cbn; lia).
  destruct ((R - cr <? m) && negb last); [discriminate|].
  destruct (walk rest last R (cr + Z.min (R - cr) m) (cm + 1) c) as [gs'| |] eqn:Hwalk;
    cbn [outcome_map]; try discriminate.
  intros [= <-]. apply IH in Hwalk. cbn [length]. lia.
Qed.

(** X4: the granules returned stay inside the plan and inside the block:
    there are no more granules than marks from the cursor on, every mark
    number is a mark of the plan, every row range lies in [[0, R)], and the
    ranges add up to [R] (also for [R = 0], where no granule is returned). *)
Theorem getGranulesToWrite_inside_plan ig R M last gs :
  plan_in_range ig -> 0 <= M -> 0 <= R < UInt64.modulus ->
  getGranulesToWrite ig R M last = Returned gs ->
  Z.of_nat (length gs) <= getMarksCount ig - M /\
  granule_rows gs = R /\
  forall i g, gs !! i = Some g ->
    M <= mark_number g < getMarksCount ig /\
    0 <= start_row g /\ 0 <= rows_to_write g /\ start_row g + rows_to_write g <= R.
Proof.
  intros Hig HM HR Hgs.
  pose proof (getGranulesToWrite_returned_inside _ _ _ _ _ Hgs) as Hin.
  rewrite getGranulesToWrite_walk in Hgs by (assumption || lia).
  pose proof (Forall_drop _ (Z.to_nat M) _ (proj1 Hig)) as Hmarks.
  destruct (walk_granules _ _ _ _ _ _ _ Hmarks (Z.le_refl 0) Hgs) as (Hcover & Hend & Heach).
  assert (Hlen : forall i g, gs !! i = Some g -> (i < length (drop (Z.to_nat M) ig))%nat).
  { intros i g Hi. destruct (Heach i g Hi) as (_ & _ & _ & m & Hm & _).
    eapply lookup_lt_Some, Hm. }
  rewrite length_drop in Hlen. unfold getMarksCount in *.
  split; [|split].
  - pose proof (walk_length _ _ _ _ _ _ _ Hgs) as Hl. rewrite length_drop in Hl. lia.
  - destruct (Z.lt_ge_cases 0 R) as [Hpos|Hzero].
    + destruct (Hcover Hpos) as [_ Hsum]. lia.
    + rewrite (Hend Hzero). cbn. lia.
  - intros i g Hi.
    destruct (Heach i g Hi) as (_ & Hn & _).
    pose proof (Hlen i g Hi).
    destruct (walk_row_bounds _ _ _ _ _ _ _ Hmarks (Z.le_refl 0) Hgs g) as (H1 & H2 & H3).
    { apply list_elem_of_In. eapply list_elem_of_lookup_2, Hi. }
    lia.
Qed.

Lemma getGranulesToWrite_inside_plan_witness :
  Z.of_nat (length [{| start_row := 0; rows_to_write := 100; mark_number := 0;
                       mark_on_start := true; is_complete := true |};
                    {| start_row := 100; rows_to_write := 50; mark_number := 1;
                       mark_on_start := true; is_complete := false |}])
  <= getMarksCount [100; 80] - 0.
Proof.
  apply (getGranulesToWrite_inside_plan [100; 80] 150 0 true).
  - small_plan_in_range.
  - lia.
  - split; [lia|reflexivity].
  - vm_compute. reflexivity.
Defined.

(** X5: a flush that is not the final one returns whole marks only: every
    granule is complete and has exactly the rows of its mark. *)
Theorem getGranulesToWrite_non_final_full_marks ig R M gs :
  plan_in_range ig -> 0 <= M -> 0 <= R < UInt64.modulus ->
  getGranulesToWrite ig R M false = Returned gs ->
  forall g, In g gs ->
    is_complete g = true /\ getMarkRows ig (mark_number g) = Some (rows_to_write g).
Proof.
  intros Hig HM HR Hgs g Hin.
  pose proof (getGranulesToWrite_returned_inside _ _ _ _ _ Hgs) as Hinside.
  rewrite getGranulesToWrite_walk in Hgs by (assumption || lia).
  pose proof (Forall_drop _ (Z.to_nat M) _ (proj1 Hig)) as Hmarks.
  destruct (walk_granules _ _ _ _ _ _ _ Hmarks (Z.le_refl 0) Hgs) as (_ & _ & Heach).
  apply list_elem_of_In, list_elem_of_lookup in Hin as [i Hi].
  destruct (Heach i g Hi) as (_ & Hn & _ & m & Hm & Hrows & Hcomplete & Hlast).
  assert (Hc : is_complete g = true).
  { destruct (is_complete g); [reflexivity|]. destruct (Hlast eq_refl). discriminate. }
  split; [exact Hc|].
  rewrite Hn, getMarkRows_drop by lia. rewrite Hm. f_equal.
  rewrite Hc in Hcomplete. symmetry in Hcomplete. apply Z.leb_le in Hcomplete. lia.
Qed.

Lemma getGranulesToWrite_non_final_full_marks_witness :
  let g := {| start_row := 100; rows_to_write := 50; mark_number := 1;
              mark_on_start := true; is_complete := true |} in
  is_complete g = true /\ getMarkRows [100; 50] (mark_number g) = Some (rows_to_write g).
Proof.
  intros g.
  apply (getGranulesToWrite_non_final_full_marks [100; 50] 150 0
           [{| start_row := 0; rows_to_write := 100; mark_number := 0;
               mark_on_start := true; is_complete := true |}; g]).
  - small_plan_in_range.
  - lia.
  - split; [lia|reflexivity].
  - vm_compute. reflexivity.
  - right. left. reflexivity.
Defined.

End PlannerFacts.

(** ** Flushing at a mark boundary *)

Section PlannerSplit.
Import PlannerSpec.

Lemma walk_shift last c d : forall ms R cr cm,
  walk ms last (R + d) (cr + d) cm c
  = outcome_map (map (shift_granule d)) (walk ms last R cr cm c).
Proof.
  induction ms as [|m rest IH]; intros R cr cm; cbn [walk].
  - destruct (Z.ltb_spec (cr + d) (R + d)); destruct (Z.ltb_spec cr R); try lia; reflexivity.
  - destruct (Z.ltb_spec (cr + d) (R + d)); destruct (Z.ltb_spec cr R); try lia;
      [|reflexivity].
    replace (R + d - (cr + d)) with (R - cr) by lia.
    destruct ((R - cr <? m) && negb last); [reflexivity|].
    replace (cr + d + Z.min (R - cr) m) with (cr + Z.min (R - cr) m + d) by lia.
    rewrite IH.
    destruct (walk rest last R (cr + Z.min (R - cr) m) (cm + 1) c); reflexivity.
Qed.

Lemma walk_split last c R1 R2 : forall ms cr cm gs1,
  0 <= R2 -> cr <= R1 ->
  walk ms false R1 cr cm c = Returned gs1 ->
  walk ms last (R1 + R2) cr cm c
  = outcome_map (app gs1)
      (walk (drop (length gs1) ms) last (R1 + R2) R1 (cm + Z.of_nat (length gs1)) c).
Proof.
  induction ms as [|m rest IH]; intros cr cm gs1 HR2 Hcr; cbn [walk];
    destruct (Z.ltb_spec cr R1) as [Hlt|Hge]; try discriminate.
  - intros [= <-]. assert (cr = R1) by lia. subst cr.
    cbn [length drop walk]. rewrite Z.add_0_r.
    destruct (R1 <? R1 + R2); reflexivity.
  - destruct (Z.ltb_spec (R1 - cr) m) as [Hshort|Hfull]; cbn [andb negb]; [discriminate|].
    destruct (walk rest false R1 (cr + Z.min (R1 - cr) m) (cm + 1) c) as [gs'| |] eqn:Hwalk;
      cbn [outcome_map]; try discriminate.
    intros [= <-].
    destruct (Z.ltb_spec cr (R1 + R2)); [|lia].
    destruct (Z.ltb_spec (R1 + R2 - cr) m); [lia|]. cbn [andb].
    rewrite Z.min_r in Hwalk by lia. rewrite !Z.min_r by lia.
    assert (Hcr' : cr + m <= R1) by lia.
    rewrite (IH (cr + m) (cm + 1) gs' HR2 Hcr' Hwalk).
    cbn [length drop].
    replace (cm + 1 + Z.of_nat (length gs')) with (cm + Z.of_nat (S (length gs'))) by lia.
    destruct (Z.leb_spec m (R1 - cr)); [|lia].
    destruct (Z.leb_spec m (R1 + R2 - cr)); [|lia].
    destruct (walk (drop (length gs') rest) last (R1 + R2) R1 _ c); reflexivity.
  - intros [= <-]. assert (cr = R1) by lia. subst cr.
    cbn [length drop]. rewrite Z.add_0_r. cbn [walk].
    match goal with |- ?T = outcome_map _ ?T => destruct T; reflexivity end.
Qed.

(** X6: flushing at a mark boundary changes nothing: when [R1] rows are
    planned as a flush that is not the final one and the next [R2] rows from
    the cursor it leaves, the granules are those of planning all [R1 + R2]
    rows at once, the later ones starting [R1] rows further in the block. *)
Theorem getGranulesToWrite_split ig R1 R2 M last gs1 gs2 :
  plan_in_range ig -> 0 <= M -> 0 <= R1 -> 0 <= R2 -> R1 + R2 < UInt64.modulus ->
  getGranulesToWrite ig R1 M false = Returned gs1 ->
  getGranulesToWrite ig R2 (M + Z.of_nat (length gs1)) last = Returned gs2 ->
  getGranulesToWrite ig (R1 + R2) M last
  = Returned (gs1 ++ map (shift_granule R1) gs2).
Proof.
  intros Hig HM HR1 HR2 Hbound H1 H2.
  pose proof (getGranulesToWrite_returned_inside _ _ _ _ _ H1) as Hin1.
  pose proof (getGranulesToWrite_returned_inside _ _ _ _ _ H2) as Hin2.
  rewrite getGranulesToWrite_walk in H1 by (assumption || lia).
  rewrite getGranulesToWrite_walk in H2 by (assumption || lia).
  rewrite getGranulesToWrite_walk by (assumption || lia).
  rewrite (walk_split last _ R1 R2 _ 0 M gs1 HR2 HR1 H1).
  rewrite drop_drop.
  replace (Z.to_nat M + length gs1)%nat with (Z.to_nat (M + Z.of_nat (length gs1))) by lia.
  replace R1 with (0 + R1) at 2 by lia.
  replace (R1 + R2) with (R2 + R1) by lia.
  rewrite walk_shift, H2. reflexivity.
Qed.

Lemma getGranulesToWrite_split_witness :
  getGranulesToWrite [100; 50; 80] (150 + 30) 0 true
  = Returned
      ([{| start_row := 0; rows_to_write := 100; mark_number := 0;
           mark_on_start := true; is_complete := true |};
        {| start_row := 100; rows_to_write := 50; mark_number := 1;
           mark_on_start := true; is_complete := true |}]
       ++ map (shift_granule 150)
            [{| start_row := 0; rows_to_write := 30; mark_number := 2;
                mark_on_start := true; is_complete := false |}]).
Proof.
  apply (getGranulesToWrite_split [100; 50; 80] 150 30 0 true).
  - small_plan_in_range.
  - lia.
  - lia.
  - lia.
  - reflexivity.
  - vm_compute. reflexivity.
  - vm_compute. reflexivity.
Defined.

End PlannerSplit.

(** ** More on [write] and the row buffer *)

Section WriteFacts.
Import PlannerSpec.
Context {collaborators : Collaborators}.
Hypothesis column_size_nonneg : forall c : Column, 0 <= column_size c.
Hypothesis insertRangeFrom_size :
  forall a c : Column, column_size (insertRangeFrom a c) = column_size a + column_size c.

(** X7: the buffer holds the rows of all the blocks added since it was last
    released. *)
Theorem ColumnsBuffer_accumulates (blocks : list Block) :
  ColumnsBuffer_size (fold_left ColumnsBuffer_add blocks []) = blocks_rows blocks /\
  ColumnsBuffer_size (snd (ColumnsBuffer_releaseColumns (fold_left ColumnsBuffer_add blocks [])))
  = 0 /\
  fst (ColumnsBuffer_releaseColumns (fold_left ColumnsBuffer_add blocks []))
  = fold_left ColumnsBuffer_add blocks [].
Proof.
  split; [|split; reflexivity].
  assert (H : forall accumulated,
            ColumnsBuffer_size (fold_left ColumnsBuffer_add blocks accumulated)
            = ColumnsBuffer_size accumulated + blocks_rows blocks).
  { induction blocks as [|block rest IH]; intros accumulated; cbn [fold_left blocks_rows fold_right].
    - lia.
    - rewrite IH, (ColumnsBuffer_size_add insertRangeFrom_size). fold (blocks_rows rest). lia. }
  rewrite H. reflexivity.
Qed.

Lemma write_unfold_precomputed block w :
  compute_granularity (settings w) = false ->
  write block w
  = write_buffered (with_columns_buffer (ColumnsBuffer_add (columns_buffer w) block) w).
Proof.
  intros Hcompute.
  unfold write, bind at 1, get at 1. cbn beta iota. rewrite Hcompute. cbn [when].
  unfold bind, get, modify, markRows, lift, ret, when, ColumnsBuffer_releaseColumns,
    getCurrentMark, write_buffered.
  cbn beta iota zeta.
  destruct (getMarkRows _ _); [|reflexivity].
  destruct (_ <=? _); [|reflexivity].
  cbn beta iota.
  destruct (getGranulesToWrite _ _ _ _); reflexivity.
Qed.

Lemma write_buffered_plan w2 :
  index_granularity (fst (write_buffered w2)) = index_granularity w2 /\
  settings (fst (write_buffered w2)) = settings w2.
Proof.
  unfold write_buffered.
  destruct (getMarkRows _ _); [|split; reflexivity].
  destruct (_ <=? _); [|split; reflexivity].
  destruct (getGranulesToWrite _ _ _ _) as [gs| |]; try (split; reflexivity).
  cbn [fst].
  destruct (writeDataBlockPrimaryIndexAndSkipIndices_spec (columns_buffer w2) gs
              (with_columns_buffer [] w2)) as ((Hs & Hig & _) & _).
  cbn [with_current_mark index_granularity settings]. split; assumption.
Qed.

(** X8: a writer that was given its plan ([compute_granularity] is false)
    never changes it in [write], whether the call returns or throws. *)
Theorem write_keeps_precomputed_plan (block : Block) (w : Writer) :
  compute_granularity (settings w) = false ->
  index_granularity (fst (write block w)) = index_granularity w /\
  settings (fst (write block w)) = settings w.
Proof.
  intros Hcompute. rewrite (write_unfold_precomputed block w Hcompute).
  destruct (write_buffered_plan
              (with_columns_buffer (ColumnsBuffer_add (columns_buffer w) block) w)) as [H1 H2].
  split; [rewrite H1|rewrite H2]; reflexivity.
Qed.

(** X9: [write] needs a mark for its rows.  When the cursor is at or past
    the end of the plan and the plan is not extended (it is not computed, or
    the block has no rows), [write] throws; the block stays in the buffer and
    nothing is written. *)
Theorem write_without_mark_throws (block : Block) (w : Writer) :
  0 <= current_mark w -> getMarksCount (index_granularity w) <= current_mark w ->
  compute_granularity (settings w) = false \/ Block_rows block = 0 ->
  exists w',
    write block w
    = (w', Thrown (NonExistingMark (current_mark w) (getMarksCount (index_granularity w)))) /\
    index_granularity w' = index_granularity w /\
    trace w' = trace w /\
    columns_buffer w' = ColumnsBuffer_add (columns_buffer w) block.
Proof.
  intros Hcur Hend Hcase.
  destruct (compute_granularity (settings w)) eqn:Hcompute.
  - destruct Hcase as [|Hrows]; [discriminate|].
    assert (Hfill : fillIndexGranularity (computeIndexGranularity block) (Block_rows block) w
                    = (with_index_granularity (index_granularity w) w, Returned tt)).
    { unfold fillIndexGranularity, bind at 1, get. cbn beta iota.
      unfold getCurrentMark.
      destruct (Z.ltb_spec (current_mark w) (getMarksCount (index_granularity w))); [lia|].
      unfold bind, ret. rewrite Hrows. reflexivity. }
    rewrite (write_unfold (collaborators := collaborators)) by exact Hcompute.
    rewrite Hfill. unfold write_buffered.
    cbn [with_columns_buffer with_index_granularity index_granularity current_mark].
    rewrite getMarkRows_past_end by exact Hend.
    eexists. split; [reflexivity|]. repeat split.
  - rewrite (write_unfold_precomputed block w Hcompute). unfold write_buffered.
    cbn [with_columns_buffer index_granularity current_mark].
    rewrite getMarkRows_past_end by exact Hend.
    eexists. split; [reflexivity|]. repeat split.
Qed.

End WriteFacts.

Lemma write_without_mark_throws_witness :
  exists w',
    @write plain_collaborators [0; 0]%nat
      (@new_writer plain_collaborators (two_columns true) [] 0)
    = (w', Thrown (NonExistingMark 0 0)) /\
    index_granularity w' = [] /\ trace w' = [] /\ columns_buffer w' = [0; 0]%nat.
Proof.
  apply (@write_without_mark_throws plain_collaborators [0; 0]%nat
           (@new_writer plain_collaborators (two_columns true) [] 0));
    [reflexivity|reflexivity|right; reflexivity].
Defined.

Lemma write_keeps_precomputed_plan_witness :
  let s := {| columns_list := ["id"]; rewrite_primary_key := false;
              with_final_mark := false; compute_granularity := false;
              marks_compressed := false; marks_file_extension := ".mrk3";
              streams_by_codec := [7] |} in
  index_granularity
    (fst (@write plain_collaborators [150]%nat
            (@new_writer plain_collaborators s [100; 50] 0)))
  = [100; 50].
Proof.
  intros s.
  apply (@write_keeps_precomputed_plan plain_collaborators [150]%nat
           (@new_writer plain_collaborators s [100; 50] 0)).
  reflexivity.
Defined.

Lemma ColumnsBuffer_accumulates_witness :
  ColumnsBuffer_size
    (fold_left (@ColumnsBuffer_add plain_collaborators) [[150; 150]; [50; 50]]%nat [])
  = @blocks_rows plain_collaborators [[150; 150]; [50; 50]]%nat.
Proof.
  apply (@ColumnsBuffer_accumulates plain_collaborators plain_insertRangeFrom_size
           [[150; 150]; [50; 50]]%nat).
Defined.

(** ** The writer between two writes *)

Section WriteRun.
Import PlannerSpec.
Context {collaborators : Collaborators}.
Hypothesis column_size_nonneg : forall c : Column, 0 <= column_size c.
Hypothesis insertRangeFrom_size :
  forall a c : Column, column_size (insertRangeFrom a c) = column_size a + column_size c.

Lemma writeAll_reaches (s : Settings) (sinks0 : Sinks) (blocks : list Block) (w : Writer) :
  compute_granularity s = true ->
  Forall (fun block => 1 <= computeIndexGranularity block < 2 ^ 62) blocks ->
  blocks_rows blocks < 2 ^ 62 ->
  writeAll blocks (new_writer s [] sinks0) = (w, Returned tt) ->
  exists done pending,
    settings w = s /\ writer_inv w done pending /\
    totalRows done + buffered pending = blocks_rows blocks.
Proof.
  intros Hcompute HG Hbound Hrun.
  pose proof (blocks_rows_nonneg column_size_nonneg blocks) as HR0.
  destruct (writeAll_inv column_size_nonneg insertRangeFrom_size blocks
              (new_writer s [] sinks0) [] None (new_writer_inv s sinks0 Hcompute) HG)
    as (w1 & o & Hrun' & _ & Hret).
  { cbn. lia. }
  rewrite Hrun in Hrun'. injection Hrun' as <- <-.
  destruct (Hret eq_refl) as (done & pending & Hs & Hinv & Hsteps).
  exists done, pending. split; [exact Hs|]. split; [exact Hinv|].
  apply plan_steps_total in Hsteps. cbn in Hsteps. lia.
Qed.

(** X10: between two writes the buffer never holds a whole mark.  After any
    sequence of writes that returned, either the buffer is empty and the
    cursor is at the end of the plan, or the cursor is on the last mark of the
    plan and the buffer holds at least one row and fewer rows than that
    mark. *)
Theorem write_leaves_less_than_a_mark (s : Settings) (sinks0 : Sinks)
    (blocks : list Block) (w : Writer) :
  compute_granularity s = true ->
  Forall (fun block => 1 <= computeIndexGranularity block < 2 ^ 62) blocks ->
  blocks_rows blocks < 2 ^ 62 ->
  writeAll blocks (new_writer s [] sinks0) = (w, Returned tt) ->
  (ColumnsBuffer_size (columns_buffer w) = 0 /\
   current_mark w = getMarksCount (index_granularity w)) \/
  (current_mark w + 1 = getMarksCount (index_granularity w) /\
   exists m, getMarkRows (index_granularity w) (current_mark w) = Some m /\
     0 < ColumnsBuffer_size (columns_buffer w) < m).
Proof.
  intros Hcompute HG Hbound Hrun.
  destruct (writeAll_reaches s sinks0 blocks w Hcompute HG Hbound Hrun)
    as (done & pending & _ & [_ Hplan Hmark Hbuffer Hpending _ _] & _).
  rewrite Hplan, Hmark, Hbuffer.
  destruct pending as [[m rows]|]; cbn [plan_of buffered].
  - right. unfold getMarksCount. rewrite length_app. cbn [length].
    split; [lia|]. exists m. split; [apply getMarkRows_middle|lia].
  - left. split; reflexivity.
Qed.

End WriteRun.

Lemma write_leaves_less_than_a_mark_witness :
  let w := fst (@writeAll plain_collaborators [[150; 150]; [30; 30]]%nat
                  (@new_writer plain_collaborators (two_columns true) [] 0)) in
  (ColumnsBuffer_size (columns_buffer w) = 0 /\
   current_mark w = getMarksCount (index_granularity w)) \/
  (current_mark w + 1 = getMarksCount (index_granularity w) /\
   exists m, getMarkRows (index_granularity w) (current_mark w) = Some m /\
     0 < ColumnsBuffer_size (columns_buffer w) < m).
Proof.
  intros w.
  apply (@write_leaves_less_than_a_mark plain_collaborators
           plain_column_size_nonneg plain_insertRangeFrom_size
           (two_columns true) 0 [[150; 150]; [30; 30]]%nat w);
    [reflexivity| |reflexivity|vm_compute; reflexivity].
  repeat constructor; cbn; lia.
Defined.

(** ** A plan that the blocks do not follow *)

Section PrecomputedPlan.
Import PlannerSpec.
Context {collaborators : Collaborators}.

Lemma walk_short_step R c : forall ms k cr cm m,
  Forall UInt64.in_range ms ->
  short_step ms (R - cr) k -> ms !! k = Some m ->
  walk ms false R cr cm c = Thrown (TooFewRows m (R - cr - rows_before ms k)).
Proof.
  induction ms as [|m0 rest IH]; intros k cr cm m Hms [Hk Hshort] Hm.
  - cbn [length] in Hk. lia.
  - inversion Hms as [|? ? Hm0 Hrest]; subst. unfold UInt64.in_range in Hm0.
    destruct k as [|k].
    + cbn in Hm. injection Hm as <-.
      assert (H0 : rows_before (m0 :: rest) 0 = 0) by reflexivity.
      assert (H1 : rows_before (m0 :: rest) 1 = m0).
      { rewrite rows_before_succ. change (rows_before rest 0) with 0. lia. }
      rewrite H0, H1 in Hshort. rewrite H0.
      cbn [walk]. destruct (Z.ltb_spec cr R); [|lia].
      destruct (Z.ltb_spec (R - cr) m0); [|lia].
      cbn [andb negb]. f_equal. f_equal. lia.
    + cbn in Hm. rewrite !rows_before_succ in Hshort.
      pose proof (rows_before_nonneg rest k Hrest) as Hnonneg.
      cbn [walk]. destruct (Z.ltb_spec cr R); [|lia].
      destruct (Z.ltb_spec (R - cr) m0); [lia|].
      cbn [andb]. rewrite Z.min_r by lia.
      rewrite (IH k (cr + m0) (cm + 1) m Hrest); [| |exact Hm].
      * cbn [outcome_map]. rewrite rows_before_succ. f_equal. f_equal. lia.
      * split; [cbn [length] in Hk; lia|]. lia.
Qed.

(** X12: a writer that was given its plan needs blocks that end on the
    plan's marks.  When the rows in the buffer reach the current mark and end
    inside a later mark, [write] throws the LOGICAL_ERROR of the planner; the
    buffer has been released by then, so its rows and those of the block are
    dropped, and nothing has been written. *)
Theorem write_misaligned_block_throws (block : Block) (w : Writer) (k : nat) (m : Z) :
  let rows := ColumnsBuffer_size (ColumnsBuffer_add (columns_buffer w) block) in
  let marks := drop (Z.to_nat (current_mark w)) (index_granularity w) in
  compute_granularity (settings w) = false ->
  plan_in_range (index_granularity w) ->
  0 <= current_mark w ->
  rows < UInt64.modulus ->
  (1 <= k)%nat -> short_step marks rows k -> marks !! k = Some m ->
  write block w
  = (with_columns_buffer [] w, Thrown (TooFewRows m (rows - rows_before marks k))).
Proof.
  intros rows marks Hcompute Hrange Hcur Hrows Hk Hshort Hm.
  pose proof Hrange as [Hig Hcount].
  assert (Hmarks : Forall UInt64.in_range marks) by (apply Forall_drop, Hig).
  assert (Hinside : current_mark w < getMarksCount (index_granularity w)).
  { destruct Hshort as [Hlen _]. subst marks. rewrite length_drop in Hlen.
    unfold getMarksCount. lia. }
  destruct marks as [|m0 rest] eqn:Heq; [destruct Hshort as [Hlen _]; cbn in Hlen; lia|].
  assert (Hfirst : getMarkRows (index_granularity w) (current_mark w) = Some m0).
  { replace (current_mark w) with (current_mark w + Z.of_nat 0) by lia.
    rewrite getMarkRows_drop by lia. fold marks. rewrite Heq. reflexivity. }
  assert (Hreach : m0 <= rows).
  { destruct Hshort as [_ [Hlow _]]. destruct k as [|k]; [lia|].
    rewrite rows_before_succ in Hlow.
    inversion Hmarks as [|? ? _ Hrest]; subst.
    pose proof (rows_before_nonneg rest k Hrest). lia. }
  rewrite (write_unfold_precomputed block w Hcompute). unfold write_buffered.
  cbn [with_columns_buffer index_granularity current_mark columns_buffer].
  rewrite Hfirst.
  change (Block_rows (ColumnsBuffer_add (columns_buffer w) block)) with rows.
  fold rows. destruct (Z.leb_spec m0 rows); [|lia].
  rewrite getGranulesToWrite_walk by (try assumption; lia).
  fold marks. rewrite Heq.
  rewrite (walk_short_step rows (getMarksCount (index_granularity w))
             (m0 :: rest) k 0 (current_mark w) m Hmarks).
  - rewrite Z.sub_0_r. reflexivity.
  - rewrite Z.sub_0_r. exact Hshort.
  - exact Hm.
Qed.

End PrecomputedPlan.

Lemma write_misaligned_block_throws_witness :
  @write plain_collaborators [150]%nat
    (@new_writer plain_collaborators one_column_precomputed [100; 100] 0)
  = (@new_writer plain_collaborators one_column_precomputed [100; 100] 0,
     Thrown (TooFewRows 100 50)).
Proof.
  apply (@write_misaligned_block_throws plain_collaborators [150]%nat
           (@new_writer plain_collaborators one_column_precomputed [100; 100] 0) 1%nat 100);
    [reflexivity|small_plan_in_range|cbn; lia|vm_compute; reflexivity|lia
    |split; [vm_compute; lia|vm_compute; split; reflexivity]
    |reflexivity].
Defined.

(** ** More on the checksums of the data and the marks file *)

Section ChecksumFacts.
Context {collaborators : Collaborators}.

Lemma files_update_lookup_ne name f (c : gmap string Checksum) other :
  name <> other -> files_update name f c !! other = c !! other.
Proof. intros Hne. unfold files_update. apply lookup_insert_ne, Hne. Qed.

Lemma files_update_is_Some_same name f (c : gmap string Checksum) :
  is_Some (files_update name f c !! name).
Proof. unfold files_update. rewrite lookup_insert_eq. eauto. Qed.

Lemma files_update_is_Some name f (c : gmap string Checksum) other :
  is_Some (c !! other) -> is_Some (files_update name f c !! other).
Proof.
  intros H. destruct (decide (name = other)) as [->|Hne].
  - apply files_update_is_Some_same.
  - rewrite files_update_lookup_ne by exact Hne. exact H.
Qed.

(** X13: [addToChecksums] creates or overwrites the entries of the data file
    and of the marks file, and leaves every other entry of the table as it
    was. *)
Theorem addToChecksums_frame (w : Writer) (checksums : gmap string Checksum) :
  let data_file_name := DATA_FILE_NAME_WITH_EXTENSION in
  let marks_file_name := String.append DATA_FILE_NAME (marks_file_extension (settings w)) in
  is_Some (addToChecksums w checksums !! data_file_name) /\
  is_Some (addToChecksums w checksums !! marks_file_name) /\
  forall other, other <> data_file_name -> other <> marks_file_name ->
    addToChecksums w checksums !! other = checksums !! other.
Proof.
  intros data_file_name marks_file_name. unfold addToChecksums.
  fold data_file_name marks_file_name.
  split; [|split].
  - destruct (marks_compressed (settings w));
      repeat (apply files_update_is_Some_same || apply files_update_is_Some).
  - apply files_update_is_Some_same.
  - intros other Hdata Hmarks.
    destruct (marks_compressed (settings w));
      rewrite !files_update_lookup_ne by congruence; reflexivity.
Qed.

Lemma UInt64_add_swap a x y :
  UInt64.add (UInt64.add a x) y = UInt64.add (UInt64.add a y) x.
Proof.
  unfold UInt64.add, UInt64.wrap. rewrite !Zplus_mod_idemp_l. f_equal. lia.
Qed.

Lemma fold_UInt64_add_Permutation (l1 l2 : list Z) :
  Permutation l1 l2 ->
  forall a, fold_left UInt64.add l1 a = fold_left UInt64.add l2 a.
Proof.
  induction 1 as [|x l1 l2 _ IH|x y l|l1 l2 l3 _ IH1 _ IH2]; intros a; cbn [fold_left].
  - reflexivity.
  - apply IH.
  - rewrite UInt64_add_swap. reflexivity.
  - rewrite IH1. apply IH2.
Qed.

Lemma files_update_same_but_hash name f1 f2 (c1 c2 : gmap string Checksum) :
  (forall e1 e2, same_but_hash e1 e2 -> same_but_hash (f1 e1) (f2 e2)) ->
  (forall n, same_but_hash (files_at c1 n) (files_at c2 n)) ->
  forall n, same_but_hash (files_at (files_update name f1 c1) n)
                          (files_at (files_update name f2 c2) n).
Proof.
  intros Hf Hc n. destruct (decide (name = n)) as [->|Hne].
  - rewrite !files_update_at. apply Hf, Hc.
  - rewrite !files_update_other by exact Hne. apply Hc.
Qed.

(** X14: the order in which the compressed streams are iterated shows in
    the hash of the uncompressed content only.  Two writers that differ in
    that order alone leave the same sizes, the same file hashes and the same
    flags in every entry of the table. *)
Theorem addToChecksums_sizes_any_order (w1 w2 : Writer) (checksums : gmap string Checksum) :
  Permutation (streams_by_codec (settings w1)) (streams_by_codec (settings w2)) ->
  marks_compressed (settings w1) = marks_compressed (settings w2) ->
  marks_file_extension (settings w1) = marks_file_extension (settings w2) ->
  sinks w1 = sinks w2 ->
  forall name,
    same_but_hash (files_at (addToChecksums w1 checksums) name)
                  (files_at (addToChecksums w2 checksums) name).
Proof.
  intros Hstreams Hcompressed Hext Hsinks.
  assert (Hsize :
    fst (fold_left (addStreamToChecksum (sinks w1)) (streams_by_codec (settings w1))
           (0, (0, 0)))
    = fst (fold_left (addStreamToChecksum (sinks w2)) (streams_by_codec (settings w2))
             (0, (0, 0)))).
  { rewrite !addStreams_fold. cbn [fst]. rewrite Hsinks.
    apply fold_UInt64_add_Permutation, Permutation_map, Hstreams. }
  unfold addToChecksums. rewrite Hsize, Hcompressed, Hext, Hsinks.
  destruct (marks_compressed (settings w2));
    repeat (apply files_update_same_but_hash;
            [intros e1 e2 (H1 & H2 & H3 & H4); unfold same_but_hash; cbn;
             repeat split; assumption || reflexivity|]);
    intros n; repeat split.
Qed.

End ChecksumFacts.

Lemma addToChecksums_frame_witness :
  @addToChecksums plain_collaborators
    (@new_writer plain_collaborators (two_columns true) [] 0)
    (<["primary.idx" := Checksum_zero]> ∅) !! "primary.idx"
  = Some Checksum_zero.
Proof.
  destruct (@addToChecksums_frame plain_collaborators
              (@new_writer plain_collaborators (two_columns true) [] 0)
              (<["primary.idx" := Checksum_zero]> ∅)) as (_ & _ & Hother).
  rewrite (Hother "primary.idx"); [reflexivity|discriminate|discriminate].
Defined.

Lemma addToChecksums_sizes_any_order_witness :
  same_but_hash
    (files_at (@addToChecksums plain_collaborators
                 (@new_writer plain_collaborators (two_columns true) [] 0) ∅) "data.bin")
    (files_at (@addToChecksums plain_collaborators
                 (@new_writer plain_collaborators two_columns_swapped [] 0) ∅) "data.bin").
Proof.
  apply (@addToChecksums_sizes_any_order plain_collaborators
           (@new_writer plain_collaborators (two_columns true) [] 0)
           (@new_writer plain_collaborators two_columns_swapped [] 0) ∅);
    [apply perm_swap|reflexivity|reflexivity|reflexivity].
Defined.

(** ** Finishing the data files *)

Section Finishing.
Context {collaborators : Collaborators}.

Lemma finishDataSerialization_seals sync w :
  finishDataSerialization sync w = run_seals (finish_order sync) w.
Proof.
  unfold finishDataSerialization, finish_order.
  destruct sync; cbn [when app run_seals]; unfold bind, ret;
    repeat match goal with
           | |- context [sinkOp ?op ?w0] =>
               destruct (sinkOp op w0) as [? [[]| |]]; try reflexivity
           end.
Qed.

(** X15: [finishDataSerialization] syncs the two files when asked to, then
    finalizes the data file and then the marks file.  When every call
    succeeds they are all made, in that order; the first call that fails is
    thrown at once and the calls after it are not made.  The plan, the cursor,
    the buffer and the marks written are left alone in either case. *)
Theorem finishDataSerialization_order (sync : bool) (w : Writer) :
  (forall s', seal_all (finish_order sync) (sinks w) = Some s' ->
     exists w', finishDataSerialization sync w = (w', Returned tt) /\
       trace w' = trace w ++ map Sink (finish_order sync) /\ sinks w' = s') /\
  (forall before op after s1,
     finish_order sync = before ++ op :: after ->
     seal_all before (sinks w) = Some s1 -> sink_op op s1 = None ->
     exists w', finishDataSerialization sync w = (w', Thrown (IOFault op)) /\
       trace w' = trace w ++ map Sink (before ++ [op])) /\
  same_plan w (fst (finishDataSerialization sync w)) /\
  mark_events (trace (fst (finishDataSerialization sync w))) = mark_events (trace w).
Proof.
  rewrite finishDataSerialization_seals.
  split; [|split; [|split]].
  - intros s' Hall. apply run_seals_ok, Hall.
  - intros before op after s1 Horder Hbefore Hop. rewrite Horder.
    apply (run_seals_first_failure before op after w s1 Hbefore Hop).
  - apply run_seals_frame.
  - apply run_seals_frame.
Qed.

(** X16: [finish] on a writer that has columns.  When the calls on the data
    files succeed, the primary index (when it is rewritten) and the skip
    indices are finished after them; when one of them fails, [finish] throws
    that failure and finishes neither index. *)
Theorem finish_data_then_indices (sync : bool) (w : Writer) :
  columns_list (settings w) <> [] ->
  (forall s', seal_all (finish_order sync) (sinks w) = Some s' ->
     exists w', finish sync w = (w', Returned tt) /\
       trace w' = trace w ++ map Sink (finish_order sync)
                  ++ indices_finish_events (settings w) sync /\
       sinks w' = s') /\
  (forall before op after s1,
     finish_order sync = before ++ op :: after ->
     seal_all before (sinks w) = Some s1 -> sink_op op s1 = None ->
     exists w', finish sync w = (w', Thrown (IOFault op)) /\
       trace w' = trace w ++ map Sink (before ++ [op])).
Proof.
  intros Hcolumns.
  assert (Hfinish : finish sync w
                    = match finishDataSerialization sync w with
                      | (w1, Returned _) =>
                          (call (SkipIndicesFinish sync) id
                             (if rewrite_primary_key (settings w)
                              then call (PrimaryIndexFinish sync) id w1 else w1),
                           Returned tt)
                      | failed => failed
                      end).
  { unfold finish, bind at 1, get. cbn beta iota.
    destruct (columns_list (settings w)) as [|name names]; [congruence|].
    unfold bind, when, modify, ret.
    destruct (finishDataSerialization sync w) as [w1 [[]| |]]; try reflexivity.
    destruct (rewrite_primary_key (settings w)); reflexivity. }
  rewrite Hfinish, finishDataSerialization_seals.
  split.
  - intros s' Hall.
    destruct (run_seals_ok (finish_order sync) w s' Hall) as (w1 & -> & Htrace & Hsinks).
    eexists. split; [reflexivity|]. unfold indices_finish_events.
    destruct (rewrite_primary_key (settings w)); cbn [call trace sinks id];
      rewrite Htrace, <- ?app_assoc; split; [reflexivity|exact Hsinks|reflexivity|exact Hsinks].
  - intros before op after s1 Horder Hbefore Hop. rewrite Horder.
    destruct (run_seals_first_failure before op after w s1 Hbefore Hop) as (w1 & -> & Htrace).
    exists w1. split; [reflexivity|exact Htrace].
Qed.

End Finishing.

Lemma finishDataSerialization_order_witness :
  let w := @new_writer plain_collaborators (two_columns true) [] 0 in
  exists w', @finishDataSerialization plain_collaborators true w = (w', Returned tt) /\
    trace w' = trace w ++ map Sink (finish_order true) /\ sinks w' = 0.
Proof.
  intros w.
  destruct (@finishDataSerialization_order plain_collaborators true w) as (Hok & _).
  apply Hok. reflexivity.
Defined.

Lemma finish_data_then_indices_witness :
  let w := @new_writer plain_collaborators (two_columns true) [] 0 in
  exists w', @finish plain_collaborators true w = (w', Returned tt) /\
    trace w' = trace w ++ map Sink (finish_order true)
               ++ indices_finish_events (settings w) true /\
    sinks w' = 0.
Proof.
  intros w.
  destruct (@finish_data_then_indices plain_collaborators true w) as (Hok & _);
    [discriminate|].
  apply Hok. reflexivity.
Defined.

(** ** [fillDataChecksums] as a whole *)

Section DataChecksums.
Context {collaborators : Collaborators}.

Lemma fillDataChecksums_unfold checksums w :
  fillDataChecksums checksums w
  = match flushColumnsBuffer w with
    | (w1, Returned _) =>
        match run_seals (seal_order (settings (writeFinalMark w1))) (writeFinalMark w1) with
        | (w3, Returned _) =>
            match run_seals [PreFinalize PlainFile; PreFinalize MarksFile] w3 with
            | (w4, Returned _) => (w4, Returned (addToChecksums w3 checksums))
            | (w4, Thrown e) => (w4, Thrown e)
            | (w4, OutOfFuel) => (w4, OutOfFuel)
            end
        | (w3, Thrown e) => (w3, Thrown e)
        | (w3, OutOfFuel) => (w3, OutOfFuel)
        end
    | (w1, Thrown e) => (w1, Thrown e)
    | (w1, OutOfFuel) => (w1, OutOfFuel)
    end.
Proof.
  unfold fillDataChecksums. unfold bind at 1.
  destruct (flushColumnsBuffer w) as [w1 [[]| |]]; try reflexivity.
  unfold bind at 1. cbn [modify]. unfold bind at 1.
  rewrite finalizeStreams_seals.
  destruct (run_seals _ (writeFinalMark w1)) as [w3 [[]| |]]; try reflexivity.
  cbn [run_seals]. unfold bind, get, ret.
  repeat match goal with
         | |- context [sinkOp ?op ?w0] =>
             destruct (sinkOp op w0) as [? [[]| |]]; try reflexivity
         end.
Qed.

Lemma writeColumns_no_sink block g : forall columns w,
  exists data,
    trace (fold_left (writeColumnInGranule block g) columns w) = trace w ++ data /\
    Forall (fun e => is_sink e = false) data.
Proof.
  induction columns as [|name columns IH]; intros w; cbn [fold_left].
  - exists []. split; [symmetry; apply app_nil_r|constructor].
  - destruct (IH (writeColumnInGranule block g w name)) as (data & -> & Hdata).
    rewrite writeColumnInGranule_trace, <- app_assoc.
    eexists. split; [reflexivity|].
    repeat (apply List.Forall_cons; [reflexivity|]). exact Hdata.
Qed.

Lemma writeDataBlock_no_sink block : forall gs w,
  exists data,
    trace (writeDataBlock block gs w) = trace w ++ data /\
    Forall (fun e => is_sink e = false) data.
Proof.
  unfold writeDataBlock.
  induction gs as [|g gs IH]; intros w; cbn [fold_left].
  - exists []. split; [symmetry; apply app_nil_r|constructor].
  - destruct (IH (writeGranule block w g)) as (data & -> & Hdata).
    unfold writeGranule. cbn [call trace].
    destruct (writeColumns_no_sink block g (columns_list (settings (with_data_written true w)))
                (with_data_written true w)) as (columns & -> & Hcolumns).
    cbn [with_data_written trace]. rewrite <- !app_assoc.
    eexists. split; [reflexivity|].
    apply Forall_app. split; [exact Hcolumns|].
    apply List.Forall_cons; [reflexivity|exact Hdata].
Qed.

Lemma flushColumnsBuffer_frame w :
  let w1 := fst (flushColumnsBuffer w) in
  settings w1 = settings w /\ current_mark w1 = current_mark w /\
  ColumnsBuffer_size (columns_buffer w1) = 0 /\
  exists data, trace w1 = trace w ++ data /\ Forall (fun e => is_sink e = false) data.
Proof.
  rewrite flushColumnsBuffer_unfold.
  destruct (Z.eqb_spec (ColumnsBuffer_size (columns_buffer w)) 0) as [Hzero|_].
  - cbn [fst]. repeat split; try assumption.
    exists []. split; [symmetry; apply app_nil_r|constructor].
  - destruct (getGranulesToWrite _ _ _ _) as [gs| |]; cbn [fst];
      try (repeat split; exists []; split; [symmetry; apply app_nil_r|constructor]).
    set (w0 := with_index_granularity _ _).
    unfold writeDataBlockPrimaryIndexAndSkipIndices.
    destruct (writeDataBlock_spec (columns_buffer w) gs w0) as ((Hs & _ & Hcm & Hbuf) & _).
    destruct (writeDataBlock_no_sink (columns_buffer w) gs w0) as (data & Htrace & Hdata).
    set (w1 := writeDataBlock (columns_buffer w) gs w0) in *.
    destruct (rewrite_primary_key (settings w1));
      cbn [call settings current_mark columns_buffer trace];
      rewrite Hs, Hcm, Hbuf, Htrace, <- ?app_assoc;
      (repeat split; eexists; split; [reflexivity|]);
      apply Forall_app; (split; [exact Hdata|]);
      repeat (apply List.Forall_cons; [reflexivity|]); constructor.
Qed.

Lemma writeFinalMark_no_sink w :
  exists data,
    trace (writeFinalMark w) = trace w ++ data /\
    Forall (fun e => is_sink e = false) data.
Proof.
  unfold writeFinalMark.
  destruct (with_final_mark (settings w) && data_written w).
  - assert (H : forall (columns : list string) w0, exists data,
              trace (fold_left
                       (fun w (_ : string) =>
                          call (MarkRecord (buffer_count PlainHashing (sinks w)) 0)
                            (fun s => write_mark_field 0
                                        (write_mark_field (buffer_count PlainHashing (sinks w)) s))
                            w) columns w0) = trace w0 ++ data /\
              Forall (fun e => is_sink e = false) data).
    { induction columns as [|name columns IH]; intros w0; cbn [fold_left].
      - exists []. split; [symmetry; apply app_nil_r|constructor].
      - destruct (IH (call (MarkRecord (buffer_count PlainHashing (sinks w0)) 0)
                        (fun s => write_mark_field 0
                                    (write_mark_field (buffer_count PlainHashing (sinks w0)) s))
                        w0)) as (data & -> & Hdata).
        cbn [call trace]. rewrite <- app_assoc.
        eexists. split; [reflexivity|]. apply List.Forall_cons; [reflexivity|exact Hdata]. }
    destruct (H (columns_list (settings w)) w) as (data & Htrace & Hdata).
    cbn [call trace]. rewrite Htrace, <- app_assoc.
    eexists. split; [reflexivity|].
    apply Forall_app. split; [exact Hdata|]. apply List.Forall_cons; [reflexivity|constructor].
  - exists []. split; [symmetry; apply app_nil_r|constructor].
Qed.

Lemma run_seals_prefix : forall ops w,
  exists made,
    trace (fst (run_seals ops w)) = trace w ++ map Sink made /\
    made `prefix_of` ops /\
    (snd (run_seals ops w) = Returned tt -> made = ops).
Proof.
  induction ops as [|op ops IH]; intros w; cbn [run_seals].
  - exists []. split; [symmetry; apply app_nil_r|]. split; [reflexivity|reflexivity].
  - unfold sinkOp. destruct (sink_op op (sinks w)) as [s|].
    + destruct (IH (call (Sink op) (fun _ => s) w)) as (made & Htrace & Hprefix & Hall).
      exists (op :: made). rewrite Htrace. cbn [call trace map]. rewrite <- app_assoc.
      split; [reflexivity|]. split; [apply prefix_cons, Hprefix|].
      intros Hreturned. rewrite (Hall Hreturned). reflexivity.
    + exists [op]. cbn [fst snd call trace map].
      split; [reflexivity|]. split; [apply prefix_cons, prefix_nil|discriminate].
Qed.

(** X17: whatever [fillDataChecksums] meets, it leaves no rows in the buffer
    and it does not move the mark cursor, although the final flush may have
    written granules. *)
Theorem fillDataChecksums_leaves_cursor (checksums : gmap string Checksum) (w : Writer) :
  let w' := fst (fillDataChecksums checksums w) in
  settings w' = settings w /\
  current_mark w' = current_mark w /\
  ColumnsBuffer_size (columns_buffer w') = 0.
Proof.
  rewrite fillDataChecksums_unfold.
  destruct (flushColumnsBuffer_frame w) as (Hs & Hcm & Hbuf & _).
  destruct (flushColumnsBuffer w) as [w1 [[]| |]]; cbn [fst] in *;
    try (repeat split; assumption).
  destruct (writeFinalMark_spec w1) as ((Hs2 & _ & Hcm2 & Hbuf2) & _).
  set (w2 := writeFinalMark w1) in *.
  destruct (run_seals_frame (seal_order (settings w2)) w2) as ((Hs3 & _ & Hcm3 & Hbuf3) & _).
  destruct (run_seals (seal_order (settings w2)) w2) as [w3 [[]| |]]; cbn [fst] in *;
    try (rewrite Hs3, Hcm3, Hbuf3, Hs2, Hcm2, Hbuf2; repeat split; assumption).
  destruct (run_seals_frame [PreFinalize PlainFile; PreFinalize MarksFile] w3)
    as ((Hs4 & _ & Hcm4 & Hbuf4) & _).
  destruct (run_seals [PreFinalize PlainFile; PreFinalize MarksFile] w3) as [w4 [[]| |]];
    cbn [fst] in *;
    rewrite Hs4, Hcm4, Hbuf4, Hs3, Hcm3, Hbuf3, Hs2, Hcm2, Hbuf2; repeat split; assumption.
Qed.

(** X18: [fillDataChecksums] writes before it seals.  What it adds to the
    trace is first the calls that write granules, marks and index entries and
    then sealing calls only; the sealing calls made are an initial part of the
    fixed order, and all of it when the function returns. *)
Theorem fillDataChecksums_writes_before_seals (checksums : gmap string Checksum)
    (w : Writer) :
  let result := fillDataChecksums checksums w in
  exists data seals,
    trace (fst result) = trace w ++ data ++ map Sink seals /\
    Forall (fun e => is_sink e = false) data /\
    seals `prefix_of` data_seal_order (settings w) /\
    ((exists c, snd result = Returned c) -> seals = data_seal_order (settings w)).
Proof.
  cbn zeta. rewrite fillDataChecksums_unfold.
  destruct (flushColumnsBuffer_frame w) as (Hs & _ & _ & data1 & Htrace1 & Hdata1).
  destruct (flushColumnsBuffer w) as [w1 [[]| |]]; cbn [fst snd] in *;
    try (exists data1, []; cbn [map]; rewrite app_nil_r;
         split; [exact Htrace1|]; split; [exact Hdata1|];
         split; [apply prefix_nil|intros [c Hc]; discriminate]).
  destruct (writeFinalMark_spec w1) as ((Hs2 & _) & _).
  destruct (writeFinalMark_no_sink w1) as (data2 & Htrace2 & Hdata2).
  set (w2 := writeFinalMark w1) in *.
  assert (Hdata : Forall (fun e => is_sink e = false) (data1 ++ data2))
    by (apply Forall_app; split; assumption).
  assert (Htrace : trace w2 = trace w ++ data1 ++ data2)
    by (rewrite Htrace2, Htrace1, app_assoc; reflexivity).
  rewrite Hs2, Hs. unfold data_seal_order.
  destruct (run_seals_prefix (seal_order (settings w)) w2) as (made & Hmade & Hprefix & Hall).
  destruct (run_seals (seal_order (settings w)) w2) as [w3 [[]| |]]; cbn [fst snd] in *;
    try (exists (data1 ++ data2), made; rewrite Hmade, Htrace, <- app_assoc;
         split; [reflexivity|]; split; [exact Hdata|];
         split; [apply prefix_app_r, Hprefix|intros [c Hc]; discriminate]).
  rewrite (Hall eq_refl) in Hmade.
  destruct (run_seals_prefix [PreFinalize PlainFile; PreFinalize MarksFile] w3)
    as (made' & Hmade' & Hprefix' & Hall').
  exists (data1 ++ data2), (seal_order (settings w) ++ made').
  assert (Hfinal : trace (fst (run_seals [PreFinalize PlainFile; PreFinalize MarksFile] w3))
                   = trace w ++ (data1 ++ data2)
                     ++ map Sink (seal_order (settings w) ++ made')).
  { rewrite Hmade', Hmade, Htrace, map_app, <- !app_assoc. reflexivity. }
  destruct (run_seals [PreFinalize PlainFile; PreFinalize MarksFile] w3) as [w4 [[]| |]];
    cbn [fst snd] in *;
    (split; [exact Hfinal|]; split; [exact Hdata|];
     split; [apply prefix_app, Hprefix'|]).
  - intros _. rewrite (Hall' eq_refl). reflexivity.
  - intros [c Hc]. discriminate.
  - intros [c Hc]. discriminate.
Qed.

End DataChecksums.

(** ** The compressed streams of the constructor *)

Section StreamPoolFacts.
Import StreamPool.
Context {serializations : Serializations}.

Lemma emplaceStream_consistent pool name codec :
  consistent pool -> compressed_streams pool !! name = None ->
  consistent (emplaceStream pool name codec).
Proof.
  intros (Hnames & Hstreams & Hcodecs & Hused) Hnew. unfold emplaceStream.
  destruct (streams_by_codec pool !! getHash codec) as [stream|] eqn:Hid;
    unfold consistent; cbn [streams streams_by_codec compressed_streams].
  - split; [|split; [exact Hstreams|split; [exact Hcodecs|]]].
    + intros n s Hn. destruct (decide (name = n)) as [->|Hne].
      * rewrite lookup_insert_eq in Hn. injection Hn as <-.
        destruct (Hcodecs _ _ Hid) as (c & Hc & _).
        apply lookup_lt_Some in Hc. exact Hc.
      * rewrite lookup_insert_ne in Hn by exact Hne. eapply Hnames, Hn.
    + intros s Hs. destruct (Hused s Hs) as (n & Hn). exists n.
      rewrite lookup_insert_ne; [exact Hn|]. intros ->. congruence.
  - split; [|split; [|split]].
    + intros n s Hn. rewrite length_app. cbn [length].
      destruct (decide (name = n)) as [->|Hne].
      * rewrite lookup_insert_eq in Hn. injection Hn as <-. lia.
      * rewrite lookup_insert_ne in Hn by exact Hne.
        pose proof (Hnames _ _ Hn). lia.
    + intros s c Hs. destruct (decide (s < length (streams pool))%nat) as [Hlt|Hge].
      * rewrite lookup_app_l in Hs by exact Hlt.
        pose proof (Hstreams _ _ Hs) as Hreg.
        rewrite lookup_insert_ne; [exact Hreg|]. intros Heq. congruence.
      * rewrite lookup_app_r in Hs by lia.
        destruct (s - length (streams pool))%nat as [|k] eqn:Hk; [|destruct k; discriminate].
        cbn in Hs. injection Hs as <-.
        assert (s = length (streams pool)) as -> by lia.
        apply lookup_insert_eq.
    + intros id s Hs. destruct (decide (getHash codec = id)) as [<-|Hne].
      * rewrite lookup_insert_eq in Hs. injection Hs as <-.
        exists codec. split; [|reflexivity].
        rewrite lookup_app_r by lia. rewrite Nat.sub_diag. reflexivity.
      * rewrite lookup_insert_ne in Hs by exact Hne.
        destruct (Hcodecs _ _ Hs) as (c & Hc & Hhash). exists c. split; [|exact Hhash].
        rewrite lookup_app_l; [exact Hc|]. apply lookup_lt_Some in Hc. exact Hc.
    + intros s Hs. rewrite length_app in Hs. cbn [length] in Hs.
      destruct (decide (s = length (streams pool))) as [->|Hne].
      * exists name. apply lookup_insert_eq.
      * destruct (Hused s ltac:(lia)) as (n & Hn). exists n.
        rewrite lookup_insert_ne; [exact Hn|]. intros ->. congruence.
Qed.

Lemma registerStream_consistent pool request :
  consistent pool -> consistent (registerStream pool request).
Proof.
  intros Hpool. unfold registerStream.
  destruct (compressed_streams pool !! request.1) eqn:Hname; [exact Hpool|].
  apply emplaceStream_consistent; assumption.
Qed.

Lemma registerStream_keeps pool request name stream codec :
  compressed_streams pool !! name = Some stream ->
  streams pool !! stream = Some codec ->
  compressed_streams (registerStream pool request) !! name = Some stream /\
  streams (registerStream pool request) !! stream = Some codec.
Proof.
  intros Hname Hstream. unfold registerStream.
  destruct (compressed_streams pool !! request.1) eqn:Hnew; [split; assumption|].
  assert (Hne : request.1 <> name) by congruence.
  unfold emplaceStream.
  destruct (streams_by_codec pool !! getHash request.2);
    cbn [streams compressed_streams]; rewrite lookup_insert_ne by exact Hne.
  - split; assumption.
  - split; [exact Hname|]. rewrite lookup_app_l; [exact Hstream|].
    apply lookup_lt_Some in Hstream. exact Hstream.
Qed.

Lemma registerStream_other pool request name :
  request.1 <> name ->
  compressed_streams (registerStream pool request) !! name
  = compressed_streams pool !! name.
Proof.
  intros Hne. unfold registerStream.
  destruct (compressed_streams pool !! request.1); [reflexivity|].
  unfold emplaceStream.
  destruct (streams_by_codec pool !! getHash request.2);
    cbn [compressed_streams]; apply lookup_insert_ne, Hne.
Qed.

Lemma registerStream_binds pool request :
  consistent pool -> compressed_streams pool !! request.1 = None ->
  exists stream codec,
    compressed_streams (registerStream pool request) !! request.1 = Some stream /\
    streams (registerStream pool request) !! stream = Some codec /\
    getHash codec = getHash request.2.
Proof.
  intros (_ & _ & Hcodecs & _) Hnew. unfold registerStream. rewrite Hnew.
  unfold emplaceStream.
  destruct (streams_by_codec pool !! getHash request.2) as [stream|] eqn:Hid;
    cbn [streams compressed_streams]; rewrite lookup_insert_eq.
  - destruct (Hcodecs _ _ Hid) as (codec & Hcodec & Hhash).
    exists stream, codec. repeat split; assumption.
  - exists (length (streams pool)), request.2. split; [reflexivity|].
    split; [|reflexivity]. rewrite lookup_app_r by lia. rewrite Nat.sub_diag. reflexivity.
Qed.

Lemma registerStreams_consistent : forall reqs pool,
  consistent pool -> consistent (fold_left registerStream reqs pool).
Proof.
  induction reqs as [|request rest IH]; intros pool Hpool; cbn [fold_left].
  - exact Hpool.
  - apply IH, registerStream_consistent, Hpool.
Qed.

Lemma registerStreams_keep : forall reqs pool name stream codec,
  compressed_streams pool !! name = Some stream ->
  streams pool !! stream = Some codec ->
  compressed_streams (fold_left registerStream reqs pool) !! name = Some stream /\
  streams (fold_left registerStream reqs pool) !! stream = Some codec.
Proof.
  induction reqs as [|request rest IH]; intros pool name stream codec Hname Hstream;
    cbn [fold_left].
  - split; assumption.
  - destruct (registerStream_keeps pool request name stream codec Hname Hstream).
    apply IH; assumption.
Qed.

Lemma registerStreams_others : forall reqs pool name,
  (forall request, In request reqs -> request.1 <> name) ->
  compressed_streams (fold_left registerStream reqs pool) !! name
  = compressed_streams pool !! name.
Proof.
  induction reqs as [|request rest IH]; intros pool name Hother; cbn [fold_left].
  - reflexivity.
  - rewrite IH by (intros r Hr; apply Hother; right; exact Hr).
    apply registerStream_other, Hother. left. reflexivity.
Qed.

Lemma addStreams_requests column desc pool :
  addStreams column desc pool
  = fold_left registerStream
      (map (fun substream_path =>
              (getFileNameForStream column substream_path,
               compression_codec_for desc substream_path))
           (enumerateStreams column))
      pool.
Proof.
  unfold addStreams. generalize (enumerateStreams column) pool.
  induction l as [|path paths IH]; intros pool0; cbn [fold_left map]; [reflexivity|].
  rewrite IH. reflexivity.
Qed.

Lemma construct_requests : forall columns pool,
  fold_left (fun pool column => addStreams column (column_compression column) pool)
            columns pool
  = fold_left registerStream (requests columns) pool.
Proof.
  induction columns as [|column rest IH]; intros pool; cbn [fold_left]; [reflexivity|].
  unfold requests. cbn [flat_map]. rewrite fold_left_app, <- addStreams_requests.
  apply IH.
Qed.

Lemma empty_consistent : consistent StreamPool.empty.
Proof.
  unfold consistent. cbn [StreamPool.empty streams streams_by_codec compressed_streams length].
  repeat split; intros; try lia;
    match goal with H : _ !! _ = Some _ |- _ => rewrite ?lookup_empty in H; discriminate end.
Qed.

Lemma construct_consistent columns_list : consistent (construct columns_list).
Proof.
  unfold construct. rewrite construct_requests.
  apply registerStreams_consistent, empty_consistent.
Qed.

(** X20: the streams the constructor leaves.  Every file name points to a
    stream that is registered in [streams_by_codec] under the hash of its
    codec, so the loops over [streams_by_codec] reach every stream that is
    written to; every registered stream has a file name; and no stream is
    registered under two codec ids. *)
Theorem construct_streams_registered (columns_list : list NameAndTypePair) :
  let pool := construct columns_list in
  (forall name stream, compressed_streams pool !! name = Some stream ->
     exists codec, streams pool !! stream = Some codec /\
       streams_by_codec pool !! getHash codec = Some stream) /\
  (forall codec_id stream, streams_by_codec pool !! codec_id = Some stream ->
     exists codec name, streams pool !! stream = Some codec /\
       getHash codec = codec_id /\ compressed_streams pool !! name = Some stream) /\
  (forall codec_id codec_id' stream,
     streams_by_codec pool !! codec_id = Some stream ->
     streams_by_codec pool !! codec_id' = Some stream -> codec_id = codec_id').
Proof.
  intros pool.
  destruct (construct_consistent columns_list) as (Hnames & Hstreams & Hcodecs & Hused).
  fold pool in Hnames, Hstreams, Hcodecs, Hused.
  split; [|split].
  - intros name stream Hname.
    destruct (lookup_lt_is_Some_2 _ _ (Hnames _ _ Hname)) as [codec Hcodec].
    exists codec. split; [exact Hcodec|apply Hstreams, Hcodec].
  - intros codec_id stream Hid.
    destruct (Hcodecs _ _ Hid) as (codec & Hcodec & Hhash).
    destruct (Hused stream) as (name & Hname); [apply lookup_lt_Some in Hcodec; exact Hcodec|].
    exists codec, name. repeat split; assumption.
  - intros id id' stream Hid Hid'.
    destruct (Hcodecs _ _ Hid) as (codec & Hcodec & Hhash).
    destruct (Hcodecs _ _ Hid') as (codec' & Hcodec' & Hhash').
    congruence.
Qed.

Lemma construct_binds_first_request (columns_list : list NameAndTypePair)
    (before after : list (string * CompressionCodec)) (name : string)
    (codec : CompressionCodec) :
  requests columns_list = before ++ (name, codec) :: after ->
  (forall request, In request before -> request.1 <> name) ->
  exists stream codec',
    compressed_streams (construct columns_list) !! name = Some stream /\
    streams (construct columns_list) !! stream = Some codec' /\
    getHash codec' = getHash codec.
Proof.
  intros Hrequests Hfirst. unfold construct.
  rewrite construct_requests, Hrequests, fold_left_app. cbn [fold_left].
  set (pool := fold_left registerStream before StreamPool.empty).
  assert (Hpool : consistent pool)
    by (apply registerStreams_consistent, empty_consistent).
  assert (Hnew : compressed_streams pool !! name = None).
  { unfold pool. rewrite registerStreams_others by exact Hfirst. apply lookup_empty. }
  destruct (registerStream_binds pool (name, codec) Hpool Hnew)
    as (stream & codec' & Hname & Hstream & Hhash).
  cbn [fst snd] in Hname, Hhash.
  destruct (registerStreams_keep after _ name stream codec' Hname Hstream) as [H1 H2].
  exists stream, codec'. repeat split; assumption.
Qed.

(** X21: a file that is asked for twice, as the offsets that the columns of
    a nested structure share, keeps the stream of the first request.  The
    stream of a file name was made for a codec with the hash of the codec
    chosen at the first request for that name. *)
Theorem construct_first_request_wins (columns_list : list NameAndTypePair)
    (before after : list (string * CompressionCodec)) (name : string)
    (codec : CompressionCodec) :
  requests columns_list = before ++ (name, codec) :: after ->
  (forall request, In request before -> request.1 <> name) ->
  exists stream codec',
    compressed_streams (construct columns_list) !! name = Some stream /\
    streams (construct columns_list) !! stream = Some codec' /\
    getHash codec' = getHash codec.
Proof. apply construct_binds_first_request. Qed.

Lemma construct_binds_substreams (columns_list : list NameAndTypePair)
    (column : NameAndTypePair) (substream_path : SubstreamPath) :
  In column columns_list -> In substream_path (enumerateStreams column) ->
  is_Some (compressed_streams (construct columns_list)
             !! getFileNameForStream column substream_path).
Proof.
  intros Hcolumn Hpath.
  set (name := getFileNameForStream column substream_path).
  assert (Hin : exists codec, In (name, codec) (requests columns_list)).
  { exists (compression_codec_for (column_compression column) substream_path).
    unfold requests. apply in_flat_map. exists column. split; [exact Hcolumn|].
    apply in_map_iff. exists substream_path. split; [reflexivity|exact Hpath]. }
  destruct Hin as (codec & Hin).
  assert (Hfirst : exists before after codec0,
            requests columns_list = before ++ (name, codec0) :: after /\
            forall request, In request before -> request.1 <> name).
  { revert Hin. generalize (requests columns_list).
    induction l as [|[n c] rest IH]; intros Hin; [destruct Hin|].
    destruct (decide (n = name)) as [->|Hne].
    - exists [], rest, c. split; [reflexivity|]. intros r [].
    - destruct Hin as [[= Heq _]|Hin]; [congruence|].
      destruct (IH Hin) as (before & after & c0 & -> & Hbefore).
      exists ((n, c) :: before), after, c0. split; [reflexivity|].
      intros r [<-|Hr]; [exact Hne|apply Hbefore, Hr]. }
  destruct Hfirst as (before & after & codec0 & Hrequests & Hbefore).
  destruct (construct_binds_first_request columns_list before after name codec0
              Hrequests Hbefore) as (stream & _ & Hname & _).
  exists stream. exact Hname.
Qed.

(** X22: after the constructor every substream of every listed column has a
    stream. *)
Theorem construct_covers_substreams (columns_list : list NameAndTypePair)
    (column : NameAndTypePair) (substream_path : SubstreamPath) :
  In column columns_list -> In substream_path (enumerateStreams column) ->
  is_Some (compressed_streams (construct columns_list)
             !! getFileNameForStream column substream_path).
Proof. apply construct_binds_substreams. Qed.

(** *** The stream getter *)

Lemma open_stream_app : forall events events' open,
  open_stream open (events ++ events')
  = match open_stream open events with
    | Some open' => open_stream open' events'
    | None => None
    end.
Proof.
  induction events as [|[stream|stream] events IH]; intros events' open; cbn [app open_stream].
  - reflexivity.
  - destruct open as [other|]; [destruct (decide (other = stream))|]; auto.
  - destruct open as [other|]; [destruct (decide (other = stream))|]; auto.
Qed.

Lemma stream_getter_open pool column prev_stream substream_path last_stream events :
  stream_getter pool column prev_stream substream_path = Some (last_stream, events) ->
  open_stream prev_stream events = Some last_stream /\ is_Some last_stream.
Proof.
  unfold stream_getter.
  destruct (compressed_streams pool !! _) as [result_stream|]; [|discriminate].
  intros [= <- <-]. split; [|eauto].
  destruct prev_stream as [prev|]; cbn [app open_stream].
  - destruct (decide (prev = result_stream)) as [->|Hne]; cbn [app open_stream].
    + destruct (decide (result_stream = result_stream)); [reflexivity|congruence].
    + destruct (decide (prev = prev)); [reflexivity|congruence].
  - reflexivity.
Qed.

Lemma stream_getter_calls_open pool column : forall substream_paths prev_stream last_stream events,
  stream_getter_calls pool column prev_stream substream_paths = Some (last_stream, events) ->
  open_stream prev_stream events = Some last_stream /\
  (substream_paths <> [] -> is_Some last_stream).
Proof.
  induction substream_paths as [|path paths IH]; intros prev last events;
    cbn [stream_getter_calls].
  - intros [= <- <-]. split; [reflexivity|congruence].
  - destruct (stream_getter pool column prev path) as [[prev' events1]|] eqn:Hgetter;
      [|discriminate].
    destruct (stream_getter_calls pool column prev' paths) as [[last' events2]|] eqn:Hcalls;
      [|discriminate].
    intros [= <- <-].
    destruct (stream_getter_open _ _ _ _ _ _ Hgetter) as [Hopen1 Hsome].
    destruct (IH _ _ _ Hcalls) as [Hopen2 Hlast].
    rewrite open_stream_app, Hopen1. split; [exact Hopen2|]. intros _.
    destruct paths as [|path' paths'].
    + cbn in Hcalls. injection Hcalls as <- _. exact Hsome.
    + apply Hlast. discriminate.
Qed.

Lemma stream_getter_calls_bound pool column : forall substream_paths prev_stream,
  is_Some (stream_getter_calls pool column prev_stream substream_paths) <->
  Forall (fun substream_path =>
            is_Some (compressed_streams pool
                       !! getFileNameForStream column substream_path))
         substream_paths.
Proof.
  induction substream_paths as [|path paths IH]; intros prev; cbn [stream_getter_calls].
  - split; [constructor|eauto].
  - unfold stream_getter.
    destruct (compressed_streams pool !! getFileNameForStream column path)
      as [result_stream|] eqn:Hname.
    + specialize (IH (Some result_stream)).
      destruct (stream_getter_calls pool column (Some result_stream) paths) as [[last events]|].
      * split; [|eauto]. intros _. apply List.Forall_cons; [eauto|]. apply IH. eauto.
      * split.
        -- intros [? [=]].
        -- intros Hall. inversion Hall as [|? ? _ Hrest]; subst.
           apply IH in Hrest. destruct Hrest as [? [=]].
    + split.
      * intros [? [=]].
      * intros Hall. inversion Hall as [|? ? [? Hbound] _]; subst. congruence.
Qed.

Lemma writeColumnStreams_open pool column substream_paths events :
  writeColumnStreams pool column substream_paths = Some events ->
  open_stream None events = Some None.
Proof.
  unfold writeColumnStreams.
  destruct (stream_getter_calls pool column None substream_paths)
    as [[[prev|] events0]|] eqn:Hcalls; try discriminate.
  intros [= <-].
  destruct (stream_getter_calls_open _ _ _ _ _ _ Hcalls) as [Hopen _].
  rewrite open_stream_app, Hopen. cbn [open_stream].
  destruct (decide (prev = prev)); [reflexivity|congruence].
Qed.

Lemma writeColumnStreams_is_Some pool column substream_paths :
  is_Some (writeColumnStreams pool column substream_paths) <->
  substream_paths <> [] /\
  Forall (fun substream_path =>
            is_Some (compressed_streams pool
                       !! getFileNameForStream column substream_path))
         substream_paths.
Proof.
  unfold writeColumnStreams.
  pose proof (stream_getter_calls_bound pool column substream_paths None) as Hbound.
  destruct (stream_getter_calls pool column None substream_paths)
    as [[last events]|] eqn:Hcalls.
  - destruct (stream_getter_calls_open _ _ _ _ _ _ Hcalls) as [_ Hlast].
    destruct last as [prev|].
    + split; [|eauto]. intros _. split; [|apply Hbound; eauto].
      intros ->. cbn in Hcalls. discriminate.
    + split; [intros [? [=]]|]. intros [Hne _]. destruct (Hlast Hne) as [? [=]].
  - split; [intros [? [=]]|]. intros [_ Hall]. apply Hbound in Hall.
    destruct Hall as [? [=]].
Qed.

(** X23: the getter keeps one stream open at a time.  Along the calls made
    for one column of one granule a stream is handed out only when no other
    stream has been handed out and not flushed since, only the stream handed
    out last is flushed, and after the column no stream is left unflushed. *)
Theorem writeColumnStreams_one_stream_open (pool : StreamPool.t)
    (column : NameAndTypePair) (substream_paths : list SubstreamPath)
    (events : list StreamEvent) :
  writeColumnStreams pool column substream_paths = Some events ->
  open_stream None events = Some None.
Proof. apply writeColumnStreams_open. Qed.

(** X24: writing a column through the getter goes wrong in two cases only:
    the serialization asks for no stream at all, so that the call of [next()]
    after the column has no stream, or it asks for a file that has no stream. *)
Theorem writeColumnStreams_faults (pool : StreamPool.t) (column : NameAndTypePair)
    (substream_paths : list SubstreamPath) :
  writeColumnStreams pool column substream_paths = None <->
  substream_paths = [] \/
  exists substream_path, In substream_path substream_paths /\
    compressed_streams pool !! getFileNameForStream column substream_path = None.
Proof.
  pose proof (writeColumnStreams_is_Some pool column substream_paths) as Hsome.
  split.
  - intros Hnone.
    destruct substream_paths as [|path paths]; [left; reflexivity|right].
    assert (Hnot : ~ Forall (fun substream_path =>
                      is_Some (compressed_streams pool
                                 !! getFileNameForStream column substream_path))
                     (path :: paths)).
    { intros Hall. destruct Hsome as [_ Hsome].
      destruct Hsome as [? Hsome]; [split; [discriminate|exact Hall]|]. congruence. }
    apply not_Forall_Exists in Hnot; [|intros x; apply _].
    apply Exists_exists in Hnot. destruct Hnot as (x & Hx & Hunbound).
    exists x. split; [apply list_elem_of_In, Hx|].
    destruct (compressed_streams pool !! getFileNameForStream column x) as [stream|] eqn:Hname;
      [|reflexivity].
    exfalso. apply Hunbound. rewrite Hname. eauto.
  - intros Hcase.
    destruct (writeColumnStreams pool column substream_paths) eqn:Hwrite; [|reflexivity].
    destruct Hsome as [Hsome _]. destruct Hsome as [Hne Hall]; [eauto|].
    destruct Hcase as [->|(x & Hx & Hunbound)]; [congruence|].
    rewrite List.Forall_forall in Hall. destruct (Hall x Hx) as [? Hbound]. congruence.
Qed.

(** X25: the constructor and the getter fit.  For a listed column and a
    serialization that asks for at least one stream and only for substreams
    that it enumerated to [addStreams], writing the column through the getter
    goes through and leaves no stream unflushed. *)
Theorem writeColumnStreams_after_construct (columns_list : list NameAndTypePair)
    (column : NameAndTypePair) (substream_paths : list SubstreamPath) :
  In column columns_list -> substream_paths <> [] ->
  (forall substream_path, In substream_path substream_paths ->
     In substream_path (enumerateStreams column)) ->
  exists events,
    writeColumnStreams (construct columns_list) column substream_paths = Some events /\
    open_stream None events = Some None.
Proof.
  intros Hcolumn Hne Hpaths.
  destruct (proj2 (writeColumnStreams_is_Some (construct columns_list) column substream_paths))
    as [events Hevents].
  { split; [exact Hne|]. rewrite List.Forall_forall. intros path Hpath.
    apply construct_binds_substreams; [exact Hcolumn|apply Hpaths, Hpath]. }
  exists events. split; [exact Hevents|]. eapply writeColumnStreams_open, Hevents.
Qed.

End StreamPoolFacts.

Lemma construct_first_request_wins_witness :
  exists stream codec',
    StreamPool.compressed_streams
      (@StreamPool.construct StreamPool.plain_serializations StreamPool.nested_columns)
      !! "n.size0" = Some stream /\
    StreamPool.streams
      (@StreamPool.construct StreamPool.plain_serializations StreamPool.nested_columns)
      !! stream = Some codec' /\
    @StreamPool.getHash StreamPool.plain_serializations codec' = 10.
Proof.
  apply (@construct_first_request_wins StreamPool.plain_serializations
           StreamPool.nested_columns []
           [("n%2Ea", 8); ("n.size0", 11); ("n%2Ebb", 10)] "n.size0" 10);
    [reflexivity|intros request []].
Defined.

Lemma construct_covers_substreams_witness :
  is_Some (StreamPool.compressed_streams
             (@StreamPool.construct StreamPool.plain_serializations StreamPool.nested_columns)
             !! "n%2Ebb").
Proof.
  apply (@construct_covers_substreams StreamPool.plain_serializations
           StreamPool.nested_columns ("n.bb", ["n.size0"; "n%2Ebb"]) "n%2Ebb");
    [right; left; reflexivity|right; left; reflexivity].
Defined.

Lemma writeColumnStreams_one_stream_open_witness :
  StreamPool.open_stream None
    [StreamPool.Handed 0; StreamPool.Flushed 0; StreamPool.Handed 1; StreamPool.Flushed 1]
  = Some None.
Proof.
  apply (@writeColumnStreams_one_stream_open StreamPool.plain_serializations
           (@StreamPool.construct StreamPool.plain_serializations StreamPool.nested_columns)
           ("n.a", ["n.size0"; "n%2Ea"]) ["n.size0"; "n%2Ea"]).
  vm_compute. reflexivity.
Defined.

Lemma writeColumnStreams_after_construct_witness :
  exists events,
    @StreamPool.writeColumnStreams StreamPool.plain_serializations
      (@StreamPool.construct StreamPool.plain_serializations StreamPool.nested_columns)
      ("n.bb", ["n.size0"; "n%2Ebb"]) ["n.size0"; "n%2Ebb"] = Some events /\
    StreamPool.open_stream None events = Some None.
Proof.
  apply (@writeColumnStreams_after_construct StreamPool.plain_serializations
           StreamPool.nested_columns ("n.bb", ["n.size0"; "n%2Ebb"]) ["n.size0"; "n%2Ebb"]);
    [right; left; reflexivity|discriminate|intros path Hpath; exact Hpath].
Defined.

(** ** The marks file and the plan *)

Section MarksFollowPlan.
Import PlannerSpec.
Context {collaborators : Collaborators}.
Hypothesis column_size_nonneg : forall c : Column, 0 <= column_size c.
Hypothesis insertRangeFrom_size :
  forall a c : Column, column_size (insertRangeFrom a c) = column_size a + column_size c.

Lemma mark_rows_of_app l1 l2 : mark_rows_of (l1 ++ l2) = mark_rows_of l1 ++ mark_rows_of l2.
Proof. unfold mark_rows_of. apply flat_map_app. Qed.

Lemma mark_rows_of_blank tr : mark_rows_of (blank_offsets tr) = mark_rows_of tr.
Proof.
  unfold mark_rows_of, blank_offsets.
  induction tr as [|e tr IH]; [reflexivity|].
  cbn [map flat_map]. rewrite IH. destruct e; reflexivity.
Qed.

Lemma mark_rows_of_granule columns g :
  mark_rows_of (granule_protocol columns g) = [rows_to_write g].
Proof.
  unfold granule_protocol. rewrite mark_rows_of_app.
  induction columns as [|name columns IH]; [reflexivity|exact IH].
Qed.

Lemma mark_rows_of_granules columns gs :
  mark_rows_of (flat_map (granule_protocol columns) gs) = map rows_to_write gs.
Proof.
  induction gs as [|g gs IH]; [reflexivity|].
  cbn [flat_map map]. rewrite mark_rows_of_app, mark_rows_of_granule, IH. reflexivity.
Qed.

Lemma written_mark_rows block gs w :
  mark_rows_of (trace (writeDataBlockPrimaryIndexAndSkipIndices block gs w))
  = mark_rows_of (trace w) ++ map rows_to_write gs.
Proof.
  unfold writeDataBlockPrimaryIndexAndSkipIndices.
  destruct (writeDataBlock_spec block gs w) as (_ & _ & Htrace).
  set (w1 := writeDataBlock block gs w) in *.
  assert (Hw1 : mark_rows_of (trace w1) = mark_rows_of (trace w) ++ map rows_to_write gs).
  { rewrite <- (mark_rows_of_blank (trace w1)), Htrace, mark_rows_of_app,
      mark_rows_of_blank, mark_rows_of_granules. reflexivity. }
  destruct (rewrite_primary_key (settings w1)); cbn [call trace];
    rewrite !mark_rows_of_app, Hw1; cbn; rewrite ?app_nil_r; reflexivity.
Qed.

Lemma walk_full_marks R c : forall ms cr cm gs,
  walk ms false R cr cm c = Returned gs ->
  map rows_to_write gs = take (length gs) ms.
Proof.
  induction ms as [|m rest IH]; intros cr cm gs; cbn [walk];
    destruct (cr <? R); try discriminate; try (intros [= <-]; reflexivity).
  destruct (Z.ltb_spec (R - cr) m); cbn [andb negb]; [discriminate|].
  destruct (walk rest false R (cr + Z.min (R - cr) m) (cm + 1) c) as [gs'| |] eqn:Hwalk;
    cbn [outcome_map]; try discriminate.
  intros [= <-]. cbn [map length rows_to_write]. simpl.
  rewrite (IH _ _ _ Hwalk), Z.min_r by lia. reflexivity.
Qed.

Lemma fillIndexGranularity_frame G n w w1 o :
  fillIndexGranularity G n w = (w1, o) ->
  trace w1 = trace w /\ current_mark w1 = current_mark w /\
  columns_buffer w1 = columns_buffer w.
Proof.
  unfold fillIndexGranularity, bind at 1, get. cbn beta iota.
  destruct (getCurrentMark w <? getMarksCount (index_granularity w)).
  - unfold bind, markRows, ret, modify, lift.
    destruct (getMarkRows (index_granularity w) (getCurrentMark w)).
    + destruct (fillIndexGranularityImpl _ _ _ _); intros [= <- _]; repeat split.
    + intros [= <- _]. repeat split.
  - unfold bind, ret, modify, lift.
    destruct (fillIndexGranularityImpl _ _ _ _); intros [= <- _]; repeat split.
Qed.

Lemma write_buffered_mark_rows w2 w' :
  write_buffered w2 = (w', Returned tt) ->
  index_granularity w' = index_granularity w2 /\
  ((mark_rows_of (trace w') = mark_rows_of (trace w2) /\ current_mark w' = current_mark w2) \/
   exists gs,
     getGranulesToWrite (index_granularity w2) (ColumnsBuffer_size (columns_buffer w2))
       (current_mark w2) false = Returned gs /\
     mark_rows_of (trace w') = mark_rows_of (trace w2) ++ map rows_to_write gs /\
     current_mark w' = UInt64.add (current_mark w2) (Z.of_nat (length gs))).
Proof.
  unfold write_buffered.
  destruct (getMarkRows _ _); [|discriminate].
  destruct (_ <=? _); [|intros [= <-]; split; [reflexivity|left; split; reflexivity]].
  change (Block_rows (columns_buffer w2)) with (ColumnsBuffer_size (columns_buffer w2)).
  destruct (getGranulesToWrite _ _ _ _) as [gs| |] eqn:Hgs; try discriminate.
  intros [= <-].
  destruct (writeDataBlockPrimaryIndexAndSkipIndices_spec (columns_buffer w2) gs
              (with_columns_buffer [] w2)) as ((_ & Hig & Hcm & _) & _).
  cbn [with_current_mark index_granularity current_mark trace].
  split; [exact Hig|]. right. exists gs. split; [reflexivity|].
  split; [rewrite written_mark_rows; reflexivity|]. f_equal. exact Hcm.
Qed.

Lemma plan_step_extends G n done pending done' pending' :
  plan_step G n done pending done' pending' ->
  exists added, done' = done ++ added /\ (added <> [] -> pending' = None).
Proof.
  intros [Hn|m rows Hless|p added Hfull Htotal Hne Hpos Hin].
  - exists []. split; [symmetry; apply app_nil_r|congruence].
  - exists []. split; [symmetry; apply app_nil_r|congruence].
  - exists added. split; reflexivity.
Qed.

Lemma write_mark_rows w done pending block w' done' pending' :
  writer_inv w done pending -> mark_rows_of (trace w) = done ->
  totalRows done + buffered pending + Block_rows block < 2 ^ 62 ->
  write block w = (w', Returned tt) ->
  writer_inv w' done' pending' ->
  plan_step (computeIndexGranularity block) (Block_rows block) done pending done' pending' ->
  mark_rows_of (trace w') = done'.
Proof.
  intros Hinv Hmarks Hbound Hwrite Hinv' Hstep.
  assert (Hmod : UInt64.modulus = 4 * 2 ^ 62) by reflexivity.
  pose proof (plan_step_total _ _ _ _ _ _ Hstep) as Htotal.
  destruct (plan_step_extends _ _ _ _ _ _ Hstep) as (added & -> & Hpending').
  destruct Hinv as [Hcompute Hplan Hmark Hbuffer Hpending Hdone _].
  destruct Hinv' as [_ Hplan' Hmark' _ Hpend' Hdone' _].
  pose proof (positive_total_nonneg _ Hdone') as Hdone0.
  pose proof (positive_length_le _ Hdone') as Hlen'.
  rewrite length_app in Hmark', Hlen'.
  rewrite (write_unfold (collaborators := collaborators)) in Hwrite by exact Hcompute.
  destruct (fillIndexGranularity _ _ w) as [w1 [[]| |]] eqn:Hfill; try discriminate.
  destruct (fillIndexGranularity_frame _ _ _ _ _ Hfill) as (Htrace1 & Hcm1 & Hbuf1).
  destruct (write_buffered_mark_rows _ _ Hwrite) as [Hig [[Hsame Hcm]|(gs & Hgs & Htrace & Hcm)]];
    cbn [with_columns_buffer trace current_mark index_granularity columns_buffer] in *.
  - rewrite Hsame, Htrace1, Hmarks.
    assert (Hnil : added = []).
    { destruct added; [reflexivity|]. cbn [length] in Hmark'. lia. }
    rewrite Hnil, app_nil_r. reflexivity.
  - rewrite Htrace, Htrace1, Hmarks. f_equal.
    rewrite <- Hig, Hplan', Hcm1, Hmark, Hbuf1 in Hgs.
    rewrite (ColumnsBuffer_size_add insertRangeFrom_size), Hbuffer in Hgs.
    pose proof (Block_rows_nonneg column_size_nonneg block) as Hn0.
    assert (Hrange : plan_in_range (plan_of (done ++ added) pending')).
    { destruct pending' as [[m rows]|]; cbn [plan_of buffered] in *.
      - apply positive_plan_in_range.
        + apply Forall_app. split; [exact Hdone'|]. repeat constructor. lia.
        + rewrite totalRows_app. cbn. lia.
      - apply positive_plan_in_range; [exact Hdone'|lia]. }
    pose proof (getGranulesToWrite_returned_inside _ _ _ _ _ Hgs) as Hinside.
    assert (Hbuffered : 0 <= buffered pending).
    { destruct pending as [[m rows]|]; cbn [buffered] in *; lia. }
    pose proof (positive_total_nonneg _ Hdone) as Hflushed.
    rewrite getGranulesToWrite_walk in Hgs; [|exact Hrange|lia|lia].
    rewrite Nat2Z.id in Hgs.
    pose proof (walk_length _ _ _ _ _ _ _ Hgs) as Hshort.
    pose proof (walk_full_marks _ _ _ _ _ _ Hgs) as Hrows.
    assert (Hdrop : drop (length done) (plan_of (done ++ added) pending')
                    = added ++ match pending' with Some (m, _) => [m] | None => [] end).
    { destruct pending' as [[m rows]|]; cbn [plan_of].
      - rewrite <- app_assoc, drop_app_length. reflexivity.
      - rewrite drop_app_length, app_nil_r. reflexivity. }
    rewrite Hdrop in Hshort, Hrows.
    rewrite length_app in Hshort.
    assert (Hone : (length (match pending' with Some (m, _) => [m] | None => [] end) <= 1)%nat).
    { destruct pending' as [[m rows]|]; cbn; lia. }
    assert (Hbuffered' : 0 <= buffered pending').
    { destruct pending' as [[m rows]|]; cbn [buffered] in *; lia. }
    rewrite Hcm1, Hmark, UInt64_add_small in Hcm by lia.
    rewrite Hcm in Hmark'.
    assert (Hk : length gs = length added) by lia.
    rewrite Hrows, Hk, take_app_length. reflexivity.
Qed.

Lemma writeAll_mark_rows : forall blocks w done pending w',
  writer_inv w done pending -> mark_rows_of (trace w) = done ->
  Forall (fun block => 1 <= computeIndexGranularity block < 2 ^ 62) blocks ->
  totalRows done + buffered pending + blocks_rows blocks < 2 ^ 62 ->
  writeAll blocks w = (w', Returned tt) ->
  exists done' pending',
    writer_inv w' done' pending' /\ mark_rows_of (trace w') = done' /\
    totalRows done' + buffered pending' = totalRows done + buffered pending + blocks_rows blocks.
Proof.
  induction blocks as [|block rest IH]; intros w done pending w' Hinv Hmarks HG Hbound Hrun;
    cbn [writeAll] in Hrun.
  - injection Hrun as <-. exists done, pending.
    split; [exact Hinv|split; [exact Hmarks|cbn [blocks_rows fold_right]; lia]].
  - apply List.Forall_cons_iff in HG as [HGb HGrest].
    cbn [blocks_rows fold_right] in *. fold (blocks_rows rest) in *.
    pose proof (Block_rows_nonneg column_size_nonneg block) as Hn0.
    pose proof (blocks_rows_nonneg column_size_nonneg rest) as Hrest0.
    unfold bind in Hrun.
    destruct (write_step column_size_nonneg insertRangeFrom_size w done pending block
                Hinv HGb ltac:(lia))
      as [(_ & _ & w1 & e & Hw)|(w1 & done1 & pending1 & Hw & _ & Hinv1 & Hstep)];
      rewrite Hw in Hrun; [discriminate|].
    pose proof (plan_step_total _ _ _ _ _ _ Hstep) as Htotal.
    pose proof (write_mark_rows w done pending block w1 done1 pending1
                  Hinv Hmarks ltac:(lia) Hw Hinv1 Hstep) as Hmarks1.
    destruct (IH w1 done1 pending1 w' Hinv1 Hmarks1 HGrest ltac:(lia) Hrun)
      as (done' & pending' & Hinv' & Hmarks' & Htotal').
    exists done', pending'. split; [exact Hinv'|]. split; [exact Hmarks'|]. lia.
Qed.

(** X26: the marks file follows the plan.  After any sequence of writes
    that returned, the row counts written to the marks file are the marks of
    the plan before the cursor, one for one and in order; the final flush
    returns, and after it they are the whole plan. *)
Theorem marks_file_follows_plan (s : Settings) (sinks0 : Sinks)
    (blocks : list Block) (w : Writer) :
  compute_granularity s = true ->
  Forall (fun block => 1 <= computeIndexGranularity block < 2 ^ 62) blocks ->
  blocks_rows blocks < 2 ^ 62 ->
  writeAll blocks (new_writer s [] sinks0) = (w, Returned tt) ->
  mark_rows_of (trace w) = take (Z.to_nat (current_mark w)) (index_granularity w) /\
  exists w', flushColumnsBuffer w = (w', Returned tt) /\
    mark_rows_of (trace w') = index_granularity w'.
Proof.
  intros Hcompute HG Hbound Hrun.
  pose proof (blocks_rows_nonneg column_size_nonneg blocks) as HR0.
  destruct (writeAll_mark_rows blocks (new_writer s [] sinks0) [] None w
              (new_writer_inv s sinks0 Hcompute) eq_refl HG ltac:(cbn; lia) Hrun)
    as (done & pending & Hinv & Hmarks & Htotal).
  cbn in Htotal.
  pose proof Hinv as [_ Hplan Hmark Hbuffer Hpending Hdone _].
  split.
  - rewrite Hmarks, Hplan, Hmark, Nat2Z.id.
    destruct pending as [[m rows]|]; cbn [plan_of].
    + rewrite take_app_length. reflexivity.
    + rewrite firstn_all. reflexivity.
  - pose proof (positive_total_nonneg done Hdone) as Hdone0.
    assert (Hflushed : totalRows done + buffered pending < 2 ^ 62) by lia.
    destruct (flushColumnsBuffer_inv w done pending Hinv Hflushed)
      as (w' & Hflush & _ & Hplan' & _ & Hlast).
    exists w'. split; [exact Hflush|]. rewrite Hplan'.
    destruct pending as [[m rows]|].
    + destruct Hlast as (back & Hgs & _ & Hrows).
      rewrite flushColumnsBuffer_unfold in Hflush.
      cbn [buffered] in Hbuffer. destruct Hpending as [Hpos _].
      destruct (Z.eqb_spec (ColumnsBuffer_size (columns_buffer w)) 0); [lia|].
      change (Block_rows (columns_buffer w)) with (ColumnsBuffer_size (columns_buffer w))
        in Hflush.
      rewrite Hgs in Hflush. injection Hflush as <-.
      rewrite written_mark_rows. cbn [with_index_granularity with_columns_buffer trace map].
      rewrite Hmarks, Hrows. reflexivity.
    + subst w'. rewrite app_nil_r. exact Hmarks.
Qed.

End MarksFollowPlan.

Lemma marks_file_follows_plan_witness :
  let w := fst (@writeAll plain_collaborators [[150; 150]; [30; 30]]%nat
                  (@new_writer plain_collaborators (two_columns true) [] 0)) in
  mark_rows_of (trace w) = take (Z.to_nat (current_mark w)) (index_granularity w) /\
  exists w', @flushColumnsBuffer plain_collaborators w = (w', Returned tt) /\
    mark_rows_of (trace w') = index_granularity w'.
Proof.
  intros w.
  apply (@marks_file_follows_plan plain_collaborators
           plain_column_size_nonneg plain_insertRangeFrom_size
           (two_columns true) 0 [[150; 150]; [30; 30]]%nat w);
    [reflexivity| |reflexivity|vm_compute; reflexivity].
  repeat constructor; cbn; lia.
Defined.

(** ** The errors of [write] come before any output *)

Section WriteErrors.
Context {collaborators : Collaborators}.

Lemma write_buffered_thrown w2 w' e :
  write_buffered w2 = (w', Thrown e) ->
  trace w' = trace w2 /\ sinks w' = sinks w2 /\ current_mark w' = current_mark w2 /\
  data_written w' = data_written w2.
Proof.
  unfold write_buffered.
  destruct (getMarkRows _ _); [|intros [= <- _]; repeat split].
  destruct (_ <=? _); [|discriminate].
  destruct (getGranulesToWrite _ _ _ _); try discriminate.
  intros [= <- _]. repeat split.
Qed.

Lemma fillIndexGranularity_output G n w w1 o :
  fillIndexGranularity G n w = (w1, o) ->
  trace w1 = trace w /\ sinks w1 = sinks w /\ current_mark w1 = current_mark w /\
  data_written w1 = data_written w.
Proof.
  unfold fillIndexGranularity, bind at 1, get. cbn beta iota.
  destruct (getCurrentMark w <? getMarksCount (index_granularity w)).
  - unfold bind, markRows, ret, modify, lift.
    destruct (getMarkRows (index_granularity w) (getCurrentMark w)).
    + destruct (fillIndexGranularityImpl _ _ _ _); intros [= <- _]; repeat split.
    + intros [= <- _]. repeat split.
  - unfold bind, ret, modify, lift.
    destruct (fillIndexGranularityImpl _ _ _ _); intros [= <- _]; repeat split.
Qed.

(** X27: [write] throws before it writes.  When [write] throws an error of
    the plan or of the planner, no mark, granule or index entry has been
    written by the call, the buffers are as they were and the cursor has not
    moved. *)
Theorem write_throws_before_writing (block : Block) (w w' : Writer) (e : Exception) :
  write block w = (w', Thrown e) ->
  trace w' = trace w /\ sinks w' = sinks w /\ current_mark w' = current_mark w /\
  data_written w' = data_written w.
Proof.
  destruct (compute_granularity (settings w)) eqn:Hcompute.
  - rewrite (write_unfold (collaborators := collaborators)) by exact Hcompute.
    destruct (fillIndexGranularity _ _ w) as [w1 o] eqn:Hfill.
    destruct (fillIndexGranularity_output _ _ _ _ _ Hfill) as (H1 & H2 & H3 & H4).
    destruct o as [[]|e1|].
    + intros Hthrown. apply write_buffered_thrown in Hthrown.
      cbn [with_columns_buffer trace sinks current_mark data_written] in Hthrown.
      destruct Hthrown as (T1 & T2 & T3 & T4).
      rewrite T1, T2, T3, T4. repeat split; assumption.
    + intros [= <- _]. repeat split; assumption.
    + discriminate.
  - rewrite (write_unfold_precomputed (collaborators := collaborators)) by exact Hcompute.
    intros Hthrown. apply write_buffered_thrown in Hthrown. exact Hthrown.
Qed.

End WriteErrors.

Lemma write_throws_before_writing_witness :
  let w := @new_writer plain_collaborators one_column_precomputed [100; 100] 0 in
  let w' := fst (@write plain_collaborators [150]%nat w) in
  trace w' = trace w /\ sinks w' = sinks w /\ current_mark w' = current_mark w /\
  data_written w' = data_written w.
Proof.
  intros w w'.
  apply (@write_throws_before_writing plain_collaborators [150]%nat w w' (TooFewRows 100 50)).
  vm_compute. reflexivity.
Defined.

(** ** The checksums of a run of the writer *)

Section ChecksumsOfARun.
Context {collaborators : Collaborators}.




Lemma fillIndexGranularity_settings G n w :
  settings (fst (fillIndexGranularity G n w)) = settings w.
Proof.
  unfold fillIndexGranularity, bind at 1, get. cbn beta iota.
  destruct (getCurrentMark w <? getMarksCount (index_granularity w)).
  - unfold bind, markRows, ret, modify, lift.
    destruct (getMarkRows (index_granularity w) (getCurrentMark w)); [|reflexivity].
    destruct (fillIndexGranularityImpl _ _ _ _); reflexivity.
  - unfold bind, ret, modify, lift.
    destruct (fillIndexGranularityImpl _ _ _ _); reflexivity.
Qed.

Lemma write_settings block w : settings (fst (write block w)) = settings w.
Proof.
  destruct (compute_granularity (settings w)) eqn:Hcompute.
  - rewrite (write_unfold (collaborators := collaborators)) by exact Hcompute.
    pose proof (fillIndexGranularity_settings (computeIndexGranularity block)
                  (Block_rows block) w) as Hfill.
    destruct (fillIndexGranularity _ _ w) as [w1 [[]| |]]; cbn [fst] in *; try exact Hfill.
    rewrite (proj2 (write_buffered_plan _)). exact Hfill.
  - rewrite (write_unfold_precomputed (collaborators := collaborators)) by exact Hcompute.
    exact (proj2 (write_buffered_plan _)).
Qed.

Lemma writeAll_settings : forall blocks w, settings (fst (writeAll blocks w)) = settings w.
Proof.
  induction blocks as [|block rest IH]; intros w; cbn [writeAll]; [reflexivity|].
  unfold bind. pose proof (write_settings block w) as Hwrite.
  destruct (write block w) as [w1 [[]| |]]; cbn [fst] in *; try exact Hwrite.
  rewrite IH. exact Hwrite.
Qed.


End ChecksumsOfARun.


(** ** The rows of a run, flush by flush *)

Section RowsInOrder.
Import PlannerSpec.
Context {collaborators : Collaborators}.
Hypothesis column_size_nonneg : forall c : Column, 0 <= column_size c.
Hypothesis insertRangeFrom_size :
  forall a c : Column, column_size (insertRangeFrom a c) = column_size a + column_size c.

Lemma written_trace block gs w :
  blank_offsets (trace (writeDataBlockPrimaryIndexAndSkipIndices block gs w))
  = blank_offsets (trace w) ++ flush_protocol (settings w) gs.
Proof.
  unfold writeDataBlockPrimaryIndexAndSkipIndices, flush_protocol.
  destruct (writeDataBlock_spec block gs w) as ((Hs & _) & _ & Htrace).
  set (w1 := writeDataBlock block gs w) in *. rewrite Hs.
  destruct (rewrite_primary_key (settings w)); cbn [call trace];
    rewrite !blank_offsets_app, Htrace, <- ?app_assoc; reflexivity.
Qed.

Lemma write_buffered_trace w2 w' :
  write_buffered w2 = (w', Returned tt) ->
  (trace w' = trace w2 /\ current_mark w' = current_mark w2) \/
  exists gs,
    getGranulesToWrite (index_granularity w2) (ColumnsBuffer_size (columns_buffer w2))
      (current_mark w2) false = Returned gs /\
    blank_offsets (trace w')
    = blank_offsets (trace w2) ++ flush_protocol (settings w2) gs /\
    current_mark w' = UInt64.add (current_mark w2) (Z.of_nat (length gs)).
Proof.
  unfold write_buffered.
  destruct (getMarkRows _ _); [|discriminate].
  destruct (_ <=? _); [|intros [= <-]; left; split; reflexivity].
  change (Block_rows (columns_buffer w2)) with (ColumnsBuffer_size (columns_buffer w2)).
  destruct (getGranulesToWrite _ _ _ _) as [gs| |] eqn:Hgs; try discriminate.
  intros Hw'. right. exists gs. split; [reflexivity|].
  pose proof (written_trace (columns_buffer w2) gs (with_columns_buffer [] w2)) as Htrace.
  destruct (writeDataBlockPrimaryIndexAndSkipIndices_spec (columns_buffer w2) gs
              (with_columns_buffer [] w2)) as ((_ & _ & Hcm & _) & _).
  set (w3 := writeDataBlockPrimaryIndexAndSkipIndices (columns_buffer w2) gs
               (with_columns_buffer [] w2)) in *.
  injection Hw' as <-. cbn [with_current_mark trace current_mark].
  split; [exact Htrace|]. f_equal. exact Hcm.
Qed.

Lemma walk_contiguous R c : forall ms cr cm gs,
  Forall (fun x => 0 < x) ms ->
  walk ms false R cr cm c = Returned gs -> contiguous cr gs.
Proof.
  induction ms as [|m rest IH]; intros cr cm gs Hms; cbn [walk];
    destruct (Z.ltb_spec cr R); try discriminate; try (intros [= <-]; exact I).
  inversion Hms as [|? ? Hm Hrest]; subst.
  destruct (Z.ltb_spec (R - cr) m); cbn [andb negb]; [discriminate|].
  destruct (walk rest false R (cr + Z.min (R - cr) m) (cm + 1) c) as [gs'| |] eqn:Hwalk;
    cbn [outcome_map]; try discriminate.
  intros [= <-]. cbn [contiguous start_row rows_to_write].
  split; [reflexivity|]. split; [lia|]. eapply IH; eassumption.
Qed.

Lemma granule_rows_map gs : granule_rows gs = totalRows (map rows_to_write gs).
Proof.
  induction gs as [|g gs IH]; [reflexivity|].
  rewrite granule_rows_cons. cbn [map]. rewrite totalRows_cons, IH. reflexivity.
Qed.

Lemma write_rows_in_order w done pending block w' done' pending' :
  writer_inv w done pending ->
  totalRows done + buffered pending + Block_rows block < 2 ^ 62 ->
  write block w = (w', Returned tt) ->
  writer_inv w' done' pending' ->
  plan_step (computeIndexGranularity block) (Block_rows block) done pending done' pending' ->
  (blank_offsets (trace w') = blank_offsets (trace w) /\ done' = done) \/
  exists gs,
    blank_offsets (trace w') = blank_offsets (trace w) ++ flush_protocol (settings w) gs /\
    contiguous 0 gs /\ totalRows done' = totalRows done + granule_rows gs.
Proof.
  intros Hinv Hbound Hwrite Hinv' Hstep.
  assert (Hmod : UInt64.modulus = 4 * 2 ^ 62) by reflexivity.
  pose proof (plan_step_total _ _ _ _ _ _ Hstep) as Htotal.
  destruct (plan_step_extends _ _ _ _ _ _ Hstep) as (added & -> & Hpending').
  destruct Hinv as [Hcompute Hplan Hmark Hbuffer Hpending Hdone _].
  destruct Hinv' as [_ Hplan' Hmark' _ Hpend' Hdone' _].
  pose proof (positive_total_nonneg _ Hdone') as Hdone0.
  pose proof (positive_total_nonneg _ Hdone) as Hflushed.
  pose proof (positive_length_le _ Hdone') as Hlen'.
  rewrite length_app in Hmark', Hlen'.
  rewrite (write_unfold (collaborators := collaborators)) in Hwrite by exact Hcompute.
  pose proof (fillIndexGranularity_settings (computeIndexGranularity block)
                (Block_rows block) w) as Hs1.
  destruct (fillIndexGranularity _ _ w) as [w1 [[]| |]] eqn:Hfill; try discriminate.
  cbn [fst] in Hs1.
  destruct (fillIndexGranularity_frame _ _ _ _ _ Hfill) as (Htrace1 & Hcm1 & Hbuf1).
  pose proof (write_buffered_plan
                (with_columns_buffer (ColumnsBuffer_add (columns_buffer w1) block) w1))
    as [Hig _].
  rewrite Hwrite in Hig. cbn [fst with_columns_buffer index_granularity] in Hig.
  destruct (write_buffered_trace _ _ Hwrite) as [[Hsame Hcm]|(gs & Hgs & Htrace & Hcm)];
    cbn [with_columns_buffer trace current_mark index_granularity columns_buffer settings] in *.
  - left. rewrite Hsame, Htrace1. split; [reflexivity|].
    assert (Hnil : added = []).
    { destruct added; [reflexivity|]. cbn [length] in Hmark'. lia. }
    rewrite Hnil, app_nil_r. reflexivity.
  - right. exists gs. rewrite Htrace, Htrace1, Hs1.
    split; [reflexivity|].
    rewrite <- Hig, Hplan', Hcm1, Hmark, Hbuf1 in Hgs.
    rewrite (ColumnsBuffer_size_add insertRangeFrom_size), Hbuffer in Hgs.
    pose proof (Block_rows_nonneg column_size_nonneg block) as Hn0.
    assert (Hpositive : Forall (fun x => 0 < x) (plan_of (done ++ added) pending')).
    { destruct pending' as [[m rows]|]; cbn [plan_of]; [|exact Hdone'].
      apply Forall_app. split; [exact Hdone'|]. repeat constructor. lia. }
    assert (Hrange : plan_in_range (plan_of (done ++ added) pending')).
    { apply positive_plan_in_range; [exact Hpositive|].
      destruct pending' as [[m rows]|]; cbn [plan_of buffered] in *.
      - rewrite totalRows_app. cbn. lia.
      - lia. }
    pose proof (getGranulesToWrite_returned_inside _ _ _ _ _ Hgs) as Hinside.
    assert (Hbuffered : 0 <= buffered pending).
    { destruct pending as [[m rows]|]; cbn [buffered] in *; lia. }
    rewrite getGranulesToWrite_walk in Hgs; [|exact Hrange|lia|lia].
    rewrite Nat2Z.id in Hgs.
    pose proof (walk_length _ _ _ _ _ _ _ Hgs) as Hshort.
    pose proof (walk_full_marks _ _ _ _ _ _ Hgs) as Hrows.
    pose proof (walk_contiguous _ _ _ _ _ _ (Forall_drop _ _ _ Hpositive) Hgs) as Hcontiguous.
    assert (Hdrop : drop (length done) (plan_of (done ++ added) pending')
                    = added ++ match pending' with Some (m, _) => [m] | None => [] end).
    { destruct pending' as [[m rows]|]; cbn [plan_of].
      - rewrite <- app_assoc, drop_app_length. reflexivity.
      - rewrite drop_app_length, app_nil_r. reflexivity. }
    rewrite Hdrop in Hshort, Hrows.
    rewrite length_app in Hshort.
    assert (Hone : (length (match pending' with Some (m, _) => [m] | None => [] end) <= 1)%nat).
    { destruct pending' as [[m rows]|]; cbn; lia. }
    assert (Hbuffered' : 0 <= buffered pending').
    { destruct pending' as [[m rows]|]; cbn [buffered] in *; lia. }
    rewrite Hcm1, Hmark, UInt64_add_small in Hcm by lia.
    rewrite Hcm in Hmark'.
    assert (Hk : length gs = length added) by lia.
    rewrite Hk, take_app_length in Hrows.
    split; [exact Hcontiguous|].
    rewrite granule_rows_map, Hrows, totalRows_app. reflexivity.
Qed.

Lemma flushed_rows_app l1 l2 : flushed_rows (l1 ++ l2) = flushed_rows l1 + flushed_rows l2.
Proof.
  unfold flushed_rows. induction l1 as [|gs l1 IH]; cbn [app fold_right]; [lia|].
  rewrite IH. lia.
Qed.

Lemma writeAll_rows_in_order : forall blocks w done pending w' flushes,
  writer_inv w done pending ->
  blank_offsets (trace w) = flat_map (flush_protocol (settings w)) flushes ->
  Forall (contiguous 0) flushes -> flushed_rows flushes = totalRows done ->
  Forall (fun block => 1 <= computeIndexGranularity block < 2 ^ 62) blocks ->
  totalRows done + buffered pending + blocks_rows blocks < 2 ^ 62 ->
  writeAll blocks w = (w', Returned tt) ->
  exists done' pending' flushes',
    writer_inv w' done' pending' /\
    blank_offsets (trace w') = flat_map (flush_protocol (settings w)) flushes' /\
    Forall (contiguous 0) flushes' /\ flushed_rows flushes' = totalRows done' /\
    totalRows done' + buffered pending' = totalRows done + buffered pending + blocks_rows blocks.
Proof.
  induction blocks as [|block rest IH];
    intros w done pending w' flushes Hinv Htrace Hcontiguous Hrows HG Hbound Hrun;
    cbn [writeAll] in Hrun.
  - injection Hrun as <-. exists done, pending, flushes.
    split; [exact Hinv|]. split; [exact Htrace|]. split; [exact Hcontiguous|].
    split; [exact Hrows|]. cbn [blocks_rows fold_right]. lia.
  - apply List.Forall_cons_iff in HG as [HGb HGrest].
    cbn [blocks_rows fold_right] in *. fold (blocks_rows rest) in *.
    pose proof (Block_rows_nonneg column_size_nonneg block) as Hn0.
    pose proof (blocks_rows_nonneg column_size_nonneg rest) as Hrest0.
    unfold bind in Hrun.
    destruct (write_step column_size_nonneg insertRangeFrom_size w done pending block
                Hinv HGb ltac:(lia))
      as [(_ & _ & w1 & e & Hw)|(w1 & done1 & pending1 & Hw & Hs1 & Hinv1 & Hstep)];
      rewrite Hw in Hrun; [discriminate|].
    pose proof (plan_step_total _ _ _ _ _ _ Hstep) as Htotal.
    assert (Hnext : exists flushes1,
              blank_offsets (trace w1) = flat_map (flush_protocol (settings w1)) flushes1 /\
              Forall (contiguous 0) flushes1 /\ flushed_rows flushes1 = totalRows done1).
    { destruct (write_rows_in_order w done pending block w1 done1 pending1
                  Hinv ltac:(lia) Hw Hinv1 Hstep) as [[Hsame ->]|(gs & Hgs & Hc & Hsum)].
      - exists flushes. rewrite Hsame, Hs1. repeat split; assumption.
      - exists (flushes ++ [gs]). rewrite Hgs, Htrace, Hs1, flat_map_app.
        cbn [flat_map]. rewrite app_nil_r. split; [reflexivity|].
        split; [apply Forall_app; split; [exact Hcontiguous|repeat constructor; exact Hc]|].
        rewrite flushed_rows_app. unfold flushed_rows at 2. cbn [fold_right]. lia. }
    destruct Hnext as (flushes1 & Htrace1 & Hcontiguous1 & Hrows1).
    destruct (IH w1 done1 pending1 w' flushes1 Hinv1 Htrace1 Hcontiguous1 Hrows1 HGrest
                ltac:(lia) Hrun)
      as (done' & pending' & flushes' & Hinv' & Htrace' & Hcontiguous' & Hrows' & Htotal').
    exists done', pending', flushes'. rewrite <- Hs1.
    split; [exact Hinv'|]. split; [exact Htrace'|]. split; [exact Hcontiguous'|].
    split; [exact Hrows'|]. lia.
Qed.

(** X11: the rows of a run, flush by flush.  After any sequence of writes
    that returned, the marks before the cursor hold the rows written minus the
    rows still buffered, and every column has had that many rows serialized
    for each place it has in the list.  The calls made are those of a
    sequence of flushes and nothing else: in each flush, granule by granule
    and column by column in the order of the list, a mark record and the rows
    of the granule; the granules of a flush start at row 0 of the flushed
    block, each has at least one row and each starts where the one before
    ended; and the rows of all the granules are the rows written minus the
    rows still buffered. *)
Theorem write_accounts_for_rows (s : Settings) (sinks0 : Sinks)
    (blocks : list Block) (w : Writer) :
  compute_granularity s = true ->
  Forall (fun block => 1 <= computeIndexGranularity block < 2 ^ 62) blocks ->
  blocks_rows blocks < 2 ^ 62 ->
  writeAll blocks (new_writer s [] sinks0) = (w, Returned tt) ->
  let flushed := blocks_rows blocks - ColumnsBuffer_size (columns_buffer w) in
  totalRows (take (Z.to_nat (current_mark w)) (index_granularity w)) = flushed /\
  (forall name,
     serialized_rows name (trace w) = column_multiplicity name (columns_list s) * flushed) /\
  exists flushes : list Granules,
    blank_offsets (trace w) = flat_map (flush_protocol s) flushes /\
    Forall (contiguous 0) flushes /\
    flushed_rows flushes = flushed.
Proof.
  intros Hcompute HG Hbound Hrun flushed. subst flushed.
  pose proof (blocks_rows_nonneg column_size_nonneg blocks) as HR0.
  destruct (writeAll_rows_in_order blocks (new_writer s [] sinks0) [] None w []
              (new_writer_inv s sinks0 Hcompute) eq_refl (List.Forall_nil _) eq_refl HG
              ltac:(cbn; lia) Hrun)
    as (done & pending & flushes & Hinv & Htrace & Hcontiguous & Hrows & Htotal).
  cbn [new_writer settings totalRows fold_right buffered] in Htrace, Htotal.
  pose proof Hinv as [_ Hplan Hmark Hbuffer _ _ Hser].
  assert (Hs : settings w = s).
  { pose proof (writeAll_settings blocks (new_writer s [] sinks0)) as H.
    rewrite Hrun in H. exact H. }
  rewrite Hplan, Hmark, Hbuffer, Nat2Z.id.
  replace (blocks_rows blocks - buffered pending) with (totalRows done) by lia.
  split; [|split].
  - destruct pending as [[m rows]|]; cbn [plan_of].
    + rewrite take_app_length. reflexivity.
    + rewrite firstn_all. reflexivity.
  - intros name. rewrite Hser, Hs. reflexivity.
  - exists flushes. repeat split; assumption.
Qed.

End RowsInOrder.

Lemma write_accounts_for_rows_witness :
  let w := fst (@writeAll plain_collaborators [[150; 150]; [30; 30]; [120; 120]]%nat
                  (@new_writer plain_collaborators (two_columns true) [] 0)) in
  exists flushes : list Granules,
    blank_offsets (trace w) = flat_map (flush_protocol (two_columns true)) flushes /\
    Forall (contiguous 0) flushes /\
    flushed_rows flushes
    = @blocks_rows plain_collaborators [[150; 150]; [30; 30]; [120; 120]]%nat
      - ColumnsBuffer_size (columns_buffer w).
Proof.
  intros w.
  apply (@write_accounts_for_rows plain_collaborators
           plain_column_size_nonneg plain_insertRangeFrom_size
           (two_columns true) 0 [[150; 150]; [30; 30]; [120; 120]]%nat w);
    [reflexivity| |reflexivity|vm_compute; reflexivity].
  repeat constructor; cbn; lia.
Defined.
